(** * Structural equality of JavaScript values

    A shallow embedding of the structural equality function [equal] and
    of the helpers it is built from ([get_type], the dispatch table
    [equal_test], [unsorted_identical], [sorted_identical]), followed by
    the properties established of them.

    JavaScript values are modelled as primitives and references into a
    store of objects.  The comparison is written in a state and error
    monad over that store: reading an object is a read of the store, the
    two arrays built by the [Map] test are allocated in it and [splice]
    writes to it.  Recursion on nested values is bounded by a fuel that
    plays the role of the call stack.

    The objects are object literals and class instances, arrays, typed
    arrays, maps, sets, dates, regular expressions, errors and
    functions.  Left out: wrapper objects ([new Number(1)]), objects
    without a constructor ([Object.create(null)]), arrays with holes,
    getters and proxies.  Strings are sequences of 8-bit characters,
    standing for code units.

    The publish and subscribe script of the repository ([subscribe],
    [send], [unsubscribe]) is embedded over the same store, with the
    behaviour of the handlers as a parameter. *)

From Stdlib Require Import ZArith QArith Qcanon Ascii.
From stdpp Require Import gmap strings list pretty sorting.

Local Open Scope string_scope.
Local Open Scope nat_scope.
#[local] Set Warnings "-clear-no-such-hyp".

(** ** Values *)

(** Numbers.  A finite number is represented by its mathematical value,
    a rational; [+0] and [-0] are identified, as no operation used by
    [equal] ([===], [==], [isNaN], [indexOf], [Set.prototype.has], [Map]
    lookup) tells them apart. *)
Inductive number :=
  | NaN
  | PosInfinity
  | NegInfinity
  | Finite (q : Qc).

(** The number with an integer value *)
Definition integer (z : Z) : number := Finite (Q2Qc (inject_Z z)).

(** Locations of the store *)
Abbreviation loc := nat (only parsing).

Inductive prim :=
  | PUndefined
  | PNull
  | PBoolean (b : bool)
  | PNumber (n : number)
  | PBigInt (z : Z)
  | PString (s : string)
  | PSymbol (id : nat).

Inductive value :=
  | Prim (p : prim)
  | Ref (l : loc).

Coercion Prim : prim >-> value.

Global Instance number_eq_dec : EqDecision number.
Proof. solve_decision. Defined.
Global Instance prim_eq_dec : EqDecision prim.
Proof. solve_decision. Defined.
Global Instance value_eq_dec : EqDecision value.
Proof. solve_decision. Defined.

Definition undefined : value := Prim PUndefined.
Definition null : value := Prim PNull.
Definition num (z : Z) : value := Prim (PNumber (integer z)).
Definition bigint (z : Z) : value := Prim (PBigInt z).
Definition str (s : string) : value := Prim (PString s).

(** ** Objects and the store *)

Inductive typed_array :=
  | Int8Array | Uint8Array | Uint8ClampedArray
  | Int16Array | Uint16Array
  | Int32Array | Uint32Array
  | Float32Array | Float64Array.

Definition typed_array_name (t : typed_array) : string :=
  match t with
  | Int8Array => "Int8Array"
  | Uint8Array => "Uint8Array"
  | Uint8ClampedArray => "Uint8ClampedArray"
  | Int16Array => "Int16Array"
  | Uint16Array => "Uint16Array"
  | Int32Array => "Int32Array"
  | Uint32Array => "Uint32Array"
  | Float32Array => "Float32Array"
  | Float64Array => "Float64Array"
  end.

(** What an object is besides a bag of properties: its constructor and
    the data held in internal slots or indexed elements. *)
Inductive kind :=
  | KObject (cname : string)
      (* an object literal ([cname = "Object"]) or an instance of the
         class named [cname] *)
  | KArray (elems : list value)
  | KTypedArray (t : typed_array) (elems : list value)
  | KMap (entries : list (value * value))      (* in insertion order *)
  | KSet (elems : list value)                  (* in insertion order *)
  | KDate (tv : number)                        (* time value, or NaN *)
  | KRegExp (source flags : string)
  | KError (cname : string) (message : value)
      (* an error made by the constructor named [cname]: ["Error"],
         ["TypeError"], ["RangeError"], ... *)
  | KFunction (cname : string).
      (* a function; its constructor is named ["Function"],
         ["AsyncFunction"], ["GeneratorFunction"] or
         ["AsyncGeneratorFunction"] *)

(** [props] lists the own enumerable string-keyed properties in the
    order [Object.keys] reports them, array indices excluded (they come
    from [elems]).  [to_primitive] is the primitive that the object's
    [valueOf]/[toString] conversion yields when [==] compares the object
    with a primitive. *)
Record object := Obj {
  kind_of : kind;
  props : list (string * value);
  to_primitive : prim;
}.

Abbreviation store := (list object) (only parsing).

Definition constructor_name (k : kind) : string :=
  match k with
  | KObject cname => cname
  | KArray _ => "Array"
  | KTypedArray t _ => typed_array_name t
  | KMap _ => "Map"
  | KSet _ => "Set"
  | KDate _ => "Date"
  | KRegExp _ _ => "RegExp"
  | KError cname _ => cname
  | KFunction cname => cname
  end.

(** ** Outcomes and the store monad *)

(** [TypeError] is the JavaScript exception.  [StackOverflow] is
    recursion deeper than the fuel.  [Unsupported] marks what lies
    outside the modelled fragment: a reference to no object, or a member
    read from an object that lacks it (only an instance of a class that
    reuses the name of a built-in constructor gets there). *)
Inductive outcome (A : Type) :=
  | Ok (a : A)
  | TypeError
  | StackOverflow
  | Unsupported.
Arguments Ok {A} a.
Arguments TypeError {A}.
Arguments StackOverflow {A}.
Arguments Unsupported {A}.

Definition M (A : Type) : Type := store → outcome A * store.

Definition ret {A} (a : A) : M A := λ σ, (Ok a, σ).
Definition type_error {A} : M A := λ σ, (TypeError, σ).
Definition stack_overflow {A} : M A := λ σ, (StackOverflow, σ).
Definition unsupported {A} : M A := λ σ, (Unsupported, σ).

Definition bind {A B} (m : M A) (f : A → M B) : M B := λ σ,
  match m σ with
  | (Ok a, σ') => f a σ'
  | (TypeError, σ') => (TypeError, σ')
  | (StackOverflow, σ') => (StackOverflow, σ')
  | (Unsupported, σ') => (Unsupported, σ')
  end.

Notation "'let!' x ':=' m 'in' k" := (bind m (λ x, k))
  (at level 10, x name, m at level 100, k at level 200,
   format "'[v' 'let!'  x  ':='  m  'in' '/' k ']'").

Definition deref (l : loc) : M object := λ σ,
  match σ !! l with
  | Some o => (Ok o, σ)
  | None => (Unsupported, σ)
  end.

Definition alloc (o : object) : M loc := λ σ, (Ok (length σ), (σ ++ [o])%list).

Definition write (l : loc) (o : object) : M unit := λ σ,
  (Ok tt, <[l := o]> σ).

(** [for (let x of xs) if (!body(x)) return false; return true] *)
Fixpoint for_all {A} (body : A → M bool) (xs : list A) : M bool :=
  match xs with
  | [] => ret true
  | x :: xs' =>
      let! r := body x in
      if r then for_all body xs' else ret false
  end.

(** ** Operators of the language *)

(** [x === y] on numbers *)
Definition number_eqb (x y : number) : bool :=
  match x, y with
  | NaN, _ | _, NaN => false
  | _, _ => bool_decide (x = y)
  end.

Definition strict_prim (p q : prim) : bool :=
  match p, q with
  | PNumber x, PNumber y => number_eqb x y
  | _, _ => bool_decide (p = q)
  end.

(** [a === b] *)
Definition strict_eq (a b : value) : bool :=
  match a, b with
  | Prim p, Prim q => strict_prim p q
  | Ref l, Ref l' => bool_decide (l = l')
  | _, _ => false
  end.

(** The conversions of strings that [==] relies on are those of the
    language; the development is parametric in them. *)
Class Host := {
  StringToNumber : string → number;
  StringToBigInt : string → option Z;
}.

Inductive type_tag :=
  | TUndefined | TNull | TBoolean | TNumber | TBigInt | TString | TSymbol.

Global Instance type_tag_eq_dec : EqDecision type_tag.
Proof. solve_decision. Defined.

Definition type_of (p : prim) : type_tag :=
  match p with
  | PUndefined => TUndefined
  | PNull => TNull
  | PBoolean _ => TBoolean
  | PNumber _ => TNumber
  | PBigInt _ => TBigInt
  | PString _ => TString
  | PSymbol _ => TSymbol
  end.

(** [ToNumber] applied to booleans, other primitives left alone *)
Definition boolean_to_number (p : prim) : prim :=
  match p with
  | PBoolean b => PNumber (integer (if b then 1 else 0))
  | _ => p
  end.

Section Operators.
Context `{Host}.

(** [p == q] for primitives of different types, neither a boolean *)
Definition loose_mixed (p q : prim) : bool :=
  match p, q with
  | PNull, PUndefined | PUndefined, PNull => true
  | PNumber x, PString s => number_eqb x (StringToNumber s)
  | PString s, PNumber x => number_eqb (StringToNumber s) x
  | PBigInt z, PString s | PString s, PBigInt z =>
      match StringToBigInt s with
      | Some n => bool_decide (z = n)
      | None => false
      end
  | PBigInt z, PNumber x | PNumber x, PBigInt z =>
      number_eqb x (integer z)
  | _, _ => false
  end.

(** [p == q] for primitives *)
Definition loose_prim (p q : prim) : bool :=
  if bool_decide (type_of p = type_of q) then strict_prim p q
  else
    let p' := boolean_to_number p in
    let q' := boolean_to_number q in
    if bool_decide (type_of p' = type_of q') then strict_prim p' q'
    else loose_mixed p' q'.

(** [a == b] *)
Definition loose_eq (a b : value) : M bool :=
  match a, b with
  | Prim p, Prim q => ret (loose_prim p q)
  | Ref l, Ref l' => ret (bool_decide (l = l'))
  | Prim p, Ref l =>
      match p with
      | PUndefined | PNull => ret false
      | _ => let! o := deref l in ret (loose_prim p (to_primitive o))
      end
  | Ref l, Prim q =>
      match q with
      | PUndefined | PNull => ret false
      | _ => let! o := deref l in ret (loose_prim (to_primitive o) q)
      end
  end.
End Operators.

(** [x - y] on numbers *)
Definition number_sub (x y : number) : number :=
  match x, y with
  | NaN, _ | _, NaN => NaN
  | PosInfinity, PosInfinity | NegInfinity, NegInfinity => NaN
  | PosInfinity, _ | _, NegInfinity => PosInfinity
  | NegInfinity, _ | _, PosInfinity => NegInfinity
  | Finite a, Finite b => Finite (a - b)%Qc
  end.

(** The default comparison of [Array.prototype.sort]: strings ordered
    by their code units. *)
Definition sort (ks : list string) : list string := merge_sort String.le ks.

(** [xs.indexOf(x)]: the first index holding a value strictly equal to
    [x]; [None] stands for [-1]. *)
Fixpoint indexOf (xs : list value) (x : value) : option nat :=
  match xs with
  | [] => None
  | y :: xs' => if strict_eq y x then Some 0%nat else S <$> indexOf xs' x
  end.

(** Lookup in a list of entries, first match *)
Fixpoint assoc {K V} `{EqDecision K} (k : K) (kvs : list (K * V)) : option V :=
  match kvs with
  | [] => None
  | (k', v) :: kvs' => if decide (k' = k) then Some v else assoc k kvs'
  end.

(** ** Reading objects *)

Definition elements_of (o : object) : option (list value) :=
  match kind_of o with
  | KArray es | KTypedArray _ es => Some es
  | _ => None
  end.

(** Array indices as property names paired with the elements *)
Definition indexed (xs : list value) : list (string * value) :=
  imap (λ i x, (pretty i, x)) xs.

Fixpoint characters (s : string) : list value :=
  match s with
  | "" => []
  | String c s' => str (String c "") :: characters s'
  end.

(** The own enumerable string-keyed properties of a value, in the
    order of [Object.keys]: integer indices first, then the others. *)
Definition own_properties (a : value) : M (list (string * value)) :=
  match a with
  | Prim PUndefined | Prim PNull => type_error
  | Prim (PString s) => ret (indexed (characters s))
  | Prim _ => ret []
  | Ref l =>
      let! o := deref l in
      ret (match elements_of o with
           | Some es => indexed es ++ props o
           | None => props o
           end)%list
  end.

(** [Object.keys(a)] *)
Definition Object_keys (a : value) : M (list string) :=
  let! ps := own_properties a in ret (ps.*1).

(** [a[k]] for a property name [k] *)
Definition get_property (a : value) (k : string) : M value :=
  let! ps := own_properties a in ret (default undefined (assoc k ps)).

(** [a.length] of an array or typed array *)
Definition array_length (a : value) : M nat :=
  match a with
  | Ref l =>
      let! o := deref l in
      match elements_of o with
      | Some es => ret (length es)
      | None => unsupported
      end
  | _ => unsupported
  end.

(** [a[i]] for an index [i] of an array or typed array *)
Definition array_get (a : value) (i : nat) : M value :=
  match a with
  | Ref l =>
      let! o := deref l in
      match elements_of o with
      | Some es => ret (default undefined (es !! i))
      | None => unsupported
      end
  | _ => unsupported
  end.

Definition map_entries (a : value) : M (list (value * value)) :=
  match a with
  | Ref l =>
      let! o := deref l in
      match kind_of o with
      | KMap es => ret es
      | _ => unsupported
      end
  | _ => unsupported
  end.

(** [a.size] of a [Map] *)
Definition map_size (a : value) : M nat :=
  let! es := map_entries a in ret (length es).

(** [a.keys()] of a [Map], in insertion order *)
Definition map_keys (a : value) : M (list value) :=
  let! es := map_entries a in ret (es.*1).

(** [a.get(k)] of a [Map] *)
Definition map_get (a : value) (k : value) : M value :=
  let! es := map_entries a in ret (default undefined (assoc k es)).

Definition set_elements (a : value) : M (list value) :=
  match a with
  | Ref l =>
      let! o := deref l in
      match kind_of o with
      | KSet xs => ret xs
      | _ => unsupported
      end
  | _ => unsupported
  end.

(** [a.size] of a [Set] *)
Definition set_size (a : value) : M nat :=
  let! xs := set_elements a in ret (length xs).

(** [b.has(x)] of a [Set] *)
Definition set_has (b : value) (x : value) : M bool :=
  let! xs := set_elements b in ret (bool_decide (x ∈ xs)).

(** The time value that [a - b] converts a [Date] to *)
Definition time_value (a : value) : M number :=
  match a with
  | Ref l =>
      let! o := deref l in
      match kind_of o with
      | KDate tv => ret tv
      | _ => unsupported
      end
  | _ => unsupported
  end.

Definition regexp_source_flags (a : value) : M (string * string) :=
  match a with
  | Ref l =>
      let! o := deref l in
      match kind_of o with
      | KRegExp source flags => ret (source, flags)
      | _ => unsupported
      end
  | _ => unsupported
  end.

(** [a.message] of an [Error] *)
Definition error_message (a : value) : M value :=
  match a with
  | Ref l =>
      let! o := deref l in
      match kind_of o with
      | KError _ message => ret message
      | _ => unsupported
      end
  | _ => unsupported
  end.

(** [isNaN(a)] for a number *)
Definition isNaN (a : value) : M bool :=
  match a with
  | Prim (PNumber n) => ret (bool_decide (n = NaN))
  | _ => unsupported
  end.

(** ** Arrays created by the comparison *)

(** [[...xs]]: a fresh array holding [xs].  The array never meets [==],
    its [to_primitive] is left empty. *)
Definition spread (xs : list value) : M loc :=
  alloc (Obj (KArray xs) [] (PString "")).

(** The elements of the array at [l] *)
Definition array_elements (l : loc) : M (list value) :=
  let! o := deref l in
  match kind_of o with
  | KArray es => ret es
  | _ => unsupported
  end.

(** [b.splice(idx, 1)] *)
Definition splice (l : loc) (idx : nat) : M unit :=
  let! o := deref l in
  match kind_of o with
  | KArray es => write l (Obj (KArray (delete idx es)) (props o) (to_primitive o))
  | _ => unsupported
  end.

(** The loop of [unsorted_identical].  The iterator of [a] reads the
    array at each step, [i] is its position; [n] bounds the number of
    steps by the length [a] had on entry, which [splice] can only
    shrink. *)
Fixpoint unsorted_identical_from (n i : nat) (a b : loc) : M bool :=
  match n with
  | 0 => ret true
  | S n' =>
      let! xs := array_elements a in
      match xs !! i with
      | None => ret true
      | Some a_item =>
          let! ys := array_elements b in
          match indexOf ys a_item with
          | None => ret false
          | Some idx =>
              let! _ := splice b idx in
              unsorted_identical_from n' (S i) a b
          end
      end
  end.

(** [unsorted_identical(a, b)] for two arrays; [b] is destroyed in the
    process. *)
Definition unsorted_identical (a b : loc) : M bool :=
  let! xs := array_elements a in
  unsorted_identical_from (length xs) 0 a b.

(** The loop of [sorted_identical] *)
Fixpoint sorted_identical_from (a b : list string) : bool :=
  match a, b with
  | x :: a', y :: b' =>
      if negb (String.eqb x y) then false else sorted_identical_from a' b'
  | _, _ => true
  end.

(** [sorted_identical(a, b)] for two arrays of strings *)
Definition sorted_identical (a b : list string) : bool :=
  if negb (length a =? length b)%nat then false
  else sorted_identical_from a b.

(** ** The comparison *)

(** The two configuration options, [equal.allow_type_coercion] and
    [equal.check_all_properties], read when a comparison is made. *)
Record config := Config {
  allow_type_coercion : bool;
  check_all_properties : bool;
}.

Definition default_config : config :=
  {| allow_type_coercion := true; check_all_properties := false |}.

(** [get_type(a)], that is [a.constructor.name] *)
Definition get_type (a : value) : M string :=
  match a with
  | Prim PUndefined | Prim PNull => type_error
  | Prim (PBoolean _) => ret "Boolean"
  | Prim (PNumber _) => ret "Number"
  | Prim (PBigInt _) => ret "BigInt"
  | Prim (PString _) => ret "String"
  | Prim (PSymbol _) => ret "Symbol"
  | Ref l => let! o := deref l in ret (constructor_name (kind_of o))
  end.

(** The tests of [equal_test], by name *)
Inductive test :=
  | Number_test | String_test | Date_test | RegExp_test | Array_test
  | Object_test | Map_test | Set_test | Symbol_test | Function_test
  | Error_test.

(** The object literal [equal_test] is initialised with *)
Definition equal_test_literal : gmap string test :=
  list_to_map
    [("Number", Number_test); ("String", String_test); ("Date", Date_test);
     ("RegExp", RegExp_test); ("Array", Array_test); ("Object", Object_test);
     ("Map", Map_test); ("Set", Set_test); ("Symbol", Symbol_test);
     ("Function", Function_test); ("Error", Error_test)].

Definition typed_array_names : list string :=
  ["Int8Array"; "Uint8Array"; "Uint8ClampedArray"; "Int16Array";
   "Uint16Array"; "Int32Array"; "Uint32Array"; "Float32Array";
   "Float64Array"].

(** [for (let t in xs)] binds [t] to the property names of the array
    [xs], which are its indices. *)
Definition for_in {A} (xs : list A) : list string :=
  pretty <$> seq 0 (length xs).

(** [equal_test[t] = equal_test['Array']] *)
Definition register_as_Array (tbl : gmap string test) (t : string) :
    gmap string test :=
  match tbl !! "Array" with
  | Some f => <[t := f]> tbl
  | None => delete t tbl
  end.

(** [equal_test] once the script has run *)
Definition equal_test : gmap string test :=
  foldl register_as_Array equal_test_literal (for_in typed_array_names).
Global Arguments equal_test : simpl never.

(** [equal_test[name]] also finds what the object literal inherits from
    [Object.prototype]; calling one of those is not modelled. *)
Definition inherited_names : list string :=
  ["constructor"; "toString"; "toLocaleString"; "valueOf";
   "hasOwnProperty"; "isPrototypeOf"; "propertyIsEnumerable"; "__proto__";
   "__defineGetter__"; "__defineSetter__"; "__lookupGetter__";
   "__lookupSetter__"].

Section Equal.
Context `{Host}.
Variable cfg : config.
(** The recursive calls to [equal] *)
Variable rec : value → value → M bool.

Definition Number (a b : value) : M bool :=
  let! x := isNaN a in
  if x then isNaN b else ret false.

Definition String_ (a b : value) : M bool := ret false.

Definition Date (a b : value) : M bool :=
  let! x := time_value a in
  let! y := time_value b in
  ret (number_eqb (number_sub x y) (integer 0)).

Definition RegExp (a b : value) : M bool :=
  let! x := regexp_source_flags a in
  let! y := regexp_source_flags b in
  ret (String.eqb x.1 y.1 && String.eqb x.2 y.2).

Definition Object (a b : value) : M bool :=
  let! a_keys := Object_keys a in
  let! b_keys := Object_keys b in
  let a_keys := sort a_keys in
  let b_keys := sort b_keys in
  if negb (sorted_identical a_keys b_keys) then ret false
  else
    for_all (λ k,
      let! x := get_property a k in
      let! y := get_property b k in
      rec x y) a_keys.

(** The bound [a.length] of the loop is read on entry; the elements
    are read at each step. *)
Definition Array (a b : value) : M bool :=
  let! n := array_length a in
  let! m := array_length b in
  if negb (n =? m)%nat then ret false
  else if check_all_properties cfg then Object a b
  else
    for_all (λ i,
      let! x := array_get a i in
      let! y := array_get b i in
      rec x y) (seq 0 n).

Definition Map (a b : value) : M bool :=
  let! n := map_size a in
  let! m := map_size b in
  if negb (n =? m)%nat then ret false
  else
    let! extra := (if check_all_properties cfg then Object a b else ret true) in
    if negb extra then ret false
    else
      let! ka := map_keys a in
      let! a_keys := spread ka in
      let! kb := map_keys b in
      let! b_keys := spread kb in
      let! same := unsorted_identical a_keys b_keys in
      if negb same then ret false
      else
        let! ks := array_elements a_keys in
        for_all (λ k,
          let! x := map_get a k in
          let! y := map_get b k in
          rec x y) ks.

Definition Set_ (a b : value) : M bool :=
  let! n := set_size a in
  let! m := set_size b in
  if negb (n =? m)%nat then ret false
  else
    let! extra := (if check_all_properties cfg then Object a b else ret true) in
    if negb extra then ret false
    else
      let! xs := set_elements a in
      for_all (λ a_item, set_has b a_item) xs.

Definition Symbol (a b : value) : M bool := ret (strict_eq a b).

Definition Function (a b : value) : M bool := ret (strict_eq a b).

Definition Error (a b : value) : M bool :=
  let! x := error_message a in
  let! y := error_message b in
  loose_eq x y.

(** [equal_test[name](a, b)] for an entry of the table *)
Definition run_test (t : test) (a b : value) : M bool :=
  match t with
  | Number_test => Number a b
  | String_test => String_ a b
  | Date_test => Date a b
  | RegExp_test => RegExp a b
  | Array_test => Array a b
  | Object_test => Object a b
  | Map_test => Map a b
  | Set_test => Set_ a b
  | Symbol_test => Symbol a b
  | Function_test => Function a b
  | Error_test => Error a b
  end.

(** The body of [equal] *)
Definition equal_body (a b : value) : M bool :=
  if strict_eq a b then ret true
  else
    let! a_cons := get_type a in
    let! b_cons := get_type b in
    let! eq := loose_eq a b in
    if eq && (allow_type_coercion cfg
              || String.eqb a_cons b_cons
              || (negb (String.eqb a_cons "String")
                  && negb (String.eqb b_cons "String")))
    then ret true
    else if negb (String.eqb a_cons b_cons) then ret false
    else
      match equal_test !! a_cons with
      | Some t => run_test t a b
      | None =>
          if bool_decide (a_cons ∈ inherited_names) then unsupported
          else Object a b
      end.
End Equal.

(** [equal(a, b)], with at most [fuel] nested calls *)
Fixpoint equal `{Host} (cfg : config) (fuel : nat) (a b : value) : M bool :=
  match fuel with
  | 0 => stack_overflow
  | S fuel' => equal_body cfg (equal cfg fuel') a b
  end.

(** ** A host for closed examples *)

(** Decimal integer literals with an optional sign, the empty string
    and the infinities; the examples below use no other string where a
    conversion is called for. *)
Fixpoint decimal_digits (s : string) (acc : Z) : option Z :=
  match s with
  | "" => Some acc
  | String c s' =>
      let n := Z.of_N (Ascii.N_of_ascii c) in
      if bool_decide (48 ≤ n ≤ 57)%Z
      then decimal_digits s' (10 * acc + (n - 48))
      else None
  end.

Definition decimal_literal (s : string) : option Z :=
  match s with
  | "" => Some 0%Z
  | "-" | "+" => None
  | String "-"%char s' => Z.opp <$> decimal_digits s' 0
  | String "+"%char s' => decimal_digits s' 0
  | _ => decimal_digits s 0
  end.

Definition decimal_StringToNumber (s : string) : number :=
  if bool_decide (s = "Infinity" ∨ s = "+Infinity") then PosInfinity
  else if bool_decide (s = "-Infinity") then NegInfinity
  else match decimal_literal s with
       | Some z => integer z
       | None => NaN
       end.

Definition decimal_host : Host :=
  {| StringToNumber := decimal_StringToNumber;
     StringToBigInt := decimal_literal |}.

(** ** Notions used to state the properties *)

(** [m] leaves the first [n] cells of the store as they are. *)
Definition keeps {A} (n : nat) (m : M A) : Prop :=
  ∀ σ, n ≤ length σ → take n (m σ).2 = take n σ ∧ n ≤ length (m σ).2.

(** [m] does not write at all. *)
Definition reads {A} (m : M A) : Prop := ∀ σ, (m σ).2 = σ.

(** What [unsorted_identical] computes on the contents of its two
    arrays: the answer, and what is left of the second one. *)
Fixpoint consume (xs ys : list value) : bool * list value :=
  match xs with
  | [] => (true, ys)
  | x :: xs' =>
      match indexOf ys x with
      | None => (false, ys)
      | Some idx => consume xs' (delete idx ys)
      end
  end.

(** The values an object holds *)
Definition values_of (o : object) : list value :=
  (props o).*2 ++
  match kind_of o with
  | KArray es | KTypedArray _ es | KSet es => es
  | KMap es => es.*1 ++ es.*2
  | KError _ message => [message]
  | _ => []
  end.

(** [a] is a primitive or refers to one of the first [n] cells. *)
Definition valid (n : nat) (a : value) : Prop :=
  match a with
  | Prim _ => True
  | Ref l => l < n
  end.

(** Every reference held in the store points into the store. *)
Definition closed (σ : store) : Prop :=
  ∀ l o, σ !! l = Some o → Forall (valid (length σ)) (values_of o).

(** The elements of a [Set] are pairwise different. *)
Definition sets_distinct (σ : store) : Prop :=
  ∀ l o xs, σ !! l = Some o → kind_of o = KSet xs → NoDup xs.

(** In every store that extends [σ0], [m] writes nothing and returns
    what it returns in [σ0]. *)
Definition stable {A} (σ0 : store) (m : M A) : Prop :=
  ∀ σ, σ0 `prefix_of` σ → m σ = ((m σ0).1, σ).

(** Whenever [rec1 a b] and [rec2 b a] both return, in stores that
    extend [σ0] and on values valid in it, they return the same. *)
Definition agree (σ0 : store) (rec1 rec2 : value → value → M bool) : Prop :=
  ∀ a b σ1 σ2 r r',
    valid (length σ0) a → valid (length σ0) b →
    σ0 `prefix_of` σ1 → σ0 `prefix_of` σ2 →
    (rec1 a b σ1).1 = Ok r → (rec2 b a σ2).1 = Ok r' → r = r'.

(** [a] nests objects at most [n] deep in [σ]: a primitive nests none,
    an object one more than the values it holds. *)
Fixpoint nested (σ : store) (n : nat) (a : value) : bool :=
  match a with
  | Prim _ => true
  | Ref l =>
      match n with
      | 0 => false
      | S n' =>
          match σ !! l with
          | Some o => forallb (nested σ n') (values_of o)
          | None => false
          end
      end
  end.

(** In every store that extends [σ0], [m] does not exhaust the stack,
    leaves [σ0] in place and returns only what satisfies [Q]. *)
Definition within {A} (σ0 : store) (Q : A → Prop) (m : M A) : Prop :=
  ∀ σ, σ0 `prefix_of` σ →
    (m σ).1 ≠ StackOverflow ∧ σ0 `prefix_of` (m σ).2 ∧
    ∀ x, (m σ).1 = Ok x → Q x.

(** ** Stores for closed examples *)

Definition object_literal (ps : list (string * value)) : object :=
  Obj (KObject "Object") ps (PString "[object Object]").

Definition Map_of (es : list (value * value)) : object :=
  Obj (KMap es) [] (PString "[object Map]").

Definition Set_of (xs : list value) : object :=
  Obj (KSet xs) [] (PString "[object Set]").

(** [a = new Int8Array([1, 2]); a.p = 1] at 0 and
    [new Int8Array([1, 2])] at 1 *)
Definition typed_arrays_store : store :=
  [Obj (KTypedArray Int8Array [num 1; num 2]) [("p", num 1)] (PString "1,2");
   Obj (KTypedArray Int8Array [num 1; num 2]) [] (PString "1,2")].

(** [{a: 1, b: 2}] at 0 and [{b: 2, a: 1}] at 1 *)
Definition key_order_store : store :=
  [object_literal [("a", num 1); ("b", num 2)];
   object_literal [("b", num 2); ("a", num 1)]].

(** Six object literals [{}] at 0 to 5,
    [new Map([[{}, 3], [{}, 2], [{}, 1]])] at 6 and
    [new Map([[{}, 1], [{}, 2], [{}, 3]])] at 7, as in the test table
    of the script *)
Definition identity_keys_store : store :=
  [object_literal []; object_literal []; object_literal [];
   object_literal []; object_literal []; object_literal [];
   Map_of [(Ref 0, num 3); (Ref 1, num 2); (Ref 2, num 1)];
   Map_of [(Ref 3, num 1); (Ref 4, num 2); (Ref 5, num 3)]].

(** [new Map([["x", null], ["y", 1]])] at 0 and
    [new Map([["y", 2], ["x", 0]])] at 1 *)
Definition null_values_store : store :=
  [Map_of [(str "x", null); (str "y", num 1)];
   Map_of [(str "y", num 2); (str "x", num 0)]].

(** [new Map([["a", 1], ["b", 2]])] at 0 and
    [new Map([["b", 2], ["a", 1]])] at 1 *)
Definition string_keys_store : store :=
  [Map_of [(str "a", num 1); (str "b", num 2)];
   Map_of [(str "b", num 2); (str "a", num 1)]].


(** The same two maps, each with an own property [p]: [null] on the
    first, [0] on the second *)
Definition NaN_extra_store : store :=
  [Obj (KMap [(Prim (PNumber NaN), num 1)]) [("p", null)]
     (PString "[object Map]");
   Obj (KMap [(Prim (PNumber NaN), num 1)]) [("p", num 0)]
     (PString "[object Map]")].

(** The values of the test table at the end of the script, those of
    [identity_keys_store] apart *)
Definition Array_of (es : list value) (join : string) : object :=
  Obj (KArray es) [] (PString join).

Definition test_table_store : store :=
  [ (* 0 *) Array_of [num 1; num 2] "1,2";
    (* 1 *) Array_of [num 1; num 2] "1,2";
    (* 2 *) Array_of [num 2; num 1] "2,1";
    (* 3 *) Array_of [num 2; num 3] "2,3";
    (* 4 *) Array_of [num 4] "4";
    (* 5 *) object_literal [("a", Ref 3); ("b", Ref 4)];
    (* 6 *) Array_of [num 2; num 3] "2,3";
    (* 7 *) Array_of [num 4] "4";
    (* 8 *) object_literal [("a", Ref 6); ("b", Ref 7)];
    (* 9 *) object_literal [("b", Ref 7); ("a", Ref 6)];
    (* 10 *) object_literal [("a", num 2); ("b", str "4")];
    (* 11 *) object_literal [("a", num 2); ("b", num 4)];
    (* 12 *) object_literal [("a", num 2); ("B", num 4)];
    (* 13 *) Map_of [(str "a", num 1); (str "b", num 2)];
    (* 14 *) Map_of [(str "b", num 2); (str "a", num 1)];
    (* 15 *) Map_of [(str "a", Ref 0)];
    (* 16 *) Map_of [(str "a", Ref 2)];
    (* 17 *) Map_of [(str "a", num 1)];
    (* 18 *) Map_of [(str "b", num 1)];
    (* 19 *) Set_of [str "a"; num 1; str "b"; num 2];
    (* 20 *) Set_of [str "b"; num 2; str "a"; num 1];
    (* 21 *) Set_of [str "a"; num 1];
    (* 22 *) Set_of [str "b"; num 1];
    (* 23 *) object_literal [];
    (* 24 *) object_literal [];
    (* 25 *) object_literal [];
    (* 26 *) Set_of [Ref 23; num 1; Ref 24; num 2];
    (* 27 *) Set_of [Ref 23; num 1; Ref 24; num 2; Ref 25];
    (* 28 *) Set_of [];
    (* 29 *) Map_of [];
    (* 30 *) Array_of [null; null; null] ",,";
    (* 31 *) Array_of [null; null; null] ",,";
    (* 32 *) object_literal [("a", num 3)];
    (* 33 *) object_literal [("b", num 4)];
    (* 34 *) Array_of [Ref 32; Ref 33] "[object Object],[object Object]";
    (* 35 *) object_literal [("a", str "3")];
    (* 36 *) object_literal [("b", str "4")];
    (* 37 *) Array_of [Ref 35; Ref 36] "[object Object],[object Object]";
    (* 38 *) Obj (KDate (integer 1387585278000)) []
               (PString "Fri Dec 20 2013 16:21:18 GMT-0800 (PST)");
    (* 39 *) Obj (KDate (integer 1387585278000)) []
               (PString "Fri Dec 20 2013 16:21:18 GMT-0800 (PST)");
    (* 40 *) Obj (KObject "X") [] (PString "[object Object]");
    (* 41 *) Obj (KObject "X") [] (PString "[object Object]");
    (* 42 *) Obj (KObject "X") [("prop", num 1)] (PString "[object Object]");
    (* 43 *) Obj (KError "Error" (str "10")) [] (PString "Error: 10");
    (* 44 *) Obj (KError "Error" (str "10")) [] (PString "Error: 10");
    (* 45 *) Obj (KError "Error" (str "5")) [] (PString "Error: 5") ].

(** [equal(a, b)] on values of the test table, default options *)
Definition equal_on_table (a b : value) : outcome bool :=
  (@equal decimal_host default_config 8 a b test_table_store).1.

(** [/a+/g] at 0 and 1, two functions at 2 and 3,
    [a = [1, 2]; a.p = 1] at 4 and [[1, 2]] at 5, and two arrays that
    hold themselves, [a = []; a[0] = a], at 6 and 7 *)
Definition builtins_store : store :=
  [Obj (KRegExp "a+" "g") [] (PString "/a+/g");
   Obj (KRegExp "a+" "g") [] (PString "/a+/g");
   Obj (KFunction "Function") [] (PString "() => 1");
   Obj (KFunction "Function") [] (PString "() => 1");
   Obj (KArray [num 1; num 2]) [("p", num 1)] (PString "1,2");
   Array_of [num 1; num 2] "1,2";
   Array_of [Ref 6] "";
   Array_of [Ref 7] ""].

(** [{a: 1, b: 2}] at 0 and [{b: 3, a: 1}] at 1 *)
Definition different_values_store : store :=
  [object_literal [("a", num 1); ("b", num 2)];
   object_literal [("b", num 3); ("a", num 1)]].

(** [async () => 1] and [async () => 2] at 0 and 1, [() => 1] at 2,
    [new TypeError("a")] and [new TypeError("b")] at 3 and 4 *)
Definition other_constructors_store : store :=
  [Obj (KFunction "AsyncFunction") [] (PString "async () => 1");
   Obj (KFunction "AsyncFunction") [] (PString "async () => 2");
   Obj (KFunction "Function") [] (PString "() => 1");
   Obj (KError "TypeError" (str "a")) [] (PString "TypeError: a");
   Obj (KError "TypeError" (str "b")) [] (PString "TypeError: b")].

(** [1], [[1]] and [[[1]]] at 0, 1 and 2, and again at 3, 4
    and 5 *)
Definition nested_arrays_store : store :=
  [Array_of [num 1] "1"; Array_of [Ref 0] "1"; Array_of [Ref 1] "1";
   Array_of [num 1] "1"; Array_of [Ref 3] "1"; Array_of [Ref 4] "1"].

(** * The publish and subscribe script

    [subscribers], [subscribe], [send] and [unsubscribe] of the script,
    over the same store: [subscribers] is an object of the store, the
    lists of handlers are arrays of it, and [send] allocates in it the
    object [{ topic, data }] that it passes up.  Topics are strings.
    A handler is a function object; what calling it does is a
    parameter, a computation that may read and write the whole store.
    Left out: [publish], which only hands [send] over to [setTimeout]. *)

(** [ToBoolean] *)
Definition to_boolean (v : value) : bool :=
  match v with
  | Prim PUndefined | Prim PNull => false
  | Prim (PBoolean b) => b
  | Prim (PNumber n) => negb (bool_decide (n = NaN ∨ n = integer 0))
  | Prim (PBigInt z) => negb (z =? 0)%Z
  | Prim (PString s) => negb (String.eqb s "")
  | Prim (PSymbol _) => true
  | Ref _ => true
  end.

(** [[^.]+$] from the start of [s]: [s] is not empty and has no dot *)
Fixpoint no_dot (s : string) : bool :=
  match s with
  | "" => true
  | String c s' => negb (Ascii.eqb c ".") && no_dot s'
  end.

Definition segment (s : string) : bool := negb (String.eqb s "") && no_dot s.

(** The search for [\.[^.]+$] from the left: a match runs to the end
    of the string, so that what is left after [replace] is what stands
    before it; without a match the string is left as it is. *)
Fixpoint before_last_segment (s : string) : string :=
  match s with
  | "" => ""
  | String c s' =>
      if Ascii.eqb c "." && segment s' then ""
      else String c (before_last_segment s')
  end.

(** [topic.replace(/(^|\.)[^.]+$/, '')]: at the start of the topic the
    alternative [^] is tried first. *)
Definition parent_topic (topic : string) : string :=
  if segment topic then "" else before_last_segment topic.

(** What [subscribers[topic]] finds: an own property, a member of
    [Object.prototype], or nothing *)
Inductive found :=
  | Own (v : value)
  | Inherited
  | Missing.

(** Assignment to a property: an own property keeps its place, a new
    one comes last. *)
Fixpoint assign {V} (k : string) (v : V) (kvs : list (string * V)) :
    list (string * V) :=
  match kvs with
  | [] => [(k, v)]
  | (k', v') :: kvs' =>
      if decide (k' = k) then (k, v) :: kvs' else (k', v') :: assign k v kvs'
  end.

(** [array.push(v)], which returns the new length *)
Definition push (array : loc) (v : value) : M nat :=
  let! o := deref array in
  match kind_of o with
  | KArray es =>
      let! _ := write array (Obj (KArray (es ++ [v])) (props o) (to_primitive o)) in
      ret (S (length es))
  | _ => unsupported
  end.

Section PubSub.
Context `{Host}.
(** The object [subscribers] *)
Variable subscribers : loc.
(** [handler(topic, data)] for the function at a location *)
Variable call : loc → string → value → M value.

(** [subscribers[topic]] *)
Definition subscribers_get (topic : string) : M found :=
  let! o := deref subscribers in
  match kind_of o with
  | KObject "Object" =>
      ret (match assoc topic (props o) with
           | Some v => Own v
           | None =>
               if bool_decide (topic ∈ inherited_names) then Inherited
               else Missing
           end)
  | _ => unsupported
  end.

(** [subscribers[topic] = v] *)
Definition subscribers_set (topic : string) (v : value) : M unit :=
  let! o := deref subscribers in
  write subscribers (Obj (kind_of o) (assign topic v (props o)) (to_primitive o)).

(** [delete subscribers[topic]] *)
Definition subscribers_delete (topic : string) : M unit :=
  let! o := deref subscribers in
  write subscribers
    (Obj (kind_of o) (filter (λ kv, kv.1 ≠ topic) (props o)) (to_primitive o)).

(** [(subscribers[topic] ||= []).push(handler)].  A member of
    [Object.prototype] is truthy and has no [push]. *)
Definition subscribe (topic : string) (handler : value) : M nat :=
  let fresh :=
    let! array := spread [] in
    let! _ := subscribers_set topic (Ref array) in
    push array handler in
  let! s := subscribers_get topic in
  match s with
  | Own (Ref array) => push array handler
  | Own (Prim p) => if to_boolean (Prim p) then type_error else fresh
  | Inherited => type_error
  | Missing => fresh
  end.

(** [handler(topic, data)] *)
Definition apply_handler (handler : value) (topic : string) (data : value) :
    M value :=
  match handler with
  | Ref l =>
      let! o := deref l in
      match kind_of o with
      | KFunction _ => call l topic data
      | _ => type_error
      end
  | Prim _ => type_error
  end.

(** [(handler) => (stop = handler(topic, data) || stop)] *)
Definition notify (topic : string) (data : value) (handler stop : value) :
    M value :=
  let! r := apply_handler handler topic data in
  ret (if to_boolean r then r else stop).

(** [array.forEach(callback)] from index [k], for [n] more indices.
    The length is read on entry and the elements at each step: an
    index that the array has lost in between is skipped. *)
Fixpoint forEach_from (n k : nat) (array : loc)
    (callback : value → value → M value) (stop : value) : M value :=
  match n with
  | 0 => ret stop
  | S n' =>
      let! es := array_elements array in
      match es !! k with
      | Some handler =>
          let! stop' := callback handler stop in
          forEach_from n' (S k) array callback stop'
      | None => forEach_from n' (S k) array callback stop
      end
  end.

Definition forEach (array : loc) (callback : value → value → M value)
    (stop : value) : M value :=
  let! es := array_elements array in
  forEach_from (length es) 0 array callback stop.

(** [subscribers[topic]?.forEach?.(...)], giving [stop] *)
Definition notify_all (topic : string) (data : value) (stop : value) :
    M value :=
  let! s := subscribers_get topic in
  match s with
  | Own (Ref array) => forEach array (notify topic data) stop
  | Own (Prim _) | Inherited | Missing => ret stop
  end.

(** [send(topic, data)], with at most [fuel] nested calls *)
Fixpoint send (fuel : nat) (topic : string) (data : value) : M unit :=
  match fuel with
  | 0 => stack_overflow
  | S fuel' =>
      let stop := Prim (PBoolean false) in
      let! stop :=
        (if to_boolean (str topic) then notify_all topic data stop
         else ret stop) in
      if to_boolean (str topic) then
        let! stopped := loose_eq stop (str "stopPropagation") in
        if negb stopped then
          let parent := parent_topic topic in
          let! forwarded :=
            alloc (Obj (KObject "Object")
                     [("topic", str topic); ("data", data)]
                     (PString "[object Object]")) in
          send fuel' parent (Ref forwarded)
        else ret tt
      else ret tt
  end.

(** [unsubscribe(topic, handler)]; [handler] is [undefined] when it is
    left out.  [idx] is [None] for [-1] and for [undefined]. *)
Definition unsubscribe (topic : string) (handler : value) : M unit :=
  let! s := subscribers_get topic in
  let! idx :=
    match s with
    | Own (Ref array) =>
        let! es := array_elements array in ret (indexOf es handler)
    | Own (Prim (PString _)) => unsupported
    | Own (Prim _) | Inherited | Missing => ret None
    end in
  if to_boolean handler then
    match idx, s with
    | Some i, Own (Ref array) => splice array i
    | _, _ => ret tt
    end
  else subscribers_delete topic.
End PubSub.

(** [m] does not exhaust the stack. *)
Definition calm {A} (m : M A) : Prop := ∀ σ, (m σ).1 ≠ StackOverflow.

(** [subscribers] at 0 after [subscribe("a", f)], [subscribe("a", g)]
    and [subscribe("a.b", f)]: the handlers of ["a"] at 1, those of
    ["a.b"] at 2, the functions [f] and [g] at 3 and 4 *)
Definition pubsub_store : store :=
  [Obj (KObject "Object") [("a", Ref 1); ("a.b", Ref 2)]
     (PString "[object Object]");
   Obj (KArray [Ref 3; Ref 4]) [] (PString "() => 'stopPropagation',() => true");
   Obj (KArray [Ref 3]) [] (PString "() => 'stopPropagation'");
   Obj (KFunction "Function") [] (PString "() => 'stopPropagation'");
   Obj (KFunction "Function") [] (PString "() => true")].

(** [f = () => 'stopPropagation'] and [g = () => true] *)
Definition stop_then_true (l : loc) (topic : string) (data : value) : M value :=
  match l with
  | 3 => ret (str "stopPropagation")
  | 4 => ret (Prim (PBoolean true))
  | _ => unsupported
  end.

(** [f = (topic) => { unsubscribe(topic, f) }] *)
Definition unsubscribes_itself (l : loc) (topic : string) (data : value) :
    M value :=
  match l with
  | 3 => let! _ := unsubscribe 0 topic (Ref 3) in ret undefined
  | _ => unsupported
  end.

(** [f = () => { throw new TypeError() }] *)
Definition throws (l : loc) (topic : string) (data : value) : M value :=
  type_error.

(** * Properties *)

Local Open Scope list_scope.

(** ** The monad *)

Lemma bind_Ok {A B} (m : M A) (f : A → M B) σ a σ' :
  m σ = (Ok a, σ') → bind m f σ = f a σ'.
Proof. unfold bind. by intros ->. Qed.

Lemma bind_reads {A B} (m : M A) (f : A → M B) σ a :
  reads m → (m σ).1 = Ok a → bind m f σ = f a σ.
Proof.
  intros Hm Ha. specialize (Hm σ). unfold bind.
  destruct (m σ) as [r σ']; simpl in *; by subst.
Qed.

Lemma reads_ret {A} (a : A) : reads (ret a).
Proof. by intros σ. Qed.

Lemma reads_type_error {A} : reads (@type_error A).
Proof. by intros σ. Qed.

Lemma reads_unsupported {A} : reads (@unsupported A).
Proof. by intros σ. Qed.

Lemma reads_stack_overflow {A} : reads (@stack_overflow A).
Proof. by intros σ. Qed.

Lemma reads_deref l : reads (deref l).
Proof. intros σ. unfold deref. by destruct (σ !! l). Qed.

Lemma reads_bind {A B} (m : M A) (f : A → M B) :
  reads m → (∀ a, reads (f a)) → reads (bind m f).
Proof.
  intros Hm Hf σ. unfold bind. specialize (Hm σ).
  destruct (m σ) as [[a| | |] σ']; simpl in *; subst; auto. apply Hf.
Qed.

Lemma reads_for_all {A} (body : A → M bool) xs :
  (∀ x, reads (body x)) → reads (for_all body xs).
Proof.
  intros Hb. induction xs as [|x xs IH]; simpl; [apply reads_ret|].
  apply reads_bind; [done|]. intros []; [done|apply reads_ret].
Qed.

Create HintDb reads.
#[export] Hint Resolve reads_ret reads_type_error reads_unsupported
  reads_stack_overflow reads_deref : reads.

Ltac reads_step :=
  lazymatch goal with
  | |- reads (bind _ _) => apply reads_bind; [|intros ?]
  | |- reads (for_all _ _) => apply reads_for_all; intros ?
  | |- reads (match ?x with _ => _ end) => destruct x
  | |- reads _ => solve [eauto with reads]
  end.
Ltac solve_reads := repeat reads_step.

Lemma reads_own_properties a : reads (own_properties a).
Proof. unfold own_properties. solve_reads. Qed.

Lemma reads_Object_keys a : reads (Object_keys a).
Proof. unfold Object_keys. pose proof reads_own_properties. solve_reads. Qed.

Lemma reads_get_property a k : reads (get_property a k).
Proof. unfold get_property. pose proof reads_own_properties. solve_reads. Qed.

Lemma reads_array_length a : reads (array_length a).
Proof. unfold array_length. solve_reads. Qed.

Lemma reads_array_get a i : reads (array_get a i).
Proof. unfold array_get. solve_reads. Qed.

Lemma reads_map_entries a : reads (map_entries a).
Proof. unfold map_entries. solve_reads. Qed.

Lemma reads_map_size a : reads (map_size a).
Proof. unfold map_size. pose proof reads_map_entries. solve_reads. Qed.

Lemma reads_map_keys a : reads (map_keys a).
Proof. unfold map_keys. pose proof reads_map_entries. solve_reads. Qed.

Lemma reads_map_get a k : reads (map_get a k).
Proof. unfold map_get. pose proof reads_map_entries. solve_reads. Qed.

Lemma reads_set_elements a : reads (set_elements a).
Proof. unfold set_elements. solve_reads. Qed.

Lemma reads_set_size a : reads (set_size a).
Proof. unfold set_size. pose proof reads_set_elements. solve_reads. Qed.

Lemma reads_set_has b x : reads (set_has b x).
Proof. unfold set_has. pose proof reads_set_elements. solve_reads. Qed.

Lemma reads_time_value a : reads (time_value a).
Proof. unfold time_value. solve_reads. Qed.

Lemma reads_regexp_source_flags a : reads (regexp_source_flags a).
Proof. unfold regexp_source_flags. solve_reads. Qed.

Lemma reads_error_message a : reads (error_message a).
Proof. unfold error_message. solve_reads. Qed.

Lemma reads_isNaN a : reads (isNaN a).
Proof. unfold isNaN. solve_reads. Qed.

Lemma reads_array_elements l : reads (array_elements l).
Proof. unfold array_elements. solve_reads. Qed.

Lemma reads_get_type a : reads (get_type a).
Proof. unfold get_type. solve_reads. Qed.

Lemma reads_loose_eq `{Host} a b : reads (loose_eq a b).
Proof. unfold loose_eq. solve_reads. Qed.

#[export] Hint Resolve reads_own_properties reads_Object_keys
  reads_get_property reads_array_length reads_array_get reads_map_entries
  reads_map_size reads_map_keys reads_map_get reads_set_elements
  reads_set_size reads_set_has reads_time_value reads_regexp_source_flags
  reads_error_message reads_isNaN reads_array_elements reads_get_type
  reads_loose_eq : reads.

(** ** The store is only extended *)

Lemma reads_keeps {A} n (m : M A) : reads m → keeps n m.
Proof. intros Hm σ Hn. by rewrite Hm. Qed.

Lemma keeps_bind {A B} n (m : M A) (f : A → M B) :
  keeps n m → (∀ a, keeps n (f a)) → keeps n (bind m f).
Proof.
  intros Hm Hf σ Hn. unfold bind. destruct (Hm σ Hn) as [Ht Hl].
  destruct (m σ) as [[a| | |] σ']; simpl in *; auto.
  destruct (Hf a σ' Hl) as [Ht' Hl']. split; [congruence|done].
Qed.

Lemma keeps_for_all {A} n (body : A → M bool) xs :
  (∀ x, keeps n (body x)) → keeps n (for_all body xs).
Proof.
  intros Hb. induction xs as [|x xs IH]; simpl.
  - by apply reads_keeps, reads_ret.
  - apply keeps_bind; [done|]. intros []; [done|].
    by apply reads_keeps, reads_ret.
Qed.

(** A fresh array lies beyond every cell there was. *)
Lemma keeps_bind_spread {B} n xs (f : loc → M B) :
  (∀ l, n ≤ l → keeps n (f l)) → keeps n (bind (spread xs) f).
Proof.
  intros Hf σ Hn. unfold bind, spread, alloc.
  destruct (Hf (length σ) Hn (σ ++ [Obj (KArray xs) [] (PString "")])%list)
    as [Ht Hl].
  { rewrite length_app. lia. }
  split; [|done]. rewrite Ht. by apply take_app_le.
Qed.

Lemma keeps_splice n l idx : n ≤ l → keeps n (splice l idx).
Proof.
  intros Hl σ Hn. unfold splice, bind, deref.
  destruct (σ !! l) as [o|]; simpl; [|done].
  destruct (kind_of o); simpl; try done.
  by rewrite take_insert_ge, length_insert.
Qed.

Lemma keeps_unsorted_identical_from n k i a b :
  n ≤ b → keeps n (unsorted_identical_from k i a b).
Proof.
  intros Hb. revert i. induction k as [|k IH]; intros i; simpl.
  - by apply reads_keeps, reads_ret.
  - apply keeps_bind; [by apply reads_keeps, reads_array_elements|].
    intros xs. destruct (xs !! i); [|by apply reads_keeps, reads_ret].
    apply keeps_bind; [by apply reads_keeps, reads_array_elements|].
    intros ys. destruct (indexOf ys v); [|by apply reads_keeps, reads_ret].
    apply keeps_bind; [by apply keeps_splice|]. intros _. apply IH.
Qed.

Lemma keeps_unsorted_identical n a b :
  n ≤ b → keeps n (unsorted_identical a b).
Proof.
  intros Hb. unfold unsorted_identical.
  apply keeps_bind; [by apply reads_keeps, reads_array_elements|].
  intros xs. by apply keeps_unsorted_identical_from.
Qed.

Ltac keeps_step :=
  lazymatch goal with
  | |- keeps _ (bind (spread _) _) => apply keeps_bind_spread; intros ? ?
  | |- keeps _ (bind _ _) => apply keeps_bind; [|intros ?]
  | |- keeps _ (for_all _ _) => apply keeps_for_all; intros ?
  | |- keeps _ (unsorted_identical _ _) =>
      apply keeps_unsorted_identical; lia
  | |- keeps _ (match ?x with _ => _ end) => destruct x
  | |- keeps _ _ =>
      first [ assumption | solve [apply reads_keeps; eauto with reads]
            | solve [eauto] ]
  end.
Ltac solve_keeps := repeat keeps_step.

Section Frame.
Context `{Host}.
Variable cfg : config.
Variable rec : value → value → M bool.
Variable n : nat.
Hypothesis keeps_rec : ∀ a b, keeps n (rec a b).

Lemma keeps_Object a b : keeps n (Object rec a b).
Proof using keeps_rec.
  unfold Object. solve_keeps; apply keeps_rec.
Qed.

Lemma keeps_Array a b : keeps n (Array cfg rec a b).
Proof using keeps_rec.
  unfold Array. pose proof keeps_Object. solve_keeps; apply keeps_rec.
Qed.

Lemma keeps_Map a b : keeps n (Map cfg rec a b).
Proof using keeps_rec.
  unfold Map. pose proof keeps_Object. solve_keeps; apply keeps_rec.
Qed.

Lemma keeps_Set a b : keeps n (Set_ cfg rec a b).
Proof using keeps_rec.
  unfold Set_. pose proof keeps_Object. solve_keeps.
Qed.

Lemma keeps_run_test t a b : keeps n (run_test cfg rec t a b).
Proof using keeps_rec.
  destruct t; simpl;
    [| | | |apply keeps_Array|apply keeps_Object|apply keeps_Map
     |apply keeps_Set| | |];
    unfold Number, String_, Date, RegExp, Symbol, Function, Error;
    solve_keeps.
Qed.

Lemma keeps_equal_body a b : keeps n (equal_body cfg rec a b).
Proof using keeps_rec.
  unfold equal_body.
  pose proof keeps_run_test. pose proof keeps_Object. solve_keeps.
Qed.
End Frame.

Lemma keeps_equal `{Host} cfg fuel n a b : keeps n (equal cfg fuel a b).
Proof.
  revert a b. induction fuel as [|fuel IH]; intros a b; simpl.
  - apply reads_keeps, reads_stack_overflow.
  - by apply keeps_equal_body.
Qed.

(** ** The operators *)

Lemma number_eqb_true x y : number_eqb x y = true ↔ x = y ∧ x ≠ NaN.
Proof.
  unfold number_eqb. destruct x, y; rewrite ?bool_decide_eq_true; naive_solver.
Qed.

Lemma number_eqb_sym x y : number_eqb x y = number_eqb y x.
Proof.
  apply eq_true_iff_eq. rewrite !number_eqb_true. naive_solver.
Qed.

Lemma strict_prim_true p q : strict_prim p q = true → p = q.
Proof.
  unfold strict_prim.
  destruct p, q; rewrite ?bool_decide_eq_true, ?number_eqb_true; naive_solver.
Qed.

Lemma strict_eq_true a b : strict_eq a b = true → a = b.
Proof.
  destruct a, b; simpl; try done.
  - by intros ->%strict_prim_true.
  - rewrite bool_decide_eq_true. naive_solver.
Qed.

Lemma strict_prim_sym p q : strict_prim p q = strict_prim q p.
Proof.
  unfold strict_prim. destruct p, q; try apply number_eqb_sym;
    apply bool_decide_ext; naive_solver.
Qed.

Lemma strict_eq_sym a b : strict_eq a b = strict_eq b a.
Proof.
  destruct a, b; try done; [apply strict_prim_sym|].
  apply bool_decide_ext; naive_solver.
Qed.

(** A value is strictly equal to itself unless it is [NaN]. *)
Lemma strict_eq_refl a : a ≠ Prim (PNumber NaN) → strict_eq a a = true.
Proof.
  intros Hn. destruct a as [p|l]; simpl; [|by rewrite bool_decide_eq_true_2].
  unfold strict_prim. destruct p; try by rewrite bool_decide_eq_true_2.
  apply number_eqb_true. naive_solver.
Qed.

(** The dispatch table after the script has run: the eleven tests of
    the literal, and the [Array] test under the names ["0"] to ["8"]. *)
Lemma equal_test_entries :
  equal_test =
    list_to_map
      [("Number", Number_test); ("String", String_test); ("Date", Date_test);
       ("RegExp", RegExp_test); ("Array", Array_test);
       ("Object", Object_test); ("Map", Map_test); ("Set", Set_test);
       ("Symbol", Symbol_test); ("Function", Function_test);
       ("Error", Error_test);
       ("0", Array_test); ("1", Array_test); ("2", Array_test);
       ("3", Array_test); ("4", Array_test); ("5", Array_test);
       ("6", Array_test); ("7", Array_test); ("8", Array_test)].
Proof. by vm_compute. Qed.

(** ** Numbers, big integers and strings *)

Lemma equal_unfold `{Host} cfg fuel a b :
  equal cfg (S fuel) a b = equal_body cfg (equal cfg fuel) a b.
Proof. done. Qed.

(** [equal] past its first reads: [a] and [b] are not identical, their
    constructor names are [ca] and [cb], and [a == b] is [e]. *)
Lemma equal_body_reads `{Host} cfg rec a b σ ca cb e :
  strict_eq a b = false →
  get_type a σ = (Ok ca, σ) →
  get_type b σ = (Ok cb, σ) →
  loose_eq a b σ = (Ok e, σ) →
  equal_body cfg rec a b σ =
    if e && (allow_type_coercion cfg
             || String.eqb ca cb
             || (negb (String.eqb ca "String")
                 && negb (String.eqb cb "String")))
    then (Ok true, σ)
    else if negb (String.eqb ca cb) then (Ok false, σ)
    else
      match equal_test !! ca with
      | Some t => run_test cfg rec t a b σ
      | None =>
          if bool_decide (ca ∈ inherited_names) then (Unsupported, σ)
          else Object rec a b σ
      end.
Proof.
  intros Hs Ha Hb He. unfold equal_body. rewrite Hs.
  rewrite (bind_Ok _ _ _ _ _ Ha), (bind_Ok _ _ _ _ _ Hb),
    (bind_Ok _ _ _ _ _ He).
  repeat case_match; done.
Qed.

Lemma number_eqb_Finite q : number_eqb (Finite q) (Finite q) = true.
Proof. apply number_eqb_true. naive_solver. Qed.

Lemma loose_prim_number_bigint `{Host} x z :
  loose_prim (PNumber x) (PBigInt z) = number_eqb x (integer z).
Proof. done. Qed.

Lemma equal_number_bigint_any `{Host} cfg fuel σ z :
  equal cfg (S fuel) (num z) (bigint z) σ = (Ok true, σ).
Proof.
  rewrite equal_unfold.
  rewrite (equal_body_reads _ _ _ _ _ "Number" "BigInt" true); try done.
  - by destruct (allow_type_coercion cfg).
  - unfold loose_eq, num, bigint, ret.
    rewrite loose_prim_number_bigint. unfold integer.
    by rewrite number_eqb_Finite.
Qed.

Lemma equal_test_Number : equal_test !! "Number" = Some Number_test.
Proof. by vm_compute. Qed.

Lemma equal_test_Map : equal_test !! "Map" = Some Map_test.
Proof. by vm_compute. Qed.

Lemma equal_test_Set : equal_test !! "Set" = Some Set_test.
Proof. by vm_compute. Qed.

Lemma equal_test_String : equal_test !! "String" = Some String_test.
Proof. by vm_compute. Qed.

Lemma equal_test_Symbol : equal_test !! "Symbol" = Some Symbol_test.
Proof. by vm_compute. Qed.

Lemma equal_test_Function : equal_test !! "Function" = Some Function_test.
Proof. by vm_compute. Qed.

Lemma equal_test_Date : equal_test !! "Date" = Some Date_test.
Proof. by vm_compute. Qed.


Lemma equal_test_Error : equal_test !! "Error" = Some Error_test.
Proof. by vm_compute. Qed.

Lemma equal_test_Array : equal_test !! "Array" = Some Array_test.
Proof. by vm_compute. Qed.

(** [equal] on two values with the same constructor name that are
    neither identical nor loosely equal: the test registered under the
    name decides. *)
Lemma equal_body_dispatch `{Host} cfg rec a b σ c t :
  strict_eq a b = false →
  get_type a σ = (Ok c, σ) →
  get_type b σ = (Ok c, σ) →
  loose_eq a b σ = (Ok false, σ) →
  equal_test !! c = Some t →
  equal_body cfg rec a b σ = run_test cfg rec t a b σ.
Proof.
  intros Hs Ha Hb He Ht.
  rewrite (equal_body_reads _ _ _ _ _ _ _ _ Hs Ha Hb He).
  cbn [andb]. by rewrite String.eqb_refl, Ht.
Qed.

(** The same when no test is registered under the name. *)
Lemma equal_body_fallback `{Host} cfg rec a b σ c :
  strict_eq a b = false →
  get_type a σ = (Ok c, σ) →
  get_type b σ = (Ok c, σ) →
  loose_eq a b σ = (Ok false, σ) →
  equal_test !! c = None →
  c ∉ inherited_names →
  equal_body cfg rec a b σ = Object rec a b σ.
Proof.
  intros Hs Ha Hb He Ht Hc.
  rewrite (equal_body_reads _ _ _ _ _ _ _ _ Hs Ha Hb He).
  cbn [andb]. by rewrite String.eqb_refl, Ht, bool_decide_eq_false_2.
Qed.

Lemma equal_numbers `{Host} cfg fuel σ x y :
  equal cfg (S fuel) (Prim (PNumber x)) (Prim (PNumber y)) σ =
    (Ok (number_eqb x y || bool_decide (x = NaN ∧ y = NaN)), σ).
Proof.
  rewrite equal_unfold. destruct (number_eqb x y) eqn:Hxy.
  { unfold equal_body. cbn [strict_eq strict_prim]. by rewrite Hxy. }
  rewrite (equal_body_dispatch _ _ _ _ _ "Number" Number_test);
    [|done|done|done| |apply equal_test_Number].
  - unfold run_test, Number, isNaN, bind, ret. by destruct x, y.
  - unfold loose_eq, ret, loose_prim. cbn [type_of].
    rewrite bool_decide_eq_true_2 by done. cbn [strict_prim]. by rewrite Hxy.
Qed.

(** C3: [equal] throws a [TypeError] when exactly one argument is
    [null] or [undefined], or when they are one of each: [get_type]
    reads [constructor] from a value that has none. *)
Theorem equal_null_undefined_TypeError `{Host} cfg fuel σ :
  equal cfg (S fuel) null undefined σ = (TypeError, σ) ∧
  equal cfg (S fuel) undefined null σ = (TypeError, σ) ∧
  equal cfg (S fuel) null (num 0) σ = (TypeError, σ) ∧
  equal cfg (S fuel) (num 0) null σ = (TypeError, σ).
Proof. repeat split; reflexivity. Qed.

(** C7: [equal(NaN, NaN)] and [equal(Infinity, Infinity)] are [true],
    [equal(Infinity, -Infinity)] is [false]; two numbers compare equal
    exactly when they are identical or both [NaN], and the [Number]
    test answers [true] for the pair of [NaN]s only. *)
Theorem equal_NaN_Infinity `{Host} cfg fuel σ :
  equal cfg (S fuel) (Prim (PNumber NaN)) (Prim (PNumber NaN)) σ = (Ok true, σ) ∧
  equal cfg (S fuel) (Prim (PNumber PosInfinity)) (Prim (PNumber PosInfinity)) σ
    = (Ok true, σ) ∧
  equal cfg (S fuel) (Prim (PNumber PosInfinity)) (Prim (PNumber NegInfinity)) σ
    = (Ok false, σ) ∧
  (∀ x y,
     equal cfg (S fuel) (Prim (PNumber x)) (Prim (PNumber y)) σ =
       (Ok (strict_eq (Prim (PNumber x)) (Prim (PNumber y))
            || bool_decide (x = NaN ∧ y = NaN)), σ)) ∧
  (∀ x y,
     Number (Prim (PNumber x)) (Prim (PNumber y)) σ =
       (Ok (bool_decide (x = NaN ∧ y = NaN)), σ)).
Proof.
  repeat split; try apply equal_numbers.
  intros x y. unfold Number, isNaN, bind, ret. by destruct x, y.
Qed.

(** ** Strings against other values *)

(** [a == b] returns whenever both constructor names can be read. *)
Lemma loose_eq_total `{Host} a b σ ca cb :
  (get_type a σ).1 = Ok ca → (get_type b σ).1 = Ok cb →
  ∃ e, loose_eq a b σ = (Ok e, σ).
Proof.
  unfold get_type, loose_eq, bind, deref, ret.
  destruct a as [p|l], b as [q|l']; try (destruct p); try (destruct q);
    intros Ha Hb; try done; eauto;
    repeat match goal with
    | H : context [?σ !! ?l] |- _ => destruct (σ !! l); try done
    end; eauto.
Qed.

Lemma get_type_reads a σ c : (get_type a σ).1 = Ok c → get_type a σ = (Ok c, σ).
Proof.
  intros Hc. pose proof (reads_get_type a σ) as Hr.
  destruct (get_type a σ); simpl in *; by subst.
Qed.

(** C1 (amended): for two values whose constructor names can be read
    and of which exactly one is a [String], [equal] returns [false] when
    [allow_type_coercion] is false and the result of [a == b] when it is
    true. *)
Theorem equal_string_other `{Host} cfg fuel σ a b ca cb :
  (get_type a σ).1 = Ok ca →
  (get_type b σ).1 = Ok cb →
  (ca = "String" ∧ cb ≠ "String") ∨ (ca ≠ "String" ∧ cb = "String") →
  ∃ e, (loose_eq a b σ).1 = Ok e ∧
       equal cfg (S fuel) a b σ = (Ok (allow_type_coercion cfg && e), σ).
Proof.
  intros Ha Hb Hone.
  destruct (loose_eq_total a b σ ca cb Ha Hb) as [e He].
  exists e. split; [by rewrite He|].
  apply get_type_reads in Ha, Hb.
  assert (ca ≠ cb) as Hne by naive_solver.
  assert (strict_eq a b = false) as Hs.
  { destruct (strict_eq a b) eqn:Hs; [|done].
    apply strict_eq_true in Hs as ->. congruence. }
  rewrite equal_unfold, (equal_body_reads _ _ _ _ _ _ _ _ Hs Ha Hb He).
  apply String.eqb_neq in Hne as ->.
  assert (negb (ca =? "String")%string && negb (cb =? "String")%string = false)
    as ->.
  { destruct Hone as [[-> _]|[_ ->]]; cbn; [done|apply andb_false_r]. }
  cbn [negb]. rewrite !orb_false_r, andb_comm.
  by destruct (allow_type_coercion cfg), e.
Qed.

(** C1 fails as stated: with [allow_type_coercion] true, the default,
    [equal(3, "3")] is [true]. *)
Lemma equal_3_string_3_with_coercion :
  (@equal decimal_host default_config 1 (num 3) (str "3") []).1 = Ok true.
Proof. reflexivity. Qed.

Lemma equal_string_other_witness :
  ∃ e, (@loose_eq decimal_host (num 3) (str "3") []).1 = Ok e ∧
       @equal decimal_host default_config 1 (num 3) (str "3") [] =
         (Ok (allow_type_coercion default_config && e), []).
Proof.
  apply (@equal_string_other decimal_host default_config 0 [] (num 3) (str "3")
           "Number" "String"); [reflexivity|reflexivity|].
  right. split; [discriminate|reflexivity].
Defined.

(** ** Typed arrays *)

(** C4: no test is registered under the name of a typed array (the
    loop registers the [Array] test under ["0"] to ["8"]), so two typed
    arrays are compared by the [Object] test.  With
    [check_all_properties] off, [equal] answers [false] for
    [Int8Array [1, 2]] carrying an extra property [p] against
    [Int8Array [1, 2]], where the [Array] test answers [true]. *)
Theorem typed_arrays_not_registered :
  (∀ t, equal_test !! typed_array_name t = None) ∧
  Forall (λ name, equal_test !! name = Some Array_test)
    (for_in typed_array_names) ∧
  (@equal decimal_host default_config 2 (Ref 0) (Ref 1) typed_arrays_store).1
    = Ok false ∧
  (@Array default_config (@equal decimal_host default_config 1)
     (Ref 0) (Ref 1) typed_arrays_store).1 = Ok true ∧
  @equal decimal_host default_config 2 (Ref 0) (Ref 1) typed_arrays_store =
    @Object (@equal decimal_host default_config 1) (Ref 0) (Ref 1)
      typed_arrays_store.
Proof.
  split_and!.
  - by intros []; vm_compute.
  - repeat constructor; by vm_compute.
  - by vm_compute.
  - by vm_compute.
  - by vm_compute.
Qed.

(** ** [unsorted_identical] *)

Lemma array_elements_eval σ l es ps tp :
  σ !! l = Some (Obj (KArray es) ps tp) → array_elements l σ = (Ok es, σ).
Proof. intros Hl. unfold array_elements, bind, deref. by rewrite Hl. Qed.

Lemma splice_eval σ l es ps tp idx :
  σ !! l = Some (Obj (KArray es) ps tp) →
  splice l idx σ = (Ok (), <[l := Obj (KArray (delete idx es)) ps tp]> σ).
Proof. intros Hl. unfold splice, bind, deref. by rewrite Hl. Qed.

Lemma spread_eval xs σ :
  spread xs σ = (Ok (length σ), σ ++ [Obj (KArray xs) [] (PString "")])%list.
Proof. done. Qed.

(** [splice] writes to its array only. *)
Lemma splice_writes l idx σ : ∃ o, (splice l idx σ).2 = <[l := o]> σ.
Proof.
  unfold splice, bind, deref. destruct (σ !! l) as [o|] eqn:Hl; simpl.
  - destruct (kind_of o); simpl; eauto; exists o; by rewrite list_insert_id.
  - exists (Obj (KFunction "Function") [] PUndefined).
    rewrite list_insert_ge; [done|]. by apply lookup_ge_None.
Qed.

Lemma insert_unchanged (σ : store) l : ∃ o, σ = <[l := o]> σ.
Proof.
  destruct (σ !! l) as [o|] eqn:Hl.
  - exists o. by rewrite list_insert_id.
  - exists (Obj (KFunction "Function") [] PUndefined).
    rewrite list_insert_ge; [done|]. by apply lookup_ge_None.
Qed.

(** [unsorted_identical(a, b)] writes to [b] only. *)
Lemma unsorted_identical_from_writes k i a b σ :
  ∃ o, (unsorted_identical_from k i a b σ).2 = <[b := o]> σ.
Proof.
  revert i σ. induction k as [|k IH]; intros i σ; simpl.
  { apply insert_unchanged. }
  unfold bind at 1. pose proof (reads_array_elements a σ) as Ha.
  destruct (array_elements a σ) as [[xs| | |] σ1]; simpl in Ha; subst σ1;
    try apply insert_unchanged.
  destruct (xs !! i) as [a_item|]; [|apply insert_unchanged].
  unfold bind at 1. pose proof (reads_array_elements b σ) as Hb.
  destruct (array_elements b σ) as [[ys| | |] σ1]; simpl in Hb; subst σ1;
    try apply insert_unchanged.
  destruct (indexOf ys a_item) as [idx|]; [|apply insert_unchanged].
  unfold bind. destruct (splice_writes b idx σ) as [o Ho].
  destruct (splice b idx σ) as [[[]| | |] σ1]; simpl in Ho; subst σ1; eauto.
  destruct (IH (S i) (<[b:=o]> σ)) as [o' Ho']. exists o'.
  by rewrite Ho', list_insert_insert_eq.
Qed.

Lemma unsorted_identical_writes a b σ :
  ∃ o, (unsorted_identical a b σ).2 = <[b := o]> σ.
Proof.
  unfold unsorted_identical, bind.
  pose proof (reads_array_elements a σ) as Ha.
  destruct (array_elements a σ) as [[xs| | |] σ1]; simpl in Ha; subst σ1;
    try apply insert_unchanged.
  apply unsorted_identical_from_writes.
Qed.

(** On two different arrays [unsorted_identical] computes [consume]. *)
Lemma unsorted_identical_from_consume k i a b σ xs ys pa ta pb tb :
  a ≠ b →
  σ !! a = Some (Obj (KArray xs) pa ta) →
  σ !! b = Some (Obj (KArray ys) pb tb) →
  length xs ≤ k + i →
  unsorted_identical_from k i a b σ =
    (Ok (consume (drop i xs) ys).1,
     <[b := Obj (KArray (consume (drop i xs) ys).2) pb tb]> σ).
Proof.
  intros Hab. revert i σ ys.
  induction k as [|k IH]; intros i σ ys Ha Hb Hlen; simpl.
  { rewrite drop_ge by lia. simpl. by rewrite list_insert_id. }
  rewrite (bind_Ok _ _ _ _ _ (array_elements_eval _ _ _ _ _ Ha)).
  destruct (xs !! i) as [a_item|] eqn:Hi.
  2: { apply lookup_ge_None in Hi. rewrite drop_ge by lia. simpl.
       by rewrite list_insert_id. }
  rewrite (drop_S _ _ _ Hi). simpl.
  rewrite (bind_Ok _ _ _ _ _ (array_elements_eval _ _ _ _ _ Hb)).
  destruct (indexOf ys a_item) as [idx|]; [|by rewrite list_insert_id].
  rewrite (bind_Ok _ _ _ _ _ (splice_eval _ _ _ _ _ idx Hb)).
  rewrite (IH (S i) _ (delete idx ys)).
  - by rewrite list_insert_insert_eq.
  - by rewrite list_lookup_insert_ne.
  - apply list_lookup_insert_eq. by eapply lookup_lt_Some.
  - lia.
Qed.

Lemma unsorted_identical_consume a b σ xs ys pa ta pb tb :
  a ≠ b →
  σ !! a = Some (Obj (KArray xs) pa ta) →
  σ !! b = Some (Obj (KArray ys) pb tb) →
  unsorted_identical a b σ =
    (Ok (consume xs ys).1, <[b := Obj (KArray (consume xs ys).2) pb tb]> σ).
Proof.
  intros Hab Ha Hb. unfold unsorted_identical.
  rewrite (bind_Ok _ _ _ _ _ (array_elements_eval _ _ _ _ _ Ha)).
  by rewrite (unsorted_identical_from_consume _ 0 _ _ _ xs ys pa ta pb tb)
    by (done || lia).
Qed.

(** ** Nothing the caller owns is written *)

Lemma keeps_prefix {A} (m : M A) σ :
  keeps (length σ) m → σ `prefix_of` (m σ).2.
Proof.
  intros Hk. destruct (Hk σ) as [Ht _]; [done|].
  rewrite firstn_all in Ht.
  pose proof (prefix_take (m σ).2 (length σ)) as Hp. by rewrite Ht in Hp.
Qed.

(** C9: [equal] leaves every object of the store as it was: the store
    after the call extends the store before it.  [unsorted_identical]
    writes to its second array only, and in the [Map] test that array
    is the fresh copy of the keys: after comparing
    [new Map([["a", 1], ["b", 2]])] with [new Map([["b", 2], ["a", 1]])]
    the store holds the two maps unchanged, followed by [a_keys] and
    by the copy of the keys of [b], emptied. *)
Theorem equal_writes_nothing `{Host} cfg fuel a b σ :
  σ `prefix_of` (equal cfg fuel a b σ).2 ∧
  (∀ la lb, ∃ o, (unsorted_identical la lb σ).2 = <[lb := o]> σ) ∧
  @equal decimal_host default_config 2 (Ref 0) (Ref 1) string_keys_store =
    (Ok true,
     string_keys_store ++
       [Obj (KArray [str "a"; str "b"]) [] (PString "");
        Obj (KArray []) [] (PString "")])%list.
Proof.
  split_and!.
  - apply keeps_prefix, keeps_equal.
  - intros la lb. apply unsorted_identical_writes.
  - by vm_compute.
Qed.

(** ** Reading the store *)

Lemma get_type_Ref σ l o :
  σ !! l = Some o → get_type (Ref l) σ = (Ok (constructor_name (kind_of o)), σ).
Proof. intros Hl. unfold get_type, bind, deref. by rewrite Hl. Qed.

Lemma map_entries_eval σ l es ps tp :
  σ !! l = Some (Obj (KMap es) ps tp) → map_entries (Ref l) σ = (Ok es, σ).
Proof. intros Hl. unfold map_entries, bind, deref. by rewrite Hl. Qed.

Lemma map_size_eval σ l es ps tp :
  σ !! l = Some (Obj (KMap es) ps tp) → map_size (Ref l) σ = (Ok (length es), σ).
Proof.
  intros Hl. unfold map_size.
  by rewrite (bind_Ok _ _ _ _ _ (map_entries_eval _ _ _ _ _ Hl)).
Qed.

Lemma map_keys_eval σ l es ps tp :
  σ !! l = Some (Obj (KMap es) ps tp) → map_keys (Ref l) σ = (Ok (es.*1), σ).
Proof.
  intros Hl. unfold map_keys.
  by rewrite (bind_Ok _ _ _ _ _ (map_entries_eval _ _ _ _ _ Hl)).
Qed.

Lemma map_get_eval σ l es ps tp k :
  σ !! l = Some (Obj (KMap es) ps tp) →
  map_get (Ref l) k σ = (Ok (default undefined (assoc k es)), σ).
Proof.
  intros Hl. unfold map_get.
  by rewrite (bind_Ok _ _ _ _ _ (map_entries_eval _ _ _ _ _ Hl)).
Qed.

(** ** The [Map] test *)

Lemma bind_ext {A B} (m : M A) (f g : A → M B) σ :
  (∀ a σ', m σ = (Ok a, σ') → f a σ' = g a σ') → bind m f σ = bind m g σ.
Proof. intros Hfg. unfold bind. destruct (m σ) as [[]]; auto. Qed.

(** The [Map] test on two maps of the same size: after the check of
    the extra properties, the keys of [b] are consumed against those of
    [a] in two fresh arrays, and the values are compared key by key. *)
Lemma Map_run `{Host} cfg rec la lb σ ea eb pa ta pb tb :
  σ !! la = Some (Obj (KMap ea) pa ta) →
  σ !! lb = Some (Obj (KMap eb) pb tb) →
  length ea = length eb →
  (∀ x y, keeps (length σ) (rec x y)) →
  Map cfg rec (Ref la) (Ref lb) σ =
    bind (if check_all_properties cfg then Object rec (Ref la) (Ref lb)
          else ret true)
      (λ extra, if negb extra then ret false else λ σ1,
         let σ2 := (σ1 ++ [Obj (KArray (ea.*1)) [] (PString "");
                           Obj (KArray (consume (ea.*1) (eb.*1)).2) []
                             (PString "")])%list in
         if (consume (ea.*1) (eb.*1)).1
         then for_all (λ k,
                let! x := map_get (Ref la) k in
                let! y := map_get (Ref lb) k in
                rec x y) (ea.*1) σ2
         else (Ok false, σ2)) σ.
Proof.
  intros Ha Hb Hlen Hrec. unfold Map.
  rewrite (bind_Ok _ _ _ _ _ (map_size_eval _ _ _ _ _ Ha)).
  rewrite (bind_Ok _ _ _ _ _ (map_size_eval _ _ _ _ _ Hb)).
  rewrite Hlen, Nat.eqb_refl. cbn [negb].
  set (extra := if check_all_properties cfg then _ else _).
  assert (σ `prefix_of` (extra σ).2) as Hpre.
  { apply keeps_prefix. subst extra.
    destruct (check_all_properties cfg);
      [by apply keeps_Object|apply reads_keeps, reads_ret]. }
  apply bind_ext. intros [] σ1 Hextra; [|done].
  rewrite Hextra in Hpre. simpl in Hpre. cbn [negb].
  eapply prefix_lookup_Some in Ha, Hb; [|done..].
  rewrite (bind_Ok _ _ _ _ _ (map_keys_eval _ _ _ _ _ Ha)).
  rewrite (bind_Ok _ _ _ _ _ (spread_eval _ _)).
  set (A := Obj (KArray (ea.*1)) [] (PString "")).
  assert ((σ1 ++ [A]) !! lb = Some (Obj (KMap eb) pb tb)) as Hb'.
  { by apply lookup_app_l_Some. }
  rewrite (bind_Ok _ _ _ _ _ (map_keys_eval _ _ _ _ _ Hb')).
  rewrite (bind_Ok _ _ _ _ _ (spread_eval _ _)).
  set (B := Obj (KArray (eb.*1)) [] (PString "")).
  assert (((σ1 ++ [A]) ++ [B]) !! length σ1 = Some A) as HA.
  { apply lookup_app_l_Some. by rewrite list_lookup_middle. }
  assert (((σ1 ++ [A]) ++ [B]) !! length (σ1 ++ [A]) = Some B) as HB.
  { by rewrite list_lookup_middle. }
  assert (length σ1 ≠ length (σ1 ++ [A])) as Hne.
  { rewrite length_app. simpl. lia. }
  rewrite (bind_Ok _ _ _ _ _
             (unsorted_identical_consume _ _ _ _ _ _ _ _ _ Hne HA HB)).
  assert (<[length (σ1 ++ [A]) :=
             Obj (KArray (consume (ea.*1) (eb.*1)).2) [] (PString "")]>
            ((σ1 ++ [A]) ++ [B]) =
          σ1 ++ [A; Obj (KArray (consume (ea.*1) (eb.*1)).2) [] (PString "")])%list
    as ->.
  { rewrite insert_app_r_alt by done. rewrite Nat.sub_diag. simpl.
    by rewrite <-app_assoc. }
  destruct (consume (ea.*1) (eb.*1)).1; cbn [negb]; [|done].
  assert ((σ1 ++ [A; Obj (KArray (consume (ea.*1) (eb.*1)).2) [] (PString "")])
            !! length σ1 = Some A) as HA'.
  { by apply list_lookup_middle. }
  by rewrite (bind_Ok _ _ _ _ _ (array_elements_eval _ _ _ _ _ HA')).
Qed.

Lemma bind_Ok_inv {A B} (m : M A) (f : A → M B) σ r :
  (bind m f σ).1 = Ok r → ∃ a σ1, m σ = (Ok a, σ1) ∧ (f a σ1).1 = Ok r.
Proof. unfold bind. destruct (m σ) as [[]]; naive_solver. Qed.

Lemma bind_ret {A B} (a : A) (f : A → M B) σ : bind (ret a) f σ = f a σ.
Proof. done. Qed.

Lemma keeps_prefix_of {A} (m : M A) σ0 σ :
  keeps (length σ0) m → σ0 `prefix_of` σ → σ0 `prefix_of` (m σ).2.
Proof.
  intros Hk Hpre. destruct (Hk σ) as [Ht _]; [by apply prefix_length|].
  destruct Hpre as [k ->]. rewrite take_app_length in Ht.
  pose proof (prefix_take (m (σ0 ++ k)).2 (length σ0)) as Hp.
  by rewrite Ht in Hp.
Qed.

(** A loop that answers [true] ran its body to [true] on every
    element, each time in a store that extends the initial one. *)
Lemma for_all_true {A} (body : A → M bool) xs σ0 σ :
  σ0 `prefix_of` σ →
  (∀ x, keeps (length σ0) (body x)) →
  (for_all body xs σ).1 = Ok true →
  ∀ x, x ∈ xs → ∃ σ', σ0 `prefix_of` σ' ∧ (body x σ').1 = Ok true.
Proof.
  intros Hpre Hk. revert σ Hpre.
  induction xs as [|y xs IH]; intros σ Hpre Hall x Hx.
  { by apply elem_of_nil in Hx. }
  simpl in Hall. unfold bind in Hall.
  pose proof (keeps_prefix_of _ _ _ (Hk y) Hpre) as Hpre'.
  destruct (body y σ) as [[[]| | |] σ1] eqn:Hy; try done.
  apply elem_of_cons in Hx as [->|Hx].
  - exists σ. by rewrite Hy.
  - by apply (IH σ1).
Qed.

Lemma indexOf_Some ys x i : indexOf ys x = Some i → ys !! i = Some x.
Proof.
  revert i. induction ys as [|y ys IH]; intros i; simpl; [done|].
  destruct (strict_eq y x) eqn:Hyx.
  - intros [= <-]. by apply strict_eq_true in Hyx as ->.
  - destruct (indexOf ys x); [|done]. intros [= <-]. by apply IH.
Qed.

(** [indexOf] never finds [NaN]. *)
Lemma indexOf_NaN ys : indexOf ys (Prim (PNumber NaN)) = None.
Proof.
  induction ys as [|y ys IH]; simpl; [done|]. rewrite IH.
  by destruct y as [[| | |[]| | |]|].
Qed.

Lemma consume_NaN xs ys :
  Prim (PNumber NaN) ∈ xs → (consume xs ys).1 = false.
Proof.
  revert ys. induction xs as [|x xs IH]; intros ys Hin; simpl.
  { by apply elem_of_nil in Hin. }
  destruct (indexOf ys x) eqn:Hx; [|done].
  apply elem_of_cons in Hin as [<-|Hin]; [|by apply IH].
  by rewrite indexOf_NaN in Hx.
Qed.

Lemma consume_Permutation xs ys :
  (consume xs ys).1 = true → ys ≡ₚ xs ++ (consume xs ys).2.
Proof.
  revert ys. induction xs as [|x xs IH]; intros ys; simpl; [done|].
  destruct (indexOf ys x) as [i|] eqn:Hx; [|done].
  intros Hc. apply indexOf_Some in Hx.
  etrans; [apply (delete_Permutation _ _ _ Hx)|].
  by apply Permutation_skip, IH.
Qed.

(** When the lengths agree, [consume] succeeds only on two lists that
    hold the same values the same number of times. *)
Lemma consume_true xs ys :
  length xs = length ys → (consume xs ys).1 = true → xs ≡ₚ ys.
Proof.
  intros Hlen Hc. pose proof (consume_Permutation _ _ Hc) as Hp.
  pose proof (Permutation_length Hp) as Hl. rewrite length_app in Hl.
  destruct (consume xs ys).2; [|simpl in Hl; lia].
  by rewrite app_nil_r in Hp.
Qed.

Lemma equal_refl `{Host} cfg fuel a σ : equal cfg (S fuel) a a σ = (Ok true, σ).
Proof.
  destruct (decide (a = Prim (PNumber NaN))) as [->|Hn].
  - by rewrite equal_numbers.
  - rewrite equal_unfold. unfold equal_body. by rewrite strict_eq_refl.
Qed.

(** Two different [Map] objects are compared by the [Map] test. *)
Lemma equal_Maps `{Host} cfg fuel σ la lb ea eb pa ta pb tb :
  la ≠ lb →
  σ !! la = Some (Obj (KMap ea) pa ta) →
  σ !! lb = Some (Obj (KMap eb) pb tb) →
  equal cfg (S fuel) (Ref la) (Ref lb) σ =
    Map cfg (equal cfg fuel) (Ref la) (Ref lb) σ.
Proof.
  intros Hne Ha Hb. rewrite equal_unfold.
  rewrite (equal_body_dispatch _ _ _ _ _ "Map" Map_test);
    [done| |by rewrite (get_type_Ref _ _ _ Ha)
     |by rewrite (get_type_Ref _ _ _ Hb)| |apply equal_test_Map].
  - simpl. by rewrite bool_decide_eq_false_2.
  - unfold loose_eq, ret. by rewrite bool_decide_eq_false_2.
Qed.

(** C5: for two [Map] objects of equal size, [equal] returns [true]
    only if the two lists of keys hold the same values the same number
    of times, values being primitives or references (two references are
    the same when they point to the same object), and the comparison of
    the two values under every key returns [true].  When the keys are
    not the same in that sense and [check_all_properties] is off,
    [equal] returns [false] on two different maps. *)
Theorem Map_keys_by_identity `{Host} cfg fuel σ la lb ea eb pa ta pb tb :
  σ !! la = Some (Obj (KMap ea) pa ta) →
  σ !! lb = Some (Obj (KMap eb) pb tb) →
  length ea = length eb →
  ((equal cfg (S fuel) (Ref la) (Ref lb) σ).1 = Ok true →
     ea.*1 ≡ₚ eb.*1 ∧
     ∀ k, k ∈ ea.*1 →
       ∃ fuel' σ', σ `prefix_of` σ' ∧
         (equal cfg fuel' (default undefined (assoc k ea))
            (default undefined (assoc k eb)) σ').1 = Ok true) ∧
  (la ≠ lb → ¬ ea.*1 ≡ₚ eb.*1 → check_all_properties cfg = false →
     (equal cfg (S fuel) (Ref la) (Ref lb) σ).1 = Ok false).
Proof.
  intros Ha Hb Hlen.
  destruct (decide (la = lb)) as [->|Hne].
  { split; [|done]. intros _. simplify_eq. split; [done|].
    intros k _. exists 1, σ. by rewrite equal_refl. }
  rewrite (equal_Maps _ _ _ _ _ _ _ _ _ _ _ Hne Ha Hb).
  rewrite (Map_run _ _ _ _ _ _ _ _ _ _ _ Ha Hb Hlen)
    by (intros; apply keeps_equal).
  set (extra := if check_all_properties cfg then _ else _).
  assert (keeps (length σ) extra) as Hextra.
  { subst extra. destruct (check_all_properties cfg);
      [apply keeps_Object; intros; apply keeps_equal
      |apply reads_keeps, reads_ret]. }
  apply keeps_prefix in Hextra.
  split.
  - intros ([] & σ1 & Hσ1 & Hall)%bind_Ok_inv; [|done].
    rewrite Hσ1 in Hextra. simpl in Hextra. cbn [negb] in Hall.
    destruct (consume (ea.*1) (eb.*1)).1 eqn:Hc; [|done].
    split.
    { apply consume_true; [by rewrite !length_fmap|done]. }
    intros k Hk.
    assert (σ `prefix_of` σ1 ++
              [Obj (KArray (ea.*1)) [] (PString "");
               Obj (KArray (consume (ea.*1) (eb.*1)).2) [] (PString "")])
      as Hpre2.
    { etrans; [done|]. by apply prefix_app_r. }
    assert (∀ k, keeps (length σ)
              (let! x := map_get (Ref la) k in
               let! y := map_get (Ref lb) k in
               equal cfg fuel x y)) as Hbody.
    { intros x. solve_keeps. apply keeps_equal. }
    destruct (for_all_true _ _ _ _ Hpre2 Hbody Hall k Hk)
      as (σ' & Hpre & Hk').
    clear Hbody. rename Hk' into Hbody.
    exists fuel, σ'. split; [done|].
    eapply prefix_lookup_Some in Ha, Hb; [|done..].
    rewrite (bind_Ok _ _ _ _ _ (map_get_eval _ _ _ _ _ k Ha)) in Hbody.
    by rewrite (bind_Ok _ _ _ _ _ (map_get_eval _ _ _ _ _ k Hb)) in Hbody.
  - intros _ Hperm Hcheck. subst extra. rewrite Hcheck, bind_ret.
    cbn [negb].
    destruct (consume (ea.*1) (eb.*1)).1 eqn:Hc; [|done].
    destruct Hperm. apply consume_true; [by rewrite !length_fmap|done].
Qed.

Lemma Map_keys_by_identity_witness :
  ((@equal decimal_host default_config 2 (Ref 6) (Ref 7)
      identity_keys_store).1 = Ok true →
     [Ref 0; Ref 1; Ref 2] ≡ₚ [Ref 3; Ref 4; Ref 5] ∧
     ∀ k, k ∈ [Ref 0; Ref 1; Ref 2] →
       ∃ fuel' σ', identity_keys_store `prefix_of` σ' ∧
         (@equal decimal_host default_config fuel'
            (default undefined
               (assoc k [(Ref 0, num 3); (Ref 1, num 2); (Ref 2, num 1)]))
            (default undefined
               (assoc k [(Ref 3, num 1); (Ref 4, num 2); (Ref 5, num 3)]))
            σ').1 = Ok true) ∧
  (6 ≠ 7 → ¬ [Ref 0; Ref 1; Ref 2] ≡ₚ [Ref 3; Ref 4; Ref 5] →
     check_all_properties default_config = false →
     (@equal decimal_host default_config 2 (Ref 6) (Ref 7)
        identity_keys_store).1 = Ok false).
Proof.
  apply (@Map_keys_by_identity decimal_host default_config 1
           identity_keys_store 6 7
           [(Ref 0, num 3); (Ref 1, num 2); (Ref 2, num 1)]
           [(Ref 3, num 1); (Ref 4, num 2); (Ref 5, num 3)]
           [] (PString "[object Map]") [] (PString "[object Map]"));
    reflexivity.
Defined.

(** The maps of the test table: keys that are different objects of the
    same shape. *)
Example equal_Maps_of_distinct_keys :
  (@equal decimal_host default_config 2 (Ref 6) (Ref 7)
     identity_keys_store).1 = Ok false.
Proof. by vm_compute. Qed.

(** ** [NaN] as a key and as an element *)

Lemma set_elements_eval σ l xs ps tp :
  σ !! l = Some (Obj (KSet xs) ps tp) → set_elements (Ref l) σ = (Ok xs, σ).
Proof. intros Hl. unfold set_elements, bind, deref. by rewrite Hl. Qed.

Lemma for_all_set_has σ lb xb ps tp xs :
  σ !! lb = Some (Obj (KSet xb) ps tp) →
  for_all (λ a_item, set_has (Ref lb) a_item) xs σ =
    (Ok (forallb (λ x, bool_decide (x ∈ xb)) xs), σ).
Proof.
  intros Hb. induction xs as [|x xs IH]; simpl; [done|].
  unfold set_has at 1.
  rewrite (bind_Ok _ _ _ _ _
             (bind_Ok _ _ _ _ _ (set_elements_eval _ _ _ _ _ Hb))).
  by destruct (bool_decide (x ∈ xb)).
Qed.

(** Two different [Set] objects are compared by the [Set] test, which
    without [check_all_properties] compares the sizes and looks every
    element of [a] up in [b]. *)
Lemma equal_Sets `{Host} cfg fuel σ la lb xa xb pa ta pb tb :
  la ≠ lb →
  σ !! la = Some (Obj (KSet xa) pa ta) →
  σ !! lb = Some (Obj (KSet xb) pb tb) →
  check_all_properties cfg = false →
  equal cfg (S fuel) (Ref la) (Ref lb) σ =
    (Ok ((length xa =? length xb)
         && forallb (λ x, bool_decide (x ∈ xb)) xa), σ).
Proof.
  intros Hne Ha Hb Hcheck. rewrite equal_unfold.
  rewrite (equal_body_dispatch _ _ _ _ _ "Set" Set_test);
    [|simpl; by rewrite bool_decide_eq_false_2
     |by rewrite (get_type_Ref _ _ _ Ha)
     |by rewrite (get_type_Ref _ _ _ Hb)
     |unfold loose_eq, ret; by rewrite bool_decide_eq_false_2
     |apply equal_test_Set].
  unfold run_test, Set_, set_size. rewrite Hcheck.
  rewrite (bind_Ok _ _ _ _ _
             (bind_Ok _ _ _ _ _ (set_elements_eval _ _ _ _ _ Ha))).
  rewrite (bind_Ok _ _ _ _ _
             (bind_Ok _ _ _ _ _ (set_elements_eval _ _ _ _ _ Hb))).
  destruct (length xa =? length xb); cbn [negb andb]; [|done].
  rewrite bind_ret. cbn [negb].
  rewrite (bind_Ok _ _ _ _ _ (set_elements_eval _ _ _ _ _ Ha)).
  by apply (for_all_set_has _ _ _ _ _ _ Hb).
Qed.



(** With [check_all_properties] on, the check of the extra properties
    comes first and can throw. *)
Example equal_NaN_Maps_extra_property :
  (@equal decimal_host (Config true true) 2 (Ref 0) (Ref 1) NaN_extra_store).1
    = TypeError.
Proof. by vm_compute. Qed.

(** ** The [Object] test *)

Lemma sorted_identical_from_eq a b :
  length a = length b → sorted_identical_from a b = bool_decide (a = b).
Proof.
  revert b. induction a as [|x a IH]; intros [|y b] Hlen; try done; simpl.
  destruct (String.eqb_spec x y) as [->|Hxy]; simpl.
  - rewrite IH by (simpl in Hlen; lia). apply bool_decide_ext. naive_solver.
  - rewrite bool_decide_eq_false_2; [done|]. naive_solver.
Qed.

(** [sorted_identical] is equality of the two lists. *)
Lemma sorted_identical_eq a b : sorted_identical a b = bool_decide (a = b).
Proof.
  unfold sorted_identical. destruct (length a =? length b) eqn:Hlen; simpl.
  - apply Nat.eqb_eq in Hlen. by apply sorted_identical_from_eq.
  - apply Nat.eqb_neq in Hlen. rewrite bool_decide_eq_false_2; [done|].
    by intros ->.
Qed.

(** Sorting forgets the order the names came in, and nothing else. *)
Lemma sort_Permutation ka kb : sort ka = sort kb ↔ ka ≡ₚ kb.
Proof.
  unfold sort. split.
  - intros Heq. rewrite <-(merge_sort_Permutation String.le ka), Heq.
    apply merge_sort_Permutation.
  - intros Hp. apply (Sorted_unique String.le); try apply _.
    + apply Sorted_merge_sort, _.
    + apply Sorted_merge_sort, _.
    + by rewrite !merge_sort_Permutation.
Qed.

Lemma assoc_Some_elem_of {K V} `{EqDecision K} (k : K) (v : V) kvs :
  assoc k kvs = Some v → (k, v) ∈ kvs.
Proof.
  induction kvs as [|[k' v'] kvs IH]; simpl; [done|].
  destruct (decide (k' = k)) as [->|]; [intros [= ->]; left|right; auto].
Qed.

Lemma assoc_elem_of {K V} `{EqDecision K} (k : K) (v : V) kvs :
  NoDup (kvs.*1) → (k, v) ∈ kvs → assoc k kvs = Some v.
Proof.
  induction kvs as [|[k' v'] kvs IH]; simpl.
  { by intros _ ?%elem_of_nil. }
  intros [Hk' Hnd]%NoDup_cons [[= -> ->]|Hin]%elem_of_cons.
  - by rewrite decide_True.
  - rewrite decide_False; [by apply IH|]. intros ->. apply Hk'.
    apply list_elem_of_fmap. by exists (k, v).
Qed.

(** With distinct names, looking a name up does not depend on the
    order of the properties. *)
Lemma assoc_Permutation {K V} `{EqDecision K} (k : K) (kvs kvs' : list (K * V)) :
  NoDup (kvs.*1) → kvs ≡ₚ kvs' → assoc k kvs = assoc k kvs'.
Proof.
  intros Hnd Hp. assert (NoDup (kvs'.*1)) as Hnd' by by rewrite <-Hp.
  apply option_eq. intros v. split; intros Hv%assoc_Some_elem_of.
  - apply assoc_elem_of; [done|]. by rewrite <-Hp.
  - apply assoc_elem_of; [done|]. by rewrite Hp.
Qed.

(** The properties of a value read the same in an extended store. *)
Lemma own_properties_prefix a σ σ' ps :
  σ `prefix_of` σ' →
  (own_properties a σ).1 = Ok ps → own_properties a σ' = (Ok ps, σ').
Proof.
  intros Hpre. destruct a as [p|l]; simpl.
  { destruct p; simpl; try done; by intros [= <-]. }
  unfold bind, deref. destruct (σ !! l) as [o|] eqn:Hl; [|done].
  rewrite (prefix_lookup_Some _ _ _ _ Hl Hpre). by intros [= <-].
Qed.

Lemma Object_keys_prefix a σ σ' ps :
  σ `prefix_of` σ' →
  (own_properties a σ).1 = Ok ps → Object_keys a σ' = (Ok (ps.*1), σ').
Proof.
  intros Hpre Hps. unfold Object_keys.
  by rewrite (bind_Ok _ _ _ _ _ (own_properties_prefix _ _ _ _ Hpre Hps)).
Qed.

Lemma get_property_prefix a k σ σ' ps :
  σ `prefix_of` σ' →
  (own_properties a σ).1 = Ok ps →
  get_property a k σ' = (Ok (default undefined (assoc k ps)), σ').
Proof.
  intros Hpre Hps. unfold get_property.
  by rewrite (bind_Ok _ _ _ _ _ (own_properties_prefix _ _ _ _ Hpre Hps)).
Qed.

(** Two loops whose bodies agree in every store that extends the
    initial one run alike. *)
Lemma for_all_ext {A} (f g : A → M bool) xs σ0 σ :
  σ0 `prefix_of` σ →
  (∀ x, keeps (length σ0) (f x)) →
  (∀ x σ', σ0 `prefix_of` σ' → f x σ' = g x σ') →
  for_all f xs σ = for_all g xs σ.
Proof.
  intros Hpre Hk Hfg. revert σ Hpre.
  induction xs as [|x xs IH]; intros σ Hpre; simpl; [done|].
  unfold bind. rewrite <-(Hfg x σ Hpre).
  pose proof (keeps_prefix_of _ _ _ (Hk x) Hpre) as Hpre'.
  destruct (f x σ) as [[[]| | |] σ1]; try done. by apply IH.
Qed.

(** The [Object] test on two values whose properties are [pa] and
    [pb]: the sorted names must be the same, then the values are
    compared name by name. *)
Lemma Object_run rec a b σ pa pb :
  (own_properties a σ).1 = Ok pa →
  (own_properties b σ).1 = Ok pb →
  Object rec a b σ =
    if bool_decide (sort (pa.*1) = sort (pb.*1))
    then for_all (λ k,
           let! x := get_property a k in
           let! y := get_property b k in
           rec x y) (sort (pa.*1)) σ
    else (Ok false, σ).
Proof.
  intros Ha Hb. unfold Object.
  rewrite (bind_Ok _ _ _ _ _ (Object_keys_prefix _ _ _ _ (reflexivity σ) Ha)).
  rewrite (bind_Ok _ _ _ _ _ (Object_keys_prefix _ _ _ _ (reflexivity σ) Hb)).
  rewrite sorted_identical_eq. by case_bool_decide.
Qed.

(** The [Object] test on two primitives that have no property *)
Lemma Object_no_properties rec a b σ :
  own_properties a σ = (Ok [], σ) → own_properties b σ = (Ok [], σ) →
  Object rec a b σ = (Ok true, σ).
Proof.
  intros Ha Hb. rewrite (Object_run _ _ _ _ [] []) by by rewrite ?Ha, ?Hb.
  done.
Qed.

(** A loop whose body returns without writing returns the conjunction
    of what the body returns. *)
Lemma for_all_results {A} (body : A → M bool) (r : A → bool) xs σ :
  (∀ x, x ∈ xs → body x σ = (Ok (r x), σ)) →
  for_all body xs σ = (Ok (forallb r xs), σ).
Proof.
  induction xs as [|x xs IH]; intros Hb; simpl; [done|].
  rewrite (bind_Ok _ _ _ _ _ (Hb x ltac:(left))).
  destruct (r x); [|done]. apply IH. intros y Hy. apply Hb. by right.
Qed.

(** C6: the [Object] test does not depend on the order in which the
    properties of either side were inserted; it answers [false]
    whenever the two sets of names differ, and otherwise compares the
    values under each name, the names taken in sorted order: when the
    comparisons of the values return, it answers [true] exactly when
    each of them does.  So [equal({a: 1, b: 2}, {b: 2, a: 1})] is
    [true] and [equal({a: 1, b: 2}, {b: 3, a: 1})] is [false]. *)
Theorem Object_key_order `{Host} cfg fuel σ a b a' b' pa pb pa' pb' :
  (own_properties a σ).1 = Ok pa →
  (own_properties b σ).1 = Ok pb →
  (own_properties a' σ).1 = Ok pa' →
  (own_properties b' σ).1 = Ok pb' →
  NoDup (pa.*1) → NoDup (pb.*1) →
  pa ≡ₚ pa' → pb ≡ₚ pb' →
  Object (equal cfg fuel) a' b' σ = Object (equal cfg fuel) a b σ ∧
  (¬ pa.*1 ≡ₚ pb.*1 → Object (equal cfg fuel) a b σ = (Ok false, σ)) ∧
  (pa.*1 ≡ₚ pb.*1 →
     Object (equal cfg fuel) a b σ =
       for_all (λ k, equal cfg fuel (default undefined (assoc k pa))
                       (default undefined (assoc k pb)))
         (sort (pa.*1)) σ) ∧
  (pa.*1 ≡ₚ pb.*1 →
     ∀ r : string → bool,
       (∀ k, k ∈ pa.*1 →
          equal cfg fuel (default undefined (assoc k pa))
            (default undefined (assoc k pb)) σ = (Ok (r k), σ)) →
       ∃ res, Object (equal cfg fuel) a b σ = (Ok res, σ) ∧
              (res = true ↔ ∀ k, k ∈ pa.*1 → r k = true)) ∧
  (@equal decimal_host default_config 2 (Ref 0) (Ref 1) key_order_store).1
    = Ok true ∧
  (@equal decimal_host default_config 2 (Ref 0) (Ref 1)
     different_values_store).1 = Ok false.
Proof.
  intros Ha Hb Ha' Hb' Hnda Hndb Hpa Hpb.
  rewrite (Object_run _ _ _ _ _ _ Ha Hb), (Object_run _ _ _ _ _ _ Ha' Hb').
  assert (sort (pa'.*1) = sort (pa.*1)) as -> by by apply sort_Permutation; rewrite Hpa.
  assert (sort (pb'.*1) = sort (pb.*1)) as -> by by apply sort_Permutation; rewrite Hpb.
  assert (∀ a0 b0 pa0 pb0,
            (own_properties a0 σ).1 = Ok pa0 →
            (own_properties b0 σ).1 = Ok pb0 →
            pa ≡ₚ pa0 → pb ≡ₚ pb0 →
            for_all (λ k,
              let! x := get_property a0 k in
              let! y := get_property b0 k in
              equal cfg fuel x y) (sort (pa.*1)) σ =
            for_all (λ k, equal cfg fuel (default undefined (assoc k pa))
                            (default undefined (assoc k pb)))
              (sort (pa.*1)) σ) as Hloop.
  { intros a0 b0 pa0 pb0 Ha0 Hb0 Hpa0 Hpb0.
    apply (for_all_ext _ _ _ σ); [done| |].
    - intros k. solve_keeps. apply keeps_equal.
    - intros k σ' Hpre.
      rewrite (bind_Ok _ _ _ _ _ (get_property_prefix _ k _ _ _ Hpre Ha0)).
      rewrite (bind_Ok _ _ _ _ _ (get_property_prefix _ k _ _ _ Hpre Hb0)).
      by rewrite <-(assoc_Permutation k pa pa0), <-(assoc_Permutation k pb pb0). }
  split_and!.
  - case_bool_decide; [|done].
    by rewrite (Hloop a b pa pb), (Hloop a' b' pa' pb').
  - intros Hne. rewrite bool_decide_eq_false_2; [done|].
    by rewrite sort_Permutation.
  - intros Hp. rewrite bool_decide_eq_true_2 by by apply sort_Permutation.
    by apply (Hloop a b pa pb).
  - intros Hp r Hr.
    rewrite bool_decide_eq_true_2 by by apply sort_Permutation.
    rewrite (Hloop a b pa pb) by done.
    assert (∀ k, k ∈ sort (pa.*1) ↔ k ∈ pa.*1) as Hin.
    { intros k. unfold sort. by rewrite merge_sort_Permutation. }
    exists (forallb r (sort (pa.*1))). split.
    + apply for_all_results. intros k Hk. by apply Hr, Hin.
    + rewrite forallb_forall. split.
      * intros Hall k Hk. by apply Hall, list_elem_of_In, Hin.
      * intros Hall k Hk. by apply Hall, Hin, list_elem_of_In.
  - by vm_compute.
  - by vm_compute.
Qed.

Lemma Object_key_order_witness :
  Object (@equal decimal_host default_config 1) (Ref 0) (Ref 1) key_order_store =
    Object (@equal decimal_host default_config 1) (Ref 0) (Ref 0) key_order_store ∧
  ∃ res,
    Object (@equal decimal_host default_config 1) (Ref 0) (Ref 1)
      different_values_store = (Ok res, different_values_store) ∧
    (res = true ↔
     ∀ k, k ∈ [("a", num 1); ("b", num 2)].*1 → String.eqb k "a" = true).
Proof.
  split.
  - refine (proj1 (@Object_key_order decimal_host default_config 1
                     key_order_store (Ref 0) (Ref 0) (Ref 0) (Ref 1)
                     [("a", num 1); ("b", num 2)] [("a", num 1); ("b", num 2)]
                     [("a", num 1); ("b", num 2)] [("b", num 2); ("a", num 1)]
                     _ _ _ _ _ _ _ _)).
    + reflexivity.
    + reflexivity.
    + reflexivity.
    + reflexivity.
    + apply (bool_decide_unpack _). reflexivity.
    + apply (bool_decide_unpack _). reflexivity.
    + reflexivity.
    + apply perm_swap.
  - refine (proj1 (proj2 (proj2 (proj2
              (@Object_key_order decimal_host default_config 1
                 different_values_store (Ref 0) (Ref 1) (Ref 0) (Ref 1)
                 [("a", num 1); ("b", num 2)] [("b", num 3); ("a", num 1)]
                 [("a", num 1); ("b", num 2)] [("b", num 3); ("a", num 1)]
                 _ _ _ _ _ _ _ _)))) _ (λ k, String.eqb k "a") _).
    + reflexivity.
    + reflexivity.
    + reflexivity.
    + reflexivity.
    + apply (bool_decide_unpack _). reflexivity.
    + apply (bool_decide_unpack _). reflexivity.
    + reflexivity.
    + reflexivity.
    + apply perm_swap.
    + intros k Hk. apply elem_of_cons in Hk as [->|Hk]; [reflexivity|].
      apply list_elem_of_singleton in Hk as ->. reflexivity.
Defined.

(** ** The flag [allow_type_coercion] *)

(** The tests read [check_all_properties] only. *)
Lemma run_test_allow `{Host} allow allow' check rec t a b :
  run_test (Config allow check) rec t a b =
  run_test (Config allow' check) rec t a b.
Proof. by destruct t. Qed.

(** Past the first test [equal] does not read [allow_type_coercion], and
    in the first test the flag matters only when exactly one of the two
    constructor names is [String]. *)
Lemma equal_body_allow `{Host} allow allow' check rec a b σ ca cb :
  (get_type a σ).1 = Ok ca → (get_type b σ).1 = Ok cb →
  (ca = "String" ↔ cb = "String") →
  equal_body (Config allow check) rec a b σ =
  equal_body (Config allow' check) rec a b σ.
Proof.
  intros Ha Hb Hs.
  destruct (loose_eq_total a b σ ca cb Ha Hb) as [e He].
  apply get_type_reads in Ha, Hb.
  destruct (strict_eq a b) eqn:Hab; [by unfold equal_body; rewrite Hab|].
  rewrite !(equal_body_reads _ _ _ _ _ _ _ _ Hab Ha Hb He).
  cbn [allow_type_coercion].
  assert ((ca =? cb)%string
          || negb (ca =? "String")%string && negb (cb =? "String")%string
          = true) as Hguard.
  { destruct (String.eqb_spec ca cb) as [|Hne]; [done|].
    destruct (String.eqb_spec ca "String") as [Hca|Hca],
             (String.eqb_spec cb "String") as [Hcb|Hcb]; naive_solver. }
  replace (allow || (ca =? cb)%string
           || negb (ca =? "String")%string && negb (cb =? "String")%string)
    with true by (rewrite <-orb_assoc, Hguard; by destruct allow).
  replace (allow' || (ca =? cb)%string
           || negb (ca =? "String")%string && negb (cb =? "String")%string)
    with true by (rewrite <-orb_assoc, Hguard; by destruct allow').
  destruct (e && true); [done|].
  destruct (negb (ca =? cb)%string); [done|].
  destruct (equal_test !! ca); [|done].
  by rewrite (run_test_allow allow allow').
Qed.

(** On two primitives no test calls [equal] again. *)
Lemma equal_body_Prim_rec `{Host} cfg rec rec' p q σ :
  equal_body cfg rec (Prim p) (Prim q) σ =
  equal_body cfg rec' (Prim p) (Prim q) σ.
Proof.
  unfold equal_body. destruct (strict_eq _ _); [done|].
  apply bind_ext. intros ca σ1 Hca.
  apply bind_ext. intros cb σ2 Hcb.
  apply bind_ext. intros e σ3 _.
  destruct (e && _); [done|].
  destruct (String.eqb_spec ca cb) as [<-|]; [|done]. cbn [negb].
  assert (∀ r, Object r (Prim p) (Prim q) σ3 = (Ok true, σ3)
               ∧ equal_test !! ca = None
             ∨ ca = "Number" ∨ ca = "String" ∨ ca = "Symbol") as Hcases.
  { intros r. destruct p; simpl in Hca; unfold ret, type_error in Hca;
      simplify_eq; auto; left.
    all: destruct q; simpl in Hcb; unfold ret, type_error in Hcb;
      simplify_eq.
    all: split; [by apply Object_no_properties|by vm_compute]. }
  destruct (Hcases rec) as [[Hrec Ht] | [-> | [-> | ->]]].
  - destruct (Hcases rec') as [[Hrec2 ?]|[?|[?|?]]];
      [|subst; by rewrite ?equal_test_Number, ?equal_test_String,
                  ?equal_test_Symbol in Ht..].
    rewrite Ht. destruct (bool_decide _); [done|]. by rewrite Hrec, Hrec2.
  - by rewrite equal_test_Number.
  - by rewrite equal_test_String.
  - by rewrite equal_test_Symbol.
Qed.

(** C2 (amended): [equal(3, 3n)], and more generally the comparison of
    a Number with the BigInt of the same value, returns [true] under
    both settings of [allow_type_coercion].  The flag is read in the
    first test of [equal] only, where it matters only for a pair of
    which exactly one is a [String]: on every other pair the body of
    [equal] does the same under both settings, and so does [equal]
    itself on two primitives; [equal(3, "3")] is [true] with the flag
    and [false] without. *)
Theorem equal_number_bigint_any_setting `{Host} cfg fuel σ z :
  equal cfg (S fuel) (num 3) (bigint 3) σ = (Ok true, σ) ∧
  equal cfg (S fuel) (num z) (bigint z) σ = (Ok true, σ) ∧
  (∀ allow allow' check rec a b ca cb,
     (get_type a σ).1 = Ok ca → (get_type b σ).1 = Ok cb →
     (ca = "String" ↔ cb = "String") →
     equal_body (Config allow check) rec a b σ =
     equal_body (Config allow' check) rec a b σ) ∧
  (∀ allow allow' check p q ca cb,
     (get_type (Prim p) σ).1 = Ok ca → (get_type (Prim q) σ).1 = Ok cb →
     (ca = "String" ↔ cb = "String") →
     equal (Config allow check) (S fuel) (Prim p) (Prim q) σ =
     equal (Config allow' check) (S fuel) (Prim p) (Prim q) σ) ∧
  (@equal decimal_host (Config true false) 1 (num 3) (str "3") []).1
    = Ok true ∧
  (@equal decimal_host (Config false false) 1 (num 3) (str "3") []).1
    = Ok false.
Proof.
  split; [apply equal_number_bigint_any|].
  split; [apply equal_number_bigint_any|].
  split; [intros; by apply (equal_body_allow _ _ _ _ _ _ _ ca cb)|].
  split; [|by split].
  intros allow allow' check p q ca cb Hp Hq Hs.
  rewrite !equal_unfold.
  rewrite (equal_body_allow allow allow' _ _ _ _ _ ca cb) by done.
  apply equal_body_Prim_rec.
Qed.

(** C2 fails as stated: with [allow_type_coercion] false,
    [equal(3, 3n)] is [true], not [false]. *)
Lemma equal_3_3n_without_coercion :
  (@equal decimal_host (Config false false) 1 (num 3) (bigint 3) []).1 = Ok true ∧
  (@equal decimal_host (Config false false) 1 (num 3) (bigint 3) []).1 ≠ Ok false.
Proof. by rewrite equal_number_bigint_any. Qed.

Lemma equal_number_bigint_any_setting_witness :
  @equal_body decimal_host (Config true false)
    (@equal decimal_host (Config true false) 0) (num 3) (bigint 3) [] =
  @equal_body decimal_host (Config false false)
    (@equal decimal_host (Config true false) 0) (num 3) (bigint 3) [].
Proof.
  refine (proj1 (proj2 (proj2
            (@equal_number_bigint_any_setting decimal_host default_config 0
               [] 3)))
            true false false _ (num 3) (bigint 3) "Number" "BigInt" _ _ _);
    [reflexivity|reflexivity|].
  split; discriminate.
Defined.

(** ** Symmetry *)

Lemma stable_ret {A} σ0 (a : A) : stable σ0 (ret a).
Proof. by intros σ _. Qed.

Lemma stable_type_error {A} σ0 : stable σ0 (@type_error A).
Proof. by intros σ _. Qed.

Lemma stable_unsupported {A} σ0 : stable σ0 (@unsupported A).
Proof. by intros σ _. Qed.

Lemma stable_deref σ0 l : l < length σ0 → stable σ0 (deref l).
Proof.
  intros Hl σ Hpre. unfold deref.
  rewrite <-(prefix_lookup_lt _ _ _ Hl Hpre). by destruct (σ0 !! l).
Qed.

Lemma stable_bind {A B} σ0 (m : M A) (f : A → M B) :
  stable σ0 m → (∀ a, stable σ0 (f a)) → stable σ0 (bind m f).
Proof.
  intros Hm Hf σ Hpre. unfold bind. rewrite (Hm σ Hpre).
  rewrite (Hm σ0) by done. simpl.
  destruct (m σ0).1; try done. rewrite (Hf a σ Hpre).
  by rewrite (Hf a σ0).
Qed.

Lemma stable_reads {A} σ0 (m : M A) σ :
  stable σ0 m → σ0 `prefix_of` σ → (m σ).2 = σ.
Proof. intros Hm Hpre. by rewrite (Hm σ Hpre). Qed.

(** What a stable computation returns is read off the initial store. *)
Lemma bind_stable_inv {A B} σ0 (m : M A) (f : A → M B) σ r :
  stable σ0 m → σ0 `prefix_of` σ →
  (bind m f σ).1 = Ok r → ∃ a, (m σ0).1 = Ok a ∧ (f a σ).1 = Ok r.
Proof.
  intros Hm Hpre. unfold bind. rewrite (Hm σ Hpre).
  destruct (m σ0).1; naive_solver.
Qed.

Ltac stable_step :=
  lazymatch goal with
  | |- stable _ (bind _ _) => apply stable_bind; [|intros ?]
  | |- stable _ (ret _) => apply stable_ret
  | |- stable _ type_error => apply stable_type_error
  | |- stable _ unsupported => apply stable_unsupported
  | |- stable _ (deref _) => apply stable_deref; assumption
  | |- stable _ (match ?x with _ => _ end) => destruct x
  | |- stable _ _ => solve [eauto]
  end.
Ltac solve_stable := repeat stable_step.

Section Stable.
Context `{Host}.
Variable σ0 : store.

Lemma stable_get_type a : valid (length σ0) a → stable σ0 (get_type a).
Proof. intros Ha. unfold get_type. destruct a; simpl in Ha; solve_stable. Qed.

Lemma stable_loose_eq a b :
  valid (length σ0) a → valid (length σ0) b → stable σ0 (loose_eq a b).
Proof.
  intros Ha Hb. unfold loose_eq. destruct a, b; simpl in Ha, Hb; solve_stable.
Qed.

Lemma stable_own_properties a :
  valid (length σ0) a → stable σ0 (own_properties a).
Proof.
  intros Ha. unfold own_properties. destruct a; simpl in Ha; solve_stable.
Qed.

Lemma stable_Object_keys a : valid (length σ0) a → stable σ0 (Object_keys a).
Proof.
  intros Ha. unfold Object_keys. pose proof (stable_own_properties a Ha).
  solve_stable.
Qed.

Lemma stable_get_property a k :
  valid (length σ0) a → stable σ0 (get_property a k).
Proof.
  intros Ha. unfold get_property. pose proof (stable_own_properties a Ha).
  solve_stable.
Qed.

Lemma stable_array_length a : valid (length σ0) a → stable σ0 (array_length a).
Proof. intros Ha. unfold array_length. destruct a; simpl in Ha; solve_stable. Qed.

Lemma stable_array_get a i : valid (length σ0) a → stable σ0 (array_get a i).
Proof. intros Ha. unfold array_get. destruct a; simpl in Ha; solve_stable. Qed.

Lemma stable_map_entries a : valid (length σ0) a → stable σ0 (map_entries a).
Proof. intros Ha. unfold map_entries. destruct a; simpl in Ha; solve_stable. Qed.

Lemma stable_map_size a : valid (length σ0) a → stable σ0 (map_size a).
Proof.
  intros Ha. unfold map_size. pose proof (stable_map_entries a Ha).
  solve_stable.
Qed.

Lemma stable_map_keys a : valid (length σ0) a → stable σ0 (map_keys a).
Proof.
  intros Ha. unfold map_keys. pose proof (stable_map_entries a Ha).
  solve_stable.
Qed.

Lemma stable_map_get a k : valid (length σ0) a → stable σ0 (map_get a k).
Proof.
  intros Ha. unfold map_get. pose proof (stable_map_entries a Ha).
  solve_stable.
Qed.

Lemma stable_set_elements a : valid (length σ0) a → stable σ0 (set_elements a).
Proof. intros Ha. unfold set_elements. destruct a; simpl in Ha; solve_stable. Qed.

Lemma stable_set_size a : valid (length σ0) a → stable σ0 (set_size a).
Proof.
  intros Ha. unfold set_size. pose proof (stable_set_elements a Ha).
  solve_stable.
Qed.

Lemma stable_set_has b x : valid (length σ0) b → stable σ0 (set_has b x).
Proof.
  intros Hb. unfold set_has. pose proof (stable_set_elements b Hb).
  solve_stable.
Qed.

Lemma stable_time_value a : valid (length σ0) a → stable σ0 (time_value a).
Proof. intros Ha. unfold time_value. destruct a; simpl in Ha; solve_stable. Qed.

Lemma stable_regexp_source_flags a :
  valid (length σ0) a → stable σ0 (regexp_source_flags a).
Proof.
  intros Ha. unfold regexp_source_flags. destruct a; simpl in Ha; solve_stable.
Qed.

Lemma stable_error_message a :
  valid (length σ0) a → stable σ0 (error_message a).
Proof. intros Ha. unfold error_message. destruct a; simpl in Ha; solve_stable. Qed.

Lemma stable_isNaN a : stable σ0 (isNaN a).
Proof. unfold isNaN. solve_stable. Qed.
End Stable.

Lemma loose_mixed_sym `{Host} p q : loose_mixed p q = loose_mixed q p.
Proof. destruct p, q; try reflexivity; apply number_eqb_sym. Qed.

Lemma loose_prim_sym `{Host} p q : loose_prim p q = loose_prim q p.
Proof.
  unfold loose_prim.
  rewrite (bool_decide_ext (type_of p = type_of q) (type_of q = type_of p))
    by done.
  rewrite (bool_decide_ext
             (type_of (boolean_to_number p) = type_of (boolean_to_number q))
             (type_of (boolean_to_number q) = type_of (boolean_to_number p)))
    by done.
  by rewrite (strict_prim_sym p q), loose_mixed_sym,
    (strict_prim_sym (boolean_to_number p)).
Qed.

(** [a == b] and [b == a] are the same. *)
Lemma loose_eq_sym `{Host} a b σ : (loose_eq a b σ).1 = (loose_eq b a σ).1.
Proof.
  destruct a as [p|l], b as [q|l']; simpl.
  - by rewrite loose_prim_sym.
  - destruct p; try reflexivity; unfold bind, deref;
      destruct (σ !! l'); try reflexivity; unfold ret;
      rewrite loose_prim_sym; reflexivity.
  - destruct q; try reflexivity; unfold bind, deref;
      destruct (σ !! l); try reflexivity; unfold ret;
      rewrite loose_prim_sym; reflexivity.
  - unfold ret. simpl. f_equal. apply bool_decide_ext. naive_solver.
Qed.

Lemma number_sub_zero_sym x y :
  number_eqb (number_sub x y) (integer 0)
  = number_eqb (number_sub y x) (integer 0).
Proof.
  destruct x as [| | |a], y as [| | |b]; try reflexivity.
  unfold number_sub, number_eqb, integer.
  set (finite := λ n, match n with Finite q => q | _ => Q2Qc 0 end).
  apply bool_decide_ext. split; intros Hz%(f_equal finite); f_equal;
    simpl in Hz.
  - replace (b - a)%Qc with (- (a - b))%Qc by ring. rewrite Hz.
    by apply Qc_is_canon.
  - replace (a - b)%Qc with (- (b - a))%Qc by ring. rewrite Hz.
    by apply Qc_is_canon.
Qed.

(** A loop that answers [false] ran its body to [false] on some
    element. *)
Lemma for_all_false {A} (body : A → M bool) xs σ0 σ :
  σ0 `prefix_of` σ →
  (∀ x, keeps (length σ0) (body x)) →
  (for_all body xs σ).1 = Ok false →
  ∃ x σ', x ∈ xs ∧ σ0 `prefix_of` σ' ∧ (body x σ').1 = Ok false.
Proof.
  intros Hpre Hk. revert σ Hpre.
  induction xs as [|y xs IH]; intros σ Hpre Hall; [done|].
  simpl in Hall. unfold bind in Hall.
  pose proof (keeps_prefix_of _ _ _ (Hk y) Hpre) as Hpre'.
  destruct (body y σ) as [[[]| | |] σ1] eqn:Hy; try done.
  - destruct (IH σ1 Hpre' Hall) as (x & σ' & Hx & Hσ' & Hb).
    exists x, σ'. split; [by right|done].
  - exists y, σ. split; [by left|]. by rewrite Hy.
Qed.

(** Two loops over the same elements, in any order, whose bodies agree
    wherever both return, agree when both return. *)
Lemma for_all_agree {A} (f g : A → M bool) xs ys σ0 σ1 σ2 r r' :
  σ0 `prefix_of` σ1 → σ0 `prefix_of` σ2 →
  (∀ x, keeps (length σ0) (f x)) → (∀ x, keeps (length σ0) (g x)) →
  (∀ x, x ∈ xs ↔ x ∈ ys) →
  (∀ x σ σ' s s', x ∈ xs → σ0 `prefix_of` σ → σ0 `prefix_of` σ' →
     (f x σ).1 = Ok s → (g x σ').1 = Ok s' → s = s') →
  (for_all f xs σ1).1 = Ok r → (for_all g ys σ2).1 = Ok r' → r = r'.
Proof.
  intros H1 H2 Hf Hg Hxy Hfg Hr Hr'. destruct r, r'; try done.
  - destruct (for_all_false _ _ _ _ H2 Hg Hr') as (y & σ' & Hy & Hσ' & Hgy).
    apply Hxy in Hy.
    destruct (for_all_true _ _ _ _ H1 Hf Hr y Hy) as (σ & Hσ & Hfy).
    by apply (Hfg y σ σ').
  - destruct (for_all_false _ _ _ _ H1 Hf Hr) as (x & σ & Hx & Hσ & Hfx).
    destruct (for_all_true _ _ _ _ H2 Hg Hr' x ltac:(by apply Hxy))
      as (σ' & Hσ' & Hgx).
    by apply (Hfg x σ σ').
Qed.

(** ** What a closed store holds is valid *)

Lemma valid_default n (o : option value) :
  (∀ v, o = Some v → valid n v) → valid n (default undefined o).
Proof. destruct o; simpl; auto. Qed.

Lemma assoc_valid {K} `{EqDecision K} n (k : K) (kvs : list (K * value)) :
  Forall (valid n) (kvs.*2) → valid n (default undefined (assoc k kvs)).
Proof.
  intros Hall. apply valid_default. intros v Hv%assoc_Some_elem_of.
  rewrite Forall_forall in Hall. apply Hall.
  apply list_elem_of_fmap. by exists (k, v).
Qed.

Lemma imap_pair_values {A B} (f : nat → A) (xs : list B) :
  (imap (λ i x, (f i, x)) xs).*2 = xs.
Proof.
  revert f. induction xs as [|x xs IH]; intros f; simpl; [done|].
  f_equal. apply (IH (f ∘ S)).
Qed.

Lemma indexed_values xs : (indexed xs).*2 = xs.
Proof. apply imap_pair_values. Qed.

Lemma characters_valid n s : Forall (valid n) (characters s).
Proof. induction s; simpl; constructor; done. Qed.

Section Closed.
Variable σ0 : store.
Hypothesis σ0_closed : closed σ0.

Lemma own_properties_valid a ps :
  (own_properties a σ0).1 = Ok ps → Forall (valid (length σ0)) (ps.*2).
Proof.
  destruct a as [p|l]; simpl.
  - destruct p; simpl; intros [= <-]; try by constructor.
    rewrite indexed_values. apply characters_valid.
  - unfold bind, deref. destruct (σ0 !! l) as [o|] eqn:Hl; [|done].
    simpl. intros [= <-]. specialize (σ0_closed l o Hl).
    unfold values_of, elements_of in *. rewrite Forall_app in σ0_closed.
    destruct σ0_closed as [Hp Hk].
    destruct (kind_of o); try done;
      rewrite fmap_app, indexed_values; by apply Forall_app.
Qed.

Lemma get_property_valid a k v :
  (get_property a k σ0).1 = Ok v → valid (length σ0) v.
Proof.
  unfold get_property, bind. pose proof (own_properties_valid a) as Hv.
  destruct (own_properties a σ0) as [[ps| | |] σ]; try done.
  simpl. intros [= <-]. by apply assoc_valid, Hv.
Qed.

Lemma array_get_valid a i v :
  (array_get a i σ0).1 = Ok v → valid (length σ0) v.
Proof.
  unfold array_get. destruct a as [p|l]; [done|].
  unfold bind, deref. destruct (σ0 !! l) as [o|] eqn:Hl; [|done].
  specialize (σ0_closed l o Hl). unfold values_of, elements_of in *.
  rewrite Forall_app in σ0_closed. destruct σ0_closed as [_ Hk].
  destruct (kind_of o); try done; simpl; intros [= <-];
    apply valid_default; intros v Hv%list_elem_of_lookup_2;
    by rewrite Forall_forall in Hk; apply Hk.
Qed.

Lemma map_entries_valid a es :
  (map_entries a σ0).1 = Ok es →
  Forall (valid (length σ0)) (es.*1) ∧ Forall (valid (length σ0)) (es.*2).
Proof.
  unfold map_entries. destruct a as [p|l]; [done|].
  unfold bind, deref. destruct (σ0 !! l) as [o|] eqn:Hl; [|done].
  specialize (σ0_closed l o Hl). unfold values_of in *.
  rewrite Forall_app in σ0_closed. destruct σ0_closed as [_ Hk].
  destruct (kind_of o); try done. simpl. intros [= <-].
  by apply Forall_app.
Qed.

Lemma map_get_valid a k v :
  (map_get a k σ0).1 = Ok v → valid (length σ0) v.
Proof.
  unfold map_get, bind. pose proof (map_entries_valid a) as Hv.
  destruct (map_entries a σ0) as [[es| | |] σ]; try done.
  simpl. intros [= <-]. apply assoc_valid. by apply (Hv es).
Qed.

Lemma error_message_valid a v :
  (error_message a σ0).1 = Ok v → valid (length σ0) v.
Proof.
  unfold error_message. destruct a as [p|l]; [done|].
  unfold bind, deref. destruct (σ0 !! l) as [o|] eqn:Hl; [|done].
  specialize (σ0_closed l o Hl). unfold values_of in *.
  rewrite Forall_app in σ0_closed. destruct σ0_closed as [_ Hk].
  destruct (kind_of o); try done. simpl. intros [= <-].
  by inversion Hk.
Qed.
End Closed.

Lemma map_size_inv a σ n :
  (map_size a σ).1 = Ok n →
  ∃ l es ps tp, a = Ref l ∧ σ !! l = Some (Obj (KMap es) ps tp) ∧ n = length es.
Proof.
  unfold map_size, map_entries. destruct a as [p|l]; [done|].
  unfold bind, deref. destruct (σ !! l) as [[k ps tp]|] eqn:Hl; [|done].
  destruct k; try done. simpl. intros [= <-]. by exists l, entries, ps, tp.
Qed.

Lemma set_size_inv a σ n :
  (set_size a σ).1 = Ok n →
  ∃ l xs ps tp, a = Ref l ∧ σ !! l = Some (Obj (KSet xs) ps tp) ∧ n = length xs.
Proof.
  unfold set_size, set_elements. destruct a as [p|l]; [done|].
  unfold bind, deref. destruct (σ !! l) as [[k ps tp]|] eqn:Hl; [|done].
  destruct k; try done. simpl. intros [= <-]. by exists l, elems, ps, tp.
Qed.

Lemma Map_sizes_differ `{Host} cfg rec la lb σ ea eb pa ta pb tb :
  σ !! la = Some (Obj (KMap ea) pa ta) →
  σ !! lb = Some (Obj (KMap eb) pb tb) →
  length ea ≠ length eb →
  Map cfg rec (Ref la) (Ref lb) σ = (Ok false, σ).
Proof.
  intros Ha Hb Hlen. unfold Map.
  rewrite (bind_Ok _ _ _ _ _ (map_size_eval _ _ _ _ _ Ha)).
  rewrite (bind_Ok _ _ _ _ _ (map_size_eval _ _ _ _ _ Hb)).
  apply Nat.eqb_neq in Hlen. by rewrite Hlen.
Qed.

(** [indexOf] finds every value of the list but [NaN]. *)
Lemma indexOf_elem_of ys x :
  x ∈ ys → x ≠ Prim (PNumber NaN) → is_Some (indexOf ys x).
Proof.
  intros Hin Hx. induction ys as [|y ys IH]; [by apply elem_of_nil in Hin|].
  simpl. destruct (strict_eq y x) eqn:Hyx; [by eexists|].
  apply elem_of_cons in Hin as [->|Hin].
  - by rewrite strict_eq_refl in Hyx.
  - destruct (IH Hin) as [i ->]. by eexists.
Qed.

Lemma consume_complete xs ys :
  xs ≡ₚ ys → Prim (PNumber NaN) ∉ xs → (consume xs ys).1 = true.
Proof.
  revert ys. induction xs as [|x xs IH]; intros ys Hp Hn; simpl; [done|].
  apply not_elem_of_cons in Hn as [Hx Hn].
  destruct (indexOf_elem_of ys x) as [i Hi]; [by rewrite <-Hp; left|done|].
  rewrite Hi. apply IH; [|done]. apply indexOf_Some in Hi.
  apply (Permutation_cons_inv (a := x)).
  by rewrite Hp, <-(delete_Permutation _ _ _ Hi).
Qed.

(** On lists of the same length [consume] does not depend on which
    one is consumed. *)
Lemma consume_sym xs ys :
  length xs = length ys → (consume xs ys).1 = (consume ys xs).1.
Proof.
  intros Hlen.
  assert (∀ xs ys, length xs = length ys →
            (consume xs ys).1 = true → (consume ys xs).1 = true) as Himp.
  { clear. intros xs ys Hlen Hc.
    pose proof (consume_true _ _ Hlen Hc) as Hp.
    apply consume_complete; [done|]. intros Hn.
    rewrite <-Hp in Hn. by rewrite consume_NaN in Hc. }
  destruct (consume xs ys).1 eqn:Hxy, (consume ys xs).1 eqn:Hyx; try done.
  - by rewrite (Himp xs ys) in Hyx.
  - by rewrite (Himp ys xs) in Hxy.
Qed.

(** Between two lists without repetition and of the same length,
    inclusion goes both ways. *)
Lemma forallb_elem_of_sym (xs ys : list value) :
  NoDup xs → NoDup ys → length xs = length ys →
  forallb (λ x, bool_decide (x ∈ ys)) xs =
    forallb (λ y, bool_decide (y ∈ xs)) ys.
Proof.
  assert (∀ xs ys : list value, NoDup xs → length xs = length ys →
            forallb (λ x, bool_decide (x ∈ ys)) xs = true →
            forallb (λ y, bool_decide (y ∈ xs)) ys = true) as Himp.
  { clear. intros xs ys Hnd Hlen Hsub. rewrite forallb_forall in Hsub.
    assert (xs ≡ₚ ys) as Hp.
    { apply submseteq_length_Permutation; [|lia].
      apply NoDup_submseteq; [done|]. intros x Hx%list_elem_of_In.
      specialize (Hsub x Hx). by apply bool_decide_eq_true_1 in Hsub. }
    apply forallb_forall. intros y Hy%list_elem_of_In.
    apply bool_decide_eq_true_2. by rewrite Hp. }
  intros Hx Hy Hlen.
  destruct (forallb _ xs) eqn:Hxy, (forallb _ ys) eqn:Hyx; try done.
  - by rewrite (Himp xs ys) in Hyx.
  - by rewrite (Himp ys xs) in Hxy.
Qed.

Section Agree.
Context `{Host}.
Variable cfg : config.
Variable σ0 : store.
Hypothesis σ0_closed : closed σ0.
Hypothesis σ0_sets : sets_distinct σ0.
Variables rec1 rec2 : value → value → M bool.
Hypothesis rec_agree : agree σ0 rec1 rec2.
Hypothesis keeps_rec1 : ∀ n a b, keeps n (rec1 a b).
Hypothesis keeps_rec2 : ∀ n a b, keeps n (rec2 a b).

Lemma Object_agree a b σ1 σ2 r r' :
  valid (length σ0) a → valid (length σ0) b →
  σ0 `prefix_of` σ1 → σ0 `prefix_of` σ2 →
  (Object rec1 a b σ1).1 = Ok r → (Object rec2 b a σ2).1 = Ok r' → r = r'.
Proof.
  intros Ha Hb H1 H2 Hr Hr'. unfold Object in Hr, Hr'.
  apply (bind_stable_inv σ0) in Hr as (ka & Hka & Hr);
    [|by apply stable_Object_keys|done].
  apply (bind_stable_inv σ0) in Hr as (kb & Hkb & Hr);
    [|by apply stable_Object_keys|done].
  apply (bind_stable_inv σ0) in Hr' as (kb' & Hkb' & Hr');
    [|by apply stable_Object_keys|done].
  apply (bind_stable_inv σ0) in Hr' as (ka' & Hka' & Hr');
    [|by apply stable_Object_keys|done].
  assert (ka' = ka) as -> by congruence.
  assert (kb' = kb) as -> by congruence.
  cbv zeta in Hr, Hr'. rewrite sorted_identical_eq in Hr, Hr'.
  destruct (decide (sort ka = sort kb)) as [Heq|Hne].
  - rewrite bool_decide_eq_true_2 in Hr by done.
    rewrite bool_decide_eq_true_2 in Hr' by by symmetry.
    cbn [negb] in Hr, Hr'.
    rewrite Heq in Hr.
    revert Hr Hr'. apply (for_all_agree _ _ _ _ σ0); [done|done| | |done|].
    + intros k. solve_keeps;
        first [apply keeps_rec1 | apply reads_keeps, reads_get_property].
    + intros k. solve_keeps;
        first [apply keeps_rec2 | apply reads_keeps, reads_get_property].
    + intros k σ σ' s s' _ Hσ Hσ' Hs Hs'.
      apply (bind_stable_inv σ0) in Hs as (x & Hx & Hs);
        [|by apply stable_get_property|done].
      apply (bind_stable_inv σ0) in Hs as (y & Hy & Hs);
        [|by apply stable_get_property|done].
      apply (bind_stable_inv σ0) in Hs' as (y' & Hy' & Hs');
        [|by apply stable_get_property|done].
      apply (bind_stable_inv σ0) in Hs' as (x' & Hx' & Hs');
        [|by apply stable_get_property|done].
      assert (x' = x) as -> by congruence.
      assert (y' = y) as -> by congruence.
      apply (rec_agree x y σ σ'); eauto using get_property_valid.
  - rewrite bool_decide_eq_false_2 in Hr by done.
    rewrite bool_decide_eq_false_2 in Hr' by by intros ?; apply Hne.
    cbn in Hr, Hr'. congruence.
Qed.

Lemma Array_agree a b σ1 σ2 r r' :
  valid (length σ0) a → valid (length σ0) b →
  σ0 `prefix_of` σ1 → σ0 `prefix_of` σ2 →
  (Array cfg rec1 a b σ1).1 = Ok r → (Array cfg rec2 b a σ2).1 = Ok r' →
  r = r'.
Proof.
  intros Ha Hb H1 H2 Hr Hr'. unfold Array in Hr, Hr'.
  apply (bind_stable_inv σ0) in Hr as (n & Hn & Hr);
    [|by apply stable_array_length|done].
  apply (bind_stable_inv σ0) in Hr as (m & Hm & Hr);
    [|by apply stable_array_length|done].
  apply (bind_stable_inv σ0) in Hr' as (m' & Hm' & Hr');
    [|by apply stable_array_length|done].
  apply (bind_stable_inv σ0) in Hr' as (n' & Hn' & Hr');
    [|by apply stable_array_length|done].
  assert (n' = n) as -> by congruence.
  assert (m' = m) as -> by congruence.
  rewrite (Nat.eqb_sym m n) in Hr'.
  destruct (n =? m) eqn:Hnm; cbn [negb] in Hr, Hr'.
  2: { cbn in Hr, Hr'. congruence. }
  apply Nat.eqb_eq in Hnm as ->.
  destruct (check_all_properties cfg);
    [exact (Object_agree a b σ1 σ2 r r' Ha Hb H1 H2 Hr Hr')|].
  revert Hr Hr'. apply (for_all_agree _ _ _ _ σ0); [done|done| | |done|].
  - intros k. solve_keeps;
      first [apply keeps_rec1 | apply reads_keeps, reads_array_get].
  - intros k. solve_keeps;
      first [apply keeps_rec2 | apply reads_keeps, reads_array_get].
  - intros k σ σ' s s' _ Hσ Hσ' Hs Hs'.
    apply (bind_stable_inv σ0) in Hs as (x & Hx & Hs);
      [|by apply stable_array_get|done].
    apply (bind_stable_inv σ0) in Hs as (y & Hy & Hs);
      [|by apply stable_array_get|done].
    apply (bind_stable_inv σ0) in Hs' as (y' & Hy' & Hs');
      [|by apply stable_array_get|done].
    apply (bind_stable_inv σ0) in Hs' as (x' & Hx' & Hs');
      [|by apply stable_array_get|done].
    assert (x' = x) as -> by congruence.
    assert (y' = y) as -> by congruence.
    apply (rec_agree x y σ σ'); eauto using array_get_valid.
Qed.

Lemma Map_agree a b σ1 σ2 r r' :
  valid (length σ0) a → valid (length σ0) b →
  σ0 `prefix_of` σ1 → σ0 `prefix_of` σ2 →
  (Map cfg rec1 a b σ1).1 = Ok r → (Map cfg rec2 b a σ2).1 = Ok r' → r = r'.
Proof.
  intros Ha Hb H1 H2 Hr Hr'.
  assert (∃ la ea pa ta, a = Ref la ∧ σ0 !! la = Some (Obj (KMap ea) pa ta))
    as (la & ea & pa & ta & -> & Hla).
  { unfold Map in Hr.
    apply (bind_stable_inv σ0) in Hr as (n & (l & es & ps & tp & ? & ? & ?)%map_size_inv & _);
      [naive_solver|by apply stable_map_size|done]. }
  assert (∃ lb eb pb tb, b = Ref lb ∧ σ0 !! lb = Some (Obj (KMap eb) pb tb))
    as (lb & eb & pb & tb & -> & Hlb).
  { unfold Map in Hr'.
    apply (bind_stable_inv σ0) in Hr' as (n & (l & es & ps & tp & ? & ? & ?)%map_size_inv & _);
      [naive_solver|by apply stable_map_size|done]. }
  pose proof (prefix_lookup_Some _ _ _ _ Hla H1) as Hla1.
  pose proof (prefix_lookup_Some _ _ _ _ Hlb H1) as Hlb1.
  pose proof (prefix_lookup_Some _ _ _ _ Hla H2) as Hla2.
  pose proof (prefix_lookup_Some _ _ _ _ Hlb H2) as Hlb2.
  destruct (decide (length ea = length eb)) as [Hlen|Hlen].
  2: { rewrite (Map_sizes_differ _ _ _ _ _ _ _ _ _ _ _ Hla1 Hlb1) in Hr by done.
       rewrite (Map_sizes_differ _ _ _ _ _ _ _ _ _ _ _ Hlb2 Hla2) in Hr' by done.
       simpl in *. congruence. }
  rewrite (Map_run _ _ _ _ _ _ _ _ _ _ _ Hla1 Hlb1 Hlen) in Hr by done.
  rewrite (Map_run _ _ _ _ _ _ _ _ _ _ _ Hlb2 Hla2 (eq_sym Hlen)) in Hr' by done.
  apply bind_Ok_inv in Hr as (e & σ1' & He & Hr).
  apply bind_Ok_inv in Hr' as (e' & σ2' & He' & Hr').
  assert (σ0 `prefix_of` σ1') as H1'.
  { replace σ1' with
      ((if check_all_properties cfg then Object rec1 (Ref la) (Ref lb)
        else ret true) σ1).2 by by rewrite He.
    apply keeps_prefix_of; [|done].
    destruct (check_all_properties cfg);
      [by apply keeps_Object|apply reads_keeps, reads_ret]. }
  assert (σ0 `prefix_of` σ2') as H2'.
  { replace σ2' with
      ((if check_all_properties cfg then Object rec2 (Ref lb) (Ref la)
        else ret true) σ2).2 by by rewrite He'.
    apply keeps_prefix_of; [|done].
    destruct (check_all_properties cfg);
      [by apply keeps_Object|apply reads_keeps, reads_ret]. }
  assert (e' = e) as ->.
  { destruct (check_all_properties cfg).
    - symmetry. apply (Object_agree (Ref la) (Ref lb) σ1 σ2); try done.
      + by rewrite He.
      + by rewrite He'.
    - unfold ret in He, He'. congruence. }
  destruct e; cbn [negb] in Hr, Hr'; [|simpl in *; congruence].
  rewrite (consume_sym (eb.*1) (ea.*1)) in Hr' by by rewrite !length_fmap.
  destruct (consume (ea.*1) (eb.*1)).1 eqn:Hc; [|simpl in *; congruence].
  assert (ea.*1 ≡ₚ eb.*1) as Hp.
  { apply consume_true; [by rewrite !length_fmap|done]. }
  revert Hr Hr'. apply (for_all_agree _ _ _ _ σ0).
  - by apply prefix_app_r.
  - by apply prefix_app_r.
  - intros k. solve_keeps;
      first [apply keeps_rec1 | apply reads_keeps, reads_map_get].
  - intros k. solve_keeps;
      first [apply keeps_rec2 | apply reads_keeps, reads_map_get].
  - intros k. by rewrite Hp.
  - intros k σ σ' s s' _ Hσ Hσ' Hs Hs'.
    apply (bind_stable_inv σ0) in Hs as (x & Hx & Hs);
      [|by apply stable_map_get|done].
    apply (bind_stable_inv σ0) in Hs as (y & Hy & Hs);
      [|by apply stable_map_get|done].
    apply (bind_stable_inv σ0) in Hs' as (y' & Hy' & Hs');
      [|by apply stable_map_get|done].
    apply (bind_stable_inv σ0) in Hs' as (x' & Hx' & Hs');
      [|by apply stable_map_get|done].
    assert (x' = x) as -> by congruence.
    assert (y' = y) as -> by congruence.
    apply (rec_agree x y σ σ'); eauto using map_get_valid.
Qed.

Lemma Set_agree a b σ1 σ2 r r' :
  valid (length σ0) a → valid (length σ0) b →
  σ0 `prefix_of` σ1 → σ0 `prefix_of` σ2 →
  (Set_ cfg rec1 a b σ1).1 = Ok r → (Set_ cfg rec2 b a σ2).1 = Ok r' → r = r'.
Proof.
  intros Ha Hb H1 H2 Hr Hr'. unfold Set_ in Hr, Hr'.
  apply (bind_stable_inv σ0) in Hr as (n & Hn & Hr);
    [|by apply stable_set_size|done].
  apply (bind_stable_inv σ0) in Hr as (m & Hm & Hr);
    [|by apply stable_set_size|done].
  apply (bind_stable_inv σ0) in Hr' as (m' & Hm' & Hr');
    [|by apply stable_set_size|done].
  apply (bind_stable_inv σ0) in Hr' as (n' & Hn' & Hr');
    [|by apply stable_set_size|done].
  assert (n' = n) as -> by congruence.
  assert (m' = m) as -> by congruence.
  apply set_size_inv in Hn as (la & xa & pa & ta & -> & Hla & ->).
  apply set_size_inv in Hm as (lb & xb & pb & tb & -> & Hlb & ->).
  rewrite (Nat.eqb_sym (length xb)) in Hr'.
  destruct (length xa =? length xb) eqn:Hlen; cbn [negb] in Hr, Hr'.
  2: { cbn in Hr, Hr'. congruence. }
  apply Nat.eqb_eq in Hlen.
  apply bind_Ok_inv in Hr as (e & σ1' & He & Hr).
  apply bind_Ok_inv in Hr' as (e' & σ2' & He' & Hr').
  assert (σ0 `prefix_of` σ1') as H1'.
  { replace σ1' with
      ((if check_all_properties cfg then Object rec1 (Ref la) (Ref lb)
        else ret true) σ1).2 by by rewrite He.
    apply keeps_prefix_of; [|done].
    destruct (check_all_properties cfg);
      [by apply keeps_Object|apply reads_keeps, reads_ret]. }
  assert (σ0 `prefix_of` σ2') as H2'.
  { replace σ2' with
      ((if check_all_properties cfg then Object rec2 (Ref lb) (Ref la)
        else ret true) σ2).2 by by rewrite He'.
    apply keeps_prefix_of; [|done].
    destruct (check_all_properties cfg);
      [by apply keeps_Object|apply reads_keeps, reads_ret]. }
  assert (e' = e) as ->.
  { destruct (check_all_properties cfg).
    - symmetry. apply (Object_agree (Ref la) (Ref lb) σ1 σ2); try done.
      + by rewrite He.
      + by rewrite He'.
    - unfold ret in He, He'. congruence. }
  destruct e; cbn [negb] in Hr, Hr'; [|simpl in *; congruence].
  pose proof (prefix_lookup_Some _ _ _ _ Hla H1') as Hla1.
  pose proof (prefix_lookup_Some _ _ _ _ Hlb H1') as Hlb1.
  pose proof (prefix_lookup_Some _ _ _ _ Hla H2') as Hla2.
  pose proof (prefix_lookup_Some _ _ _ _ Hlb H2') as Hlb2.
  rewrite (bind_Ok _ _ _ _ _ (set_elements_eval _ _ _ _ _ Hla1)) in Hr.
  rewrite (bind_Ok _ _ _ _ _ (set_elements_eval _ _ _ _ _ Hlb2)) in Hr'.
  rewrite (for_all_set_has _ _ _ _ _ _ Hlb1) in Hr.
  rewrite (for_all_set_has _ _ _ _ _ _ Hla2) in Hr'.
  simpl in Hr, Hr'.
  rewrite (forallb_elem_of_sym xa xb) in Hr; [congruence| | |done].
  - by apply (σ0_sets la _ xa Hla).
  - by apply (σ0_sets lb _ xb Hlb).
Qed.

Lemma Number_agree a b σ1 σ2 r r' :
  (Number a b σ1).1 = Ok r → (Number b a σ2).1 = Ok r' → r = r'.
Proof.
  unfold Number, isNaN, bind, ret.
  destruct a as [[| | |x| | |]|], b as [[| | |y| | |]|]; try discriminate.
  destruct x, y; simpl; congruence.
Qed.

Lemma Date_agree a b σ1 σ2 r r' :
  valid (length σ0) a → valid (length σ0) b →
  σ0 `prefix_of` σ1 → σ0 `prefix_of` σ2 →
  (Date a b σ1).1 = Ok r → (Date b a σ2).1 = Ok r' → r = r'.
Proof.
  intros Ha Hb H1 H2 Hr Hr'. unfold Date in Hr, Hr'.
  apply (bind_stable_inv σ0) in Hr as (x & Hx & Hr);
    [|by apply stable_time_value|done].
  apply (bind_stable_inv σ0) in Hr as (y & Hy & Hr);
    [|by apply stable_time_value|done].
  apply (bind_stable_inv σ0) in Hr' as (y' & Hy' & Hr');
    [|by apply stable_time_value|done].
  apply (bind_stable_inv σ0) in Hr' as (x' & Hx' & Hr');
    [|by apply stable_time_value|done].
  assert (x' = x) as -> by congruence.
  assert (y' = y) as -> by congruence.
  unfold ret in Hr, Hr'. simpl in Hr, Hr'.
  rewrite number_sub_zero_sym in Hr. congruence.
Qed.

Lemma RegExp_agree a b σ1 σ2 r r' :
  valid (length σ0) a → valid (length σ0) b →
  σ0 `prefix_of` σ1 → σ0 `prefix_of` σ2 →
  (RegExp a b σ1).1 = Ok r → (RegExp b a σ2).1 = Ok r' → r = r'.
Proof.
  intros Ha Hb H1 H2 Hr Hr'. unfold RegExp in Hr, Hr'.
  apply (bind_stable_inv σ0) in Hr as (x & Hx & Hr);
    [|by apply stable_regexp_source_flags|done].
  apply (bind_stable_inv σ0) in Hr as (y & Hy & Hr);
    [|by apply stable_regexp_source_flags|done].
  apply (bind_stable_inv σ0) in Hr' as (y' & Hy' & Hr');
    [|by apply stable_regexp_source_flags|done].
  apply (bind_stable_inv σ0) in Hr' as (x' & Hx' & Hr');
    [|by apply stable_regexp_source_flags|done].
  assert (x' = x) as -> by congruence.
  assert (y' = y) as -> by congruence.
  unfold ret in Hr, Hr'. simpl in Hr, Hr'.
  rewrite (String.eqb_sym x.1), (String.eqb_sym x.2) in Hr. congruence.
Qed.

Lemma Error_agree a b σ1 σ2 r r' :
  valid (length σ0) a → valid (length σ0) b →
  σ0 `prefix_of` σ1 → σ0 `prefix_of` σ2 →
  (Error a b σ1).1 = Ok r → (Error b a σ2).1 = Ok r' → r = r'.
Proof.
  intros Ha Hb H1 H2 Hr Hr'. unfold Error in Hr, Hr'.
  apply (bind_stable_inv σ0) in Hr as (x & Hx & Hr);
    [|by apply stable_error_message|done].
  apply (bind_stable_inv σ0) in Hr as (y & Hy & Hr);
    [|by apply stable_error_message|done].
  apply (bind_stable_inv σ0) in Hr' as (y' & Hy' & Hr');
    [|by apply stable_error_message|done].
  apply (bind_stable_inv σ0) in Hr' as (x' & Hx' & Hr');
    [|by apply stable_error_message|done].
  assert (x' = x) as -> by congruence.
  assert (y' = y) as -> by congruence.
  assert (valid (length σ0) x) as Hvx by eauto using error_message_valid.
  assert (valid (length σ0) y) as Hvy by eauto using error_message_valid.
  rewrite (stable_loose_eq σ0 x y Hvx Hvy σ1 H1) in Hr.
  rewrite (stable_loose_eq σ0 y x Hvy Hvx σ2 H2) in Hr'.
  simpl in Hr, Hr'. rewrite loose_eq_sym in Hr. congruence.
Qed.

Lemma run_test_agree t a b σ1 σ2 r r' :
  valid (length σ0) a → valid (length σ0) b →
  σ0 `prefix_of` σ1 → σ0 `prefix_of` σ2 →
  (run_test cfg rec1 t a b σ1).1 = Ok r →
  (run_test cfg rec2 t b a σ2).1 = Ok r' → r = r'.
Proof.
  intros Ha Hb H1 H2. destruct t; simpl.
  - apply Number_agree.
  - unfold String_, ret. simpl. congruence.
  - by apply Date_agree.
  - by apply RegExp_agree.
  - by apply Array_agree.
  - by apply Object_agree.
  - by apply Map_agree.
  - by apply Set_agree.
  - unfold Symbol, ret. simpl. rewrite (strict_eq_sym b a). congruence.
  - unfold Function, ret. simpl. rewrite (strict_eq_sym b a). congruence.
  - by apply Error_agree.
Qed.

Lemma equal_body_agree : agree σ0 (equal_body cfg rec1) (equal_body cfg rec2).
Proof.
  intros a b σ1 σ2 r r' Ha Hb H1 H2 Hr Hr'. unfold equal_body in Hr, Hr'.
  rewrite (strict_eq_sym b a) in Hr'.
  destruct (strict_eq a b); [unfold ret in *; simpl in *; congruence|].
  apply (bind_stable_inv σ0) in Hr as (ca & Hca & Hr);
    [|by apply stable_get_type|done].
  apply (bind_stable_inv σ0) in Hr as (cb & Hcb & Hr);
    [|by apply stable_get_type|done].
  apply (bind_stable_inv σ0) in Hr as (e & He & Hr);
    [|by apply stable_loose_eq|done].
  apply (bind_stable_inv σ0) in Hr' as (cb' & Hcb' & Hr');
    [|by apply stable_get_type|done].
  apply (bind_stable_inv σ0) in Hr' as (ca' & Hca' & Hr');
    [|by apply stable_get_type|done].
  apply (bind_stable_inv σ0) in Hr' as (e' & He' & Hr');
    [|by apply stable_loose_eq|done].
  assert (ca' = ca) as -> by congruence.
  assert (cb' = cb) as -> by congruence.
  assert (e' = e) as -> by (rewrite loose_eq_sym in He'; congruence).
  rewrite (String.eqb_sym cb ca) in Hr'.
  rewrite (andb_comm (negb (cb =? "String")%string)) in Hr'.
  destruct (e && _); [unfold ret in *; simpl in *; congruence|].
  destruct (String.eqb_spec ca cb) as [<-|Hne]; cbn [negb] in Hr, Hr';
    [|unfold ret in *; simpl in *; congruence].
  destruct (equal_test !! ca) as [t|].
  - by apply (run_test_agree t a b σ1 σ2).
  - destruct (bool_decide (ca ∈ inherited_names)); [done|].
    by apply (Object_agree a b σ1 σ2).
Qed.
End Agree.

Lemma equal_agree `{Host} cfg σ0 n m :
  closed σ0 → sets_distinct σ0 → agree σ0 (equal cfg n) (equal cfg m).
Proof.
  intros Hclosed Hsets. revert m.
  induction n as [|n IH]; intros [|m]; try by intros a b σ1 σ2 r r' ? ? ? ?.
  apply equal_body_agree; try done.
  - intros k a b. apply keeps_equal.
  - intros k a b. apply keeps_equal.
Qed.

(** Whenever [equal(a, b)] and [equal(b, a)] both return, they return
    the same boolean, on values of a store whose references point into
    it and whose sets hold no element twice. *)
Lemma equal_sym_when_both_return `{Host} cfg n m σ a b r r' :
  closed σ → sets_distinct σ →
  valid (length σ) a → valid (length σ) b →
  (equal cfg n a b σ).1 = Ok r → (equal cfg m b a σ).1 = Ok r' → r = r'.
Proof.
  intros Hclosed Hsets Ha Hb. by apply (equal_agree cfg σ n m).
Qed.

Lemma string_keys_store_closed :
  closed string_keys_store ∧ sets_distinct string_keys_store.
Proof.
  split.
  - intros l o Hl.
    destruct l as [|[|l]]; simpl in Hl; simplify_eq; cbn; repeat constructor.
  - intros l o xs Hl Hk. by destruct l as [|[|l]]; simpl in Hl; simplify_eq.
Qed.

(** The two maps of [string_keys_store] compare equal both ways. *)
Example equal_sym_string_keys r r' :
  (@equal decimal_host default_config 2 (Ref 0) (Ref 1) string_keys_store).1
    = Ok r →
  (@equal decimal_host default_config 2 (Ref 1) (Ref 0) string_keys_store).1
    = Ok r' →
  r = r' ∧ r = true.
Proof.
  intros Hr Hr'. split.
  - destruct string_keys_store_closed as [Hclosed Hsets].
    assert (valid (length string_keys_store) (Ref 0)) as H0.
    { unfold string_keys_store. simpl. lia. }
    assert (valid (length string_keys_store) (Ref 1)) as H1.
    { unfold string_keys_store. simpl. lia. }
    exact (equal_sym_when_both_return _ _ _ _ _ _ _ _ Hclosed Hsets H0 H1
             Hr Hr').
  - vm_compute in Hr. congruence.
Qed.

(** C8: [equal(a, b)] throws where [equal(b, a)] returns [false], for
    [a = new Map([["x", null], ["y", 1]])] and
    [b = new Map([["y", 2], ["x", 0]])]: the values are compared in the
    order of the keys of the first argument, and comparing [null] with
    [0] throws. *)
Theorem equal_not_symmetric_on_null :
  (@equal decimal_host default_config 2 (Ref 0) (Ref 1) null_values_store).1
    = TypeError ∧
  (@equal decimal_host default_config 2 (Ref 1) (Ref 0) null_values_store).1
    = Ok false ∧
  ∀ fuel,
    (@equal decimal_host default_config (2 + fuel) (Ref 0) (Ref 1)
       null_values_store).1 = TypeError ∧
    (@equal decimal_host default_config (2 + fuel) (Ref 1) (Ref 0)
       null_values_store).1 = Ok false.
Proof.
  split_and!; [by vm_compute|by vm_compute|].
  intros fuel. split; by vm_compute.
Qed.

(** ** The test table of the script

    Each row of [values] evaluates to the result the script expects
    ([true] where the row gives none). *)

Example test_arrays :
  equal_on_table (Ref 0) (Ref 1) = Ok true ∧ equal_on_table (Ref 0) (Ref 2) = Ok false.
Proof. by vm_compute. Qed.

Example test_objects :
  equal_on_table (Ref 5) (Ref 8) = Ok true ∧ equal_on_table (Ref 5) (Ref 9) = Ok true ∧
  equal_on_table (Ref 10) (Ref 11) = Ok true ∧ equal_on_table (Ref 10) (Ref 12) = Ok false.
Proof. by vm_compute. Qed.

Example test_maps :
  equal_on_table (Ref 13) (Ref 14) = Ok true ∧ equal_on_table (Ref 15) (Ref 16) = Ok false ∧
  equal_on_table (Ref 17) (Ref 18) = Ok false.
Proof. by vm_compute. Qed.

Example test_sets :
  equal_on_table (Ref 19) (Ref 20) = Ok true ∧ equal_on_table (Ref 21) (Ref 22) = Ok false ∧
  equal_on_table (Ref 26) (Ref 27) = Ok false ∧ equal_on_table (Ref 28) (Ref 29) = Ok false.
Proof. by vm_compute. Qed.

Example test_nested :
  equal_on_table (Ref 30) (Ref 31) = Ok true ∧ equal_on_table (Ref 34) (Ref 37) = Ok true.
Proof. by vm_compute. Qed.

Example test_primitives :
  equal_on_table (num 3) (num 3) = Ok true ∧
  equal_on_table (str "beep") (str "beep") = Ok true ∧
  equal_on_table (num 3) (str "3") = Ok true ∧
  equal_on_table (num 3) (bigint 3) = Ok true ∧
  equal_on_table (Prim (PNumber NaN)) (Prim (PNumber NaN)) = Ok true ∧
  equal_on_table (Prim (PNumber PosInfinity)) (Prim (PNumber PosInfinity)) = Ok true ∧
  equal_on_table (Prim (PNumber PosInfinity)) (Prim (PNumber NegInfinity)) = Ok false.
Proof. by vm_compute. Qed.

Example test_dates_classes_errors :
  equal_on_table (Ref 38) (Ref 39) = Ok true ∧
  equal_on_table (Ref 40) (Ref 41) = Ok true ∧ equal_on_table (Ref 40) (Ref 23) = Ok false ∧
  equal_on_table (Ref 42) (Ref 40) = Ok false ∧
  equal_on_table (Ref 43) (Ref 44) = Ok true ∧ equal_on_table (Ref 43) (Ref 45) = Ok false.
Proof. by vm_compute. Qed.

(** No test is registered for booleans and big integers either: two
    different ones go to the [Object] test, which finds no property on
    either side. *)
Example equal_true_false :
  equal_on_table (Prim (PBoolean true)) (Prim (PBoolean false)) = Ok true ∧
  equal_on_table (bigint 1) (bigint 2) = Ok true.
Proof. by vm_compute. Qed.

(** ** Values of one kind *)

(** Two different references that are compared reach the test
    registered under their common constructor name. *)
Lemma equal_Refs_dispatch `{Host} cfg fuel σ la lb oa ob t :
  la ≠ lb →
  σ !! la = Some oa → σ !! lb = Some ob →
  constructor_name (kind_of oa) = constructor_name (kind_of ob) →
  equal_test !! constructor_name (kind_of oa) = Some t →
  equal cfg (S fuel) (Ref la) (Ref lb) σ =
    run_test cfg (equal cfg fuel) t (Ref la) (Ref lb) σ.
Proof.
  intros Hne Ha Hb Hc Ht. rewrite equal_unfold.
  apply (equal_body_dispatch _ _ _ _ _ (constructor_name (kind_of oa))).
  - simpl. by rewrite bool_decide_eq_false_2.
  - by rewrite (get_type_Ref _ _ _ Ha).
  - by rewrite (get_type_Ref _ _ _ Hb), Hc.
  - unfold loose_eq, ret. by rewrite bool_decide_eq_false_2.
  - done.
Qed.

(** X1: [equal(a, a)] is [true] for every value [a]: [NaN], [null],
    [undefined] and an object that contains itself included.  Nothing
    is read but the value itself, and the store is left as it is. *)
Theorem equal_reflexive `{Host} cfg fuel a σ :
  equal cfg (S fuel) a a σ = (Ok true, σ).
Proof. apply equal_refl. Qed.

(** X2: two values with different constructor names are compared by
    [==] alone: [equal] returns [a == b] when neither is a [String] or
    [allow_type_coercion] is on, and [false] otherwise.  No test of
    [equal_test] is run and there is no recursion. *)
Theorem equal_different_constructors `{Host} cfg fuel σ a b ca cb :
  (get_type a σ).1 = Ok ca →
  (get_type b σ).1 = Ok cb →
  ca ≠ cb →
  ∃ e, (loose_eq a b σ).1 = Ok e ∧
       equal cfg (S fuel) a b σ =
         (Ok (e && (allow_type_coercion cfg
                    || (negb (String.eqb ca "String")
                        && negb (String.eqb cb "String")))), σ).
Proof.
  intros Ha Hb Hne.
  destruct (loose_eq_total a b σ ca cb Ha Hb) as [e He].
  exists e. split; [by rewrite He|].
  apply get_type_reads in Ha, Hb.
  assert (strict_eq a b = false) as Hs.
  { destruct (strict_eq a b) eqn:Hs; [|done].
    apply strict_eq_true in Hs as ->. congruence. }
  rewrite equal_unfold, (equal_body_reads _ _ _ _ _ _ _ _ Hs Ha Hb He).
  apply String.eqb_neq in Hne as ->. rewrite orb_false_r. cbn [negb].
  by destruct (e && _).
Qed.

Lemma equal_different_constructors_witness :
  ∃ e, (@loose_eq decimal_host (Ref 4) (num 4) test_table_store).1 = Ok e ∧
       @equal decimal_host default_config 1 (Ref 4) (num 4) test_table_store =
         (Ok (e && (allow_type_coercion default_config
                    || (negb (String.eqb "Array" "String")
                        && negb (String.eqb "Number" "String")))),
          test_table_store).
Proof.
  apply (@equal_different_constructors decimal_host default_config 0
           test_table_store (Ref 4) (num 4) "Array" "Number");
    [reflexivity|reflexivity|discriminate].
Defined.

(** The array [[4]] and the number [4] compare equal, with or without
    [allow_type_coercion]. *)
Example equal_array_number :
  (@equal decimal_host default_config 1 (Ref 4) (num 4) test_table_store).1
    = Ok true ∧
  (@equal decimal_host (Config false false) 1 (Ref 4) (num 4)
     test_table_store).1 = Ok true.
Proof. by vm_compute. Qed.

(** X3: two different objects whose constructors have different names
    are never equal, whatever they hold. *)
Theorem equal_objects_of_different_constructors
    `{Host} cfg fuel σ la lb oa ob :
  la ≠ lb →
  σ !! la = Some oa → σ !! lb = Some ob →
  constructor_name (kind_of oa) ≠ constructor_name (kind_of ob) →
  equal cfg (S fuel) (Ref la) (Ref lb) σ = (Ok false, σ).
Proof.
  intros Hne Ha Hb Hc. rewrite equal_unfold.
  rewrite (equal_body_reads _ _ _ _ _ (constructor_name (kind_of oa))
             (constructor_name (kind_of ob)) false).
  - apply String.eqb_neq in Hc as ->. done.
  - simpl. by rewrite bool_decide_eq_false_2.
  - by rewrite (get_type_Ref _ _ _ Ha).
  - by rewrite (get_type_Ref _ _ _ Hb).
  - unfold loose_eq, ret. by rewrite bool_decide_eq_false_2.
Qed.

Lemma equal_objects_of_different_constructors_witness :
  @equal decimal_host default_config 1 (Ref 28) (Ref 29) test_table_store =
    (Ok false, test_table_store).
Proof.
  apply (@equal_objects_of_different_constructors decimal_host default_config
           0 test_table_store 28 29 (Set_of []) (Map_of []));
    [discriminate|reflexivity|reflexivity|discriminate].
Defined.


(** X4: no test is registered for booleans and big integers, and the
    [Object] test finds no property on them: any two booleans compare
    equal, [true] and [false] included, and so do any two big
    integers. *)
Theorem equal_booleans_bigints `{Host} cfg fuel σ :
  (∀ b1 b2,
     equal cfg (S fuel) (Prim (PBoolean b1)) (Prim (PBoolean b2)) σ
     = (Ok true, σ)) ∧
  (∀ z1 z2, equal cfg (S fuel) (bigint z1) (bigint z2) σ = (Ok true, σ)).
Proof.
  split.
  - intros b1 b2. destruct (decide (b1 = b2)) as [->|Hne];
      [apply equal_refl|].
    rewrite equal_unfold.
    rewrite (equal_body_fallback _ _ _ _ _ "Boolean");
      [by apply Object_no_properties| |done|done| |by vm_compute|].
    + simpl. unfold strict_prim. rewrite bool_decide_eq_false_2; congruence.
    + unfold loose_eq, ret, loose_prim. simpl.
      unfold strict_prim. rewrite bool_decide_eq_false_2; congruence.
    + apply (bool_decide_unpack _). by vm_compute.
  - intros z1 z2. destruct (decide (z1 = z2)) as [->|Hne];
      [apply equal_refl|].
    rewrite equal_unfold.
    rewrite (equal_body_fallback _ _ _ _ _ "BigInt");
      [by apply Object_no_properties| |done|done| |by vm_compute|].
    + unfold bigint. simpl. unfold strict_prim.
      rewrite bool_decide_eq_false_2; congruence.
    + unfold loose_eq, ret, loose_prim, bigint. simpl.
      unfold strict_prim. rewrite bool_decide_eq_false_2; congruence.
    + apply (bool_decide_unpack _). by vm_compute.
Qed.

(** X5: two strings compare equal exactly when they are the same
    string; two symbols exactly when they are the same symbol. *)
Theorem equal_strings_symbols `{Host} cfg fuel σ :
  (∀ s t, equal cfg (S fuel) (str s) (str t) σ = (Ok (bool_decide (s = t)), σ)) ∧
  (∀ i j,
     equal cfg (S fuel) (Prim (PSymbol i)) (Prim (PSymbol j)) σ
     = (Ok (bool_decide (i = j)), σ)).
Proof.
  split.
  - intros s t. destruct (decide (s = t)) as [->|Hne].
    { by rewrite equal_refl, bool_decide_eq_true_2. }
    rewrite bool_decide_eq_false_2 by done. rewrite equal_unfold.
    rewrite (equal_body_dispatch _ _ _ _ _ "String" String_test);
      [done| |done|done| |apply equal_test_String].
    + unfold str. simpl. unfold strict_prim.
      rewrite bool_decide_eq_false_2; congruence.
    + unfold loose_eq, ret, loose_prim, str. simpl. unfold strict_prim.
      rewrite bool_decide_eq_false_2; congruence.
  - intros i j. destruct (decide (i = j)) as [->|Hne].
    { by rewrite equal_refl, bool_decide_eq_true_2. }
    rewrite bool_decide_eq_false_2 by done. rewrite equal_unfold.
    assert (strict_eq (Prim (PSymbol i)) (Prim (PSymbol j)) = false) as Hs.
    { simpl. unfold strict_prim. rewrite bool_decide_eq_false_2; congruence. }
    rewrite (equal_body_dispatch _ _ _ _ _ "Symbol" Symbol_test);
      [|done|done|done| |apply equal_test_Symbol].
    + unfold run_test, Symbol, ret. by rewrite Hs.
    + unfold loose_eq, ret, loose_prim. simpl. unfold strict_prim.
      rewrite bool_decide_eq_false_2; congruence.
Qed.

Lemma Qc_minus_zero (a b : Qc) : (a - b)%Qc = Q2Qc 0 ↔ a = b.
Proof.
  split.
  - intros Hz. replace a with ((a - b) + b)%Qc by ring. rewrite Hz. ring.
  - intros ->. ring.
Qed.

(** [a - b == 0] on two time values *)
Lemma time_values_equal ta tb :
  number_eqb (number_sub ta tb) (integer 0) =
    match ta, tb with
    | Finite x, Finite y => bool_decide (x = y)
    | _, _ => false
    end.
Proof.
  destruct ta as [| | |x], tb as [| | |y]; try reflexivity.
  unfold number_sub, number_eqb, integer. apply bool_decide_ext.
  set (finite := λ n, match n with Finite q => q | _ => Q2Qc 0 end).
  split.
  - intros Hz%(f_equal finite). by apply Qc_minus_zero.
  - intros Hxy. f_equal. by apply Qc_minus_zero.
Qed.

Lemma time_value_eval σ l t ps tp :
  σ !! l = Some (Obj (KDate t) ps tp) → time_value (Ref l) σ = (Ok t, σ).
Proof. intros Hl. unfold time_value, bind, deref. by rewrite Hl. Qed.


Lemma error_message_eval σ l c m ps tp :
  σ !! l = Some (Obj (KError c m) ps tp) → error_message (Ref l) σ = (Ok m, σ).
Proof. intros Hl. unfold error_message, bind, deref. by rewrite Hl. Qed.

(** X6: two different [Date] objects compare equal exactly when their
    time values are the same number; two invalid dates (time value
    [NaN]) are not equal. *)
Theorem equal_Dates `{Host} cfg fuel σ la lb ta tb pa ppa pb ppb :
  la ≠ lb →
  σ !! la = Some (Obj (KDate ta) pa ppa) →
  σ !! lb = Some (Obj (KDate tb) pb ppb) →
  equal cfg (S fuel) (Ref la) (Ref lb) σ =
    (Ok match ta, tb with
        | Finite x, Finite y => bool_decide (x = y)
        | _, _ => false
        end, σ).
Proof.
  intros Hne Ha Hb.
  rewrite (equal_Refs_dispatch _ _ _ _ _ _ _ Date_test Hne Ha Hb);
    [|done|apply equal_test_Date].
  unfold run_test, Date.
  rewrite (bind_Ok _ _ _ _ _ (time_value_eval _ _ _ _ _ Ha)).
  rewrite (bind_Ok _ _ _ _ _ (time_value_eval _ _ _ _ _ Hb)).
  unfold ret. by rewrite time_values_equal.
Qed.

Lemma equal_Dates_witness :
  @equal decimal_host default_config 1 (Ref 38) (Ref 39) test_table_store =
    (Ok (bool_decide (Q2Qc (inject_Z 1387585278000)
                      = Q2Qc (inject_Z 1387585278000))), test_table_store).
Proof.
  apply (@equal_Dates decimal_host default_config 0 test_table_store 38 39
           (integer 1387585278000) (integer 1387585278000)
           [] (PString "Fri Dec 20 2013 16:21:18 GMT-0800 (PST)")
           [] (PString "Fri Dec 20 2013 16:21:18 GMT-0800 (PST)"));
    [discriminate|reflexivity|reflexivity].
Defined.



(** Two different objects of one constructor for which no test is
    registered go to the [Object] test. *)
Lemma equal_unregistered `{Host} cfg fuel σ la lb oa ob c :
  la ≠ lb →
  σ !! la = Some oa → σ !! lb = Some ob →
  constructor_name (kind_of oa) = c → constructor_name (kind_of ob) = c →
  equal_test !! c = None → c ∉ inherited_names →
  equal cfg (S fuel) (Ref la) (Ref lb) σ =
    Object (equal cfg fuel) (Ref la) (Ref lb) σ.
Proof.
  intros Hne Ha Hb Hca Hcb Ht Hc. rewrite equal_unfold.
  apply (equal_body_fallback _ _ _ _ _ c); [| | | |done|done].
  - simpl. by rewrite bool_decide_eq_false_2.
  - by rewrite (get_type_Ref _ _ _ Ha), Hca.
  - by rewrite (get_type_Ref _ _ _ Hb), Hcb.
  - unfold loose_eq, ret. by rewrite bool_decide_eq_false_2.
Qed.

Lemma own_properties_none σ l o :
  σ !! l = Some o → elements_of o = None → props o = [] →
  own_properties (Ref l) σ = (Ok [], σ).
Proof.
  intros Hl He Hp. unfold own_properties, bind, deref. by rewrite Hl, He, Hp.
Qed.

(** X8: two different functions whose constructor is [Function] are
    never equal, and neither are two functions of different
    constructors.  For the other constructors of functions
    ([AsyncFunction], [GeneratorFunction], ...) no test is registered:
    two different functions of one such constructor go to the [Object]
    test and are equal as soon as neither has an own enumerable
    property, so that [equal(async () => 1, async () => 2)] is
    [true]. *)
Theorem equal_Functions `{Host} cfg fuel σ la lb ca cb pa ppa pb ppb :
  la ≠ lb →
  σ !! la = Some (Obj (KFunction ca) pa ppa) →
  σ !! lb = Some (Obj (KFunction cb) pb ppb) →
  (ca = "Function" → cb = "Function" →
     equal cfg (S fuel) (Ref la) (Ref lb) σ = (Ok false, σ)) ∧
  (ca ≠ cb → equal cfg (S fuel) (Ref la) (Ref lb) σ = (Ok false, σ)) ∧
  (ca = cb → equal_test !! ca = None → ca ∉ inherited_names →
     pa = [] → pb = [] →
     equal cfg (S fuel) (Ref la) (Ref lb) σ = (Ok true, σ)).
Proof.
  intros Hne Ha Hb. split; [|split].
  - intros -> ->.
    rewrite (equal_Refs_dispatch _ _ _ _ _ _ _ Function_test Hne Ha Hb);
      [|done|apply equal_test_Function].
    unfold run_test, Function, ret. simpl. by rewrite bool_decide_eq_false_2.
  - intros Hc. rewrite equal_unfold.
    rewrite (equal_body_reads _ _ _ _ _ ca cb false).
    + apply String.eqb_neq in Hc as ->. done.
    + simpl. by rewrite bool_decide_eq_false_2.
    + by rewrite (get_type_Ref _ _ _ Ha).
    + by rewrite (get_type_Ref _ _ _ Hb).
    + unfold loose_eq, ret. by rewrite bool_decide_eq_false_2.
  - intros <- Ht Hc -> ->.
    rewrite (equal_unregistered _ _ _ _ _ _ _ ca Hne Ha Hb); [|done..].
    apply Object_no_properties;
      [exact (own_properties_none _ _ _ Ha eq_refl eq_refl)
      |exact (own_properties_none _ _ _ Hb eq_refl eq_refl)].
Qed.

Lemma equal_Functions_witness :
  @equal decimal_host default_config 1 (Ref 2) (Ref 3) builtins_store =
    (Ok false, builtins_store) ∧
  @equal decimal_host default_config 1 (Ref 2) (Ref 0)
    other_constructors_store = (Ok false, other_constructors_store) ∧
  @equal decimal_host default_config 1 (Ref 0) (Ref 1)
    other_constructors_store = (Ok true, other_constructors_store).
Proof.
  split; [|split].
  - refine (proj1 (@equal_Functions decimal_host default_config 0
                     builtins_store 2 3 "Function" "Function"
                     [] (PString "() => 1") [] (PString "() => 1") _ _ _)
              _ _);
      [discriminate|reflexivity|reflexivity|reflexivity|reflexivity].
  - refine (proj1 (proj2 (@equal_Functions decimal_host default_config 0
                     other_constructors_store 2 0 "Function" "AsyncFunction"
                     [] (PString "() => 1") [] (PString "async () => 1")
                     _ _ _)) _);
      [discriminate|reflexivity|reflexivity|discriminate].
  - refine (proj2 (proj2 (@equal_Functions decimal_host default_config 0
                     other_constructors_store 0 1
                     "AsyncFunction" "AsyncFunction"
                     [] (PString "async () => 1") [] (PString "async () => 2")
                     _ _ _)) _ _ _ _ _);
      [discriminate|reflexivity|reflexivity|reflexivity|by vm_compute
      | |reflexivity|reflexivity].
    intros Hin. apply (bool_decide_pack _) in Hin. by vm_compute in Hin.
Defined.

(** X9: two different errors made by [Error] itself are compared by
    their messages alone, with [==]; when both messages are strings
    they are equal exactly when the messages are the same string.  For
    the other constructors of errors ([TypeError], [RangeError], ...)
    no test is registered: two different errors of one such
    constructor go to the [Object] test, which does not see the
    message, and are equal as soon as neither has an own enumerable
    property, so that [equal(new TypeError("a"), new TypeError("b"))]
    is [true]. *)
Theorem equal_Errors `{Host} cfg fuel σ la lb ca cb ma mb pa ppa pb ppb :
  la ≠ lb →
  σ !! la = Some (Obj (KError ca ma) pa ppa) →
  σ !! lb = Some (Obj (KError cb mb) pb ppb) →
  (ca = "Error" → cb = "Error" →
     equal cfg (S fuel) (Ref la) (Ref lb) σ = loose_eq ma mb σ ∧
     (∀ s t, ma = str s → mb = str t →
        equal cfg (S fuel) (Ref la) (Ref lb) σ =
          (Ok (bool_decide (s = t)), σ))) ∧
  (ca = cb → equal_test !! ca = None → ca ∉ inherited_names →
     pa = [] → pb = [] →
     equal cfg (S fuel) (Ref la) (Ref lb) σ = (Ok true, σ)).
Proof.
  intros Hne Ha Hb. split.
  - intros -> ->.
    rewrite (equal_Refs_dispatch _ _ _ _ _ _ _ Error_test Hne Ha Hb);
      [|done|apply equal_test_Error].
    assert (run_test cfg (equal cfg fuel) Error_test (Ref la) (Ref lb) σ =
            loose_eq ma mb σ) as ->.
    { unfold run_test, Error.
      rewrite (bind_Ok _ _ _ _ _ (error_message_eval _ _ _ _ _ _ Ha)).
      by rewrite (bind_Ok _ _ _ _ _ (error_message_eval _ _ _ _ _ _ Hb)). }
    split; [done|]. intros s t -> ->.
    unfold loose_eq, str, ret, loose_prim. simpl. unfold strict_prim.
    do 2 f_equal. apply bool_decide_ext. naive_solver.
  - intros <- Ht Hc -> ->.
    rewrite (equal_unregistered _ _ _ _ _ _ _ ca Hne Ha Hb); [|done..].
    apply Object_no_properties;
      [exact (own_properties_none _ _ _ Ha eq_refl eq_refl)
      |exact (own_properties_none _ _ _ Hb eq_refl eq_refl)].
Qed.

Lemma equal_Errors_witness :
  @equal decimal_host default_config 1 (Ref 43) (Ref 45) test_table_store =
    (Ok (bool_decide ("10" = "5")), test_table_store) ∧
  @equal decimal_host default_config 1 (Ref 3) (Ref 4)
    other_constructors_store = (Ok true, other_constructors_store).
Proof.
  split.
  - refine (proj2 (proj1 (@equal_Errors decimal_host default_config 0
                     test_table_store 43 45 "Error" "Error"
                     (str "10") (str "5") [] (PString "Error: 10")
                     [] (PString "Error: 5") _ _ _) _ _) "10" "5" _ _);
      [discriminate|reflexivity|reflexivity|reflexivity|reflexivity
      |reflexivity|reflexivity].
  - refine (proj2 (@equal_Errors decimal_host default_config 0
                     other_constructors_store 3 4 "TypeError" "TypeError"
                     (str "a") (str "b") [] (PString "TypeError: a")
                     [] (PString "TypeError: b") _ _ _) _ _ _ _ _);
      [discriminate|reflexivity|reflexivity|reflexivity|by vm_compute
      | |reflexivity|reflexivity].
    intros Hin. apply (bool_decide_pack _) in Hin. by vm_compute in Hin.
Defined.

(** ** Arrays *)

Lemma array_length_eval σ l o es :
  σ !! l = Some o → elements_of o = Some es →
  array_length (Ref l) σ = (Ok (length es), σ).
Proof. intros Hl He. unfold array_length, bind, deref. by rewrite Hl, He. Qed.

Lemma array_get_eval σ l o es i :
  σ !! l = Some o → elements_of o = Some es →
  array_get (Ref l) i σ = (Ok (default undefined (es !! i)), σ).
Proof. intros Hl He. unfold array_get, bind, deref. by rewrite Hl, He. Qed.

(** A loop over the indices from [k] is a loop over the pairs of
    elements from [k]. *)
Lemma for_all_indices (f : value → value → M bool) xs ys k n σ :
  length xs = k + n → length ys = k + n →
  for_all (λ i, f (default undefined (xs !! i)) (default undefined (ys !! i)))
    (seq k n) σ =
  for_all (λ p, f p.1 p.2) (zip (drop k xs) (drop k ys)) σ.
Proof.
  revert k σ. induction n as [|n IH]; intros k σ Hx Hy; simpl.
  { by rewrite !drop_ge by lia. }
  destruct (lookup_lt_is_Some_2 xs k ltac:(lia)) as [x Hxk].
  destruct (lookup_lt_is_Some_2 ys k ltac:(lia)) as [y Hyk].
  rewrite (drop_S _ _ _ Hxk), (drop_S _ _ _ Hyk), Hxk, Hyk. simpl.
  apply bind_ext. intros [] σ' _; [|done]. apply IH; lia.
Qed.

(** The [Array] test without [check_all_properties], on two arrays of
    the same length *)
Lemma Array_run `{Host} cfg fuel σ la lb oa ob xs ys :
  σ !! la = Some oa → elements_of oa = Some xs →
  σ !! lb = Some ob → elements_of ob = Some ys →
  length xs = length ys →
  check_all_properties cfg = false →
  Array cfg (equal cfg fuel) (Ref la) (Ref lb) σ =
    for_all (λ p, equal cfg fuel p.1 p.2) (zip xs ys) σ.
Proof.
  intros Ha Hxs Hb Hys Hlen Hcheck. unfold Array.
  rewrite (bind_Ok _ _ _ _ _ (array_length_eval _ _ _ _ Ha Hxs)).
  rewrite (bind_Ok _ _ _ _ _ (array_length_eval _ _ _ _ Hb Hys)).
  rewrite Hlen, Nat.eqb_refl, Hcheck. cbn [negb].
  rewrite <-(for_all_indices (equal cfg fuel) xs ys 0 (length ys)) by done.
  apply (for_all_ext _ _ _ σ); [done| |].
  - intros i. solve_keeps. apply keeps_equal.
  - intros i σ' Hpre.
    rewrite (bind_Ok _ _ _ _ _
               (array_get_eval _ _ _ _ i (prefix_lookup_Some _ _ _ _ Ha Hpre) Hxs)).
    by rewrite (bind_Ok _ _ _ _ _
               (array_get_eval _ _ _ _ i (prefix_lookup_Some _ _ _ _ Hb Hpre) Hys)).
Qed.

(** Without [check_all_properties], two different arrays of the same
    length are run through the loop of the [Array] test. *)
Lemma equal_Arrays_loop `{Host} cfg fuel σ la lb xs ys pa ppa pb ppb :
  la ≠ lb →
  σ !! la = Some (Obj (KArray xs) pa ppa) →
  σ !! lb = Some (Obj (KArray ys) pb ppb) →
  length xs = length ys → check_all_properties cfg = false →
  equal cfg (S fuel) (Ref la) (Ref lb) σ =
    for_all (λ p, equal cfg fuel p.1 p.2) (zip xs ys) σ.
Proof.
  intros Hne Ha Hb Hlen Hcheck.
  rewrite (equal_Refs_dispatch _ _ _ _ _ _ _ Array_test Hne Ha Hb);
    [|done|apply equal_test_Array].
  by apply (Array_run _ _ _ _ _ _ _ xs ys Ha eq_refl Hb).
Qed.









(** ** Sets and maps *)

(** X12: without [check_all_properties], two different [Set] objects
    compare equal exactly when they have the same size and every
    element of the first is an element of the second, the very same
    primitive or reference: no element is compared recursively, and
    the order of insertion does not count. *)
Theorem equal_Sets_by_identity `{Host} cfg fuel σ la lb xa xb pa ppa pb ppb :
  la ≠ lb →
  σ !! la = Some (Obj (KSet xa) pa ppa) →
  σ !! lb = Some (Obj (KSet xb) pb ppb) →
  check_all_properties cfg = false →
  NoDup xa →
  ∃ r, equal cfg (S fuel) (Ref la) (Ref lb) σ = (Ok r, σ) ∧
       (r = true ↔ xa ≡ₚ xb).
Proof.
  intros Hne Ha Hb Hcheck Hnd.
  rewrite (equal_Sets _ _ _ _ _ _ _ _ _ _ _ Hne Ha Hb Hcheck).
  eexists. split; [done|].
  rewrite andb_true_iff, Nat.eqb_eq, forallb_forall. split.
  - intros [Hlen Hsub]. apply submseteq_length_Permutation; [|lia].
    apply NoDup_submseteq; [done|]. intros x Hx%list_elem_of_In.
    specialize (Hsub x Hx). by apply bool_decide_eq_true_1 in Hsub.
  - intros Hp. split; [by apply Permutation_length|].
    intros x Hx%list_elem_of_In. apply bool_decide_eq_true_2.
    by rewrite <-Hp.
Qed.

Lemma equal_Sets_by_identity_witness :
  ∃ r, @equal decimal_host default_config 1 (Ref 21) (Ref 22)
         test_table_store = (Ok r, test_table_store) ∧
       (r = true ↔ [str "a"; num 1] ≡ₚ [str "b"; num 1]).
Proof.
  apply (@equal_Sets_by_identity decimal_host default_config 0
           test_table_store 21 22 [str "a"; num 1] [str "b"; num 1]
           [] (PString "[object Set]") [] (PString "[object Set]"));
    [discriminate|reflexivity|reflexivity|reflexivity|].
  apply NoDup_cons. split.
  - intros Hin. apply list_elem_of_singleton in Hin. discriminate.
  - apply NoDup_singleton.
Defined.

(** X13: the order in which the entries of a [Map] were inserted does
    not count.  Without [check_all_properties], two different maps
    with the same entries, inserted in any order, compare equal,
    provided [NaN] is not a key. *)
Theorem equal_Maps_insertion_order
    `{Host} cfg fuel σ la lb ea eb pa ppa pb ppb :
  la ≠ lb →
  σ !! la = Some (Obj (KMap ea) pa ppa) →
  σ !! lb = Some (Obj (KMap eb) pb ppb) →
  ea ≡ₚ eb →
  NoDup (ea.*1) →
  Prim (PNumber NaN) ∉ ea.*1 →
  check_all_properties cfg = false →
  (equal cfg (S (S fuel)) (Ref la) (Ref lb) σ).1 = Ok true.
Proof.
  intros Hne Ha Hb Hp Hnd Hnan Hcheck.
  rewrite (equal_Maps _ _ _ _ _ _ _ _ _ _ _ Hne Ha Hb).
  rewrite (Map_run _ _ _ _ _ _ _ _ _ _ _ Ha Hb (Permutation_length Hp))
    by (intros; apply keeps_equal).
  rewrite Hcheck, bind_ret. cbn [negb].
  rewrite consume_complete; [|by rewrite Hp|done].
  set (σ2 := σ ++ _).
  assert (σ `prefix_of` σ2) as Hpre by by apply prefix_app_r.
  pose proof (prefix_lookup_Some _ _ _ _ Ha Hpre) as Ha2.
  pose proof (prefix_lookup_Some _ _ _ _ Hb Hpre) as Hb2.
  assert (∀ ks, for_all (λ k,
              let! x := map_get (Ref la) k in
              let! y := map_get (Ref lb) k in
              equal cfg (S fuel) x y) ks σ2 = (Ok true, σ2)) as Hloop.
  { induction ks as [|k ks IH]; [done|]. cbn [for_all].
    assert ((let! x := map_get (Ref la) k in
             let! y := map_get (Ref lb) k in
             equal cfg (S fuel) x y) σ2 = (Ok true, σ2)) as Hk.
    { rewrite (bind_Ok _ _ _ _ _ (map_get_eval _ _ _ _ _ k Ha2)).
      rewrite (bind_Ok _ _ _ _ _ (map_get_eval _ _ _ _ _ k Hb2)).
      rewrite <-(assoc_Permutation k ea eb) by done. apply equal_refl. }
    by rewrite (bind_Ok _ _ _ _ _ Hk). }
  by rewrite Hloop.
Qed.

Lemma equal_Maps_insertion_order_witness :
  (@equal decimal_host default_config 2 (Ref 0) (Ref 1) string_keys_store).1
    = Ok true.
Proof.
  apply (@equal_Maps_insertion_order decimal_host default_config 0
           string_keys_store 0 1
           [(str "a", num 1); (str "b", num 2)]
           [(str "b", num 2); (str "a", num 1)]
           [] (PString "[object Map]") [] (PString "[object Map]"));
    [discriminate|reflexivity|reflexivity|apply perm_swap| | |reflexivity].
  - apply NoDup_cons. split.
    + intros Hin. apply list_elem_of_singleton in Hin. discriminate.
    + apply NoDup_singleton.
  - intros Hin. apply elem_of_cons in Hin as [Hin|Hin]; [discriminate|].
    apply list_elem_of_singleton in Hin. discriminate.
Defined.

(** ** The two helpers *)

(** X14: [sorted_identical(a, b)] is [true] exactly when the two
    arrays hold the same strings in the same order. *)
Theorem sorted_identical_iff a b : sorted_identical a b = true ↔ a = b.
Proof. by rewrite sorted_identical_eq, bool_decide_eq_true. Qed.

Lemma consume_submseteq xs ys k :
  ys ≡ₚ xs ++ k → Prim (PNumber NaN) ∉ xs → (consume xs ys).1 = true.
Proof.
  revert ys. induction xs as [|x xs IH]; intros ys Hp Hn; simpl; [done|].
  apply not_elem_of_cons in Hn as [Hx Hn].
  destruct (indexOf_elem_of ys x) as [i Hi]; [by rewrite Hp; left|done|].
  rewrite Hi. apply IH; [|done]. apply indexOf_Some in Hi.
  apply (Permutation_cons_inv (a := x)).
  by rewrite <-(delete_Permutation _ _ _ Hi).
Qed.

(** X15: on two different arrays [unsorted_identical(a, b)] answers
    whether every item of [a] occurs in [b], counting repetitions, and
    [NaN] is never found.  It does not ask that [b] holds nothing
    else.  Only [b] is written: when the answer is [true], [b] is left
    with the items that matched nothing. *)
Theorem unsorted_identical_submultiset σ a b xs ys pa ppa pb ppb :
  a ≠ b →
  σ !! a = Some (Obj (KArray xs) pa ppa) →
  σ !! b = Some (Obj (KArray ys) pb ppb) →
  ∃ r rest,
    unsorted_identical a b σ = (Ok r, <[b := Obj (KArray rest) pb ppb]> σ) ∧
    (r = true ↔ xs ⊆+ ys ∧ Prim (PNumber NaN) ∉ xs) ∧
    (r = true → ys ≡ₚ xs ++ rest).
Proof.
  intros Hne Ha Hb.
  rewrite (unsorted_identical_consume _ _ _ _ _ _ _ _ _ Hne Ha Hb).
  exists (consume xs ys).1, (consume xs ys).2. split_and!; [done| |].
  - split.
    + intros Hc. pose proof (consume_Permutation _ _ Hc) as Hp. split.
      * rewrite Hp. by apply submseteq_inserts_r.
      * intros Hn. by rewrite consume_NaN in Hc.
    + intros [[k Hk]%submseteq_Permutation Hn].
      by apply (consume_submseteq _ _ k).
  - apply consume_Permutation.
Qed.

Lemma unsorted_identical_submultiset_witness :
  ∃ r rest,
    unsorted_identical 0 2 test_table_store =
      (Ok r, <[2 := Obj (KArray rest) [] (PString "2,1")]> test_table_store) ∧
    (r = true ↔ [num 1; num 2] ⊆+ [num 2; num 1]
                ∧ Prim (PNumber NaN) ∉ [num 1; num 2]) ∧
    (r = true → [num 2; num 1] ≡ₚ [num 1; num 2] ++ rest).
Proof.
  apply (@unsorted_identical_submultiset test_table_store 0 2
           [num 1; num 2] [num 2; num 1] [] (PString "1,2")
           [] (PString "2,1"));
    [discriminate|reflexivity|reflexivity].
Defined.

(** ** Agreement of the two orders, circular references *)

(** X16: [equal(a, b)] and [equal(b, a)] never give opposite answers:
    when one call returns a boolean the other one returns the same
    boolean or does not return (it throws, or exhausts the stack),
    whatever the depth of stack each was given.  The values are taken
    in a store whose references point into it and whose sets hold no
    element twice. *)
Theorem equal_swapped_never_opposite `{Host} cfg n m σ a b r :
  closed σ → sets_distinct σ →
  valid (length σ) a → valid (length σ) b →
  (equal cfg n a b σ).1 = Ok r → (equal cfg m b a σ).1 ≠ Ok (negb r).
Proof.
  intros Hclosed Hsets Ha Hb Hr Hr'.
  pose proof (equal_agree cfg σ n m Hclosed Hsets a b σ σ r (negb r)) as Hagree.
  destruct r; by discriminate Hagree.
Qed.

Lemma equal_swapped_never_opposite_witness :
  (@equal decimal_host default_config 2 (Ref 1) (Ref 0) string_keys_store).1
    ≠ Ok false.
Proof.
  destruct string_keys_store_closed as [Hclosed Hsets].
  apply (@equal_swapped_never_opposite decimal_host default_config 2 2
           string_keys_store (Ref 0) (Ref 1) true Hclosed Hsets);
    [simpl; lia|simpl; lia|reflexivity].
Defined.

(** X17: circular references blow up.  For two different arrays of
    the same length that each hold themselves as first element,
    [equal] never returns: it exhausts every stack. *)
Theorem equal_circular `{Host} cfg σ la lb xs ys pa ppa pb ppb :
  la ≠ lb →
  σ !! la = Some (Obj (KArray (Ref la :: xs)) pa ppa) →
  σ !! lb = Some (Obj (KArray (Ref lb :: ys)) pb ppb) →
  length xs = length ys →
  check_all_properties cfg = false →
  ∀ fuel, equal cfg fuel (Ref la) (Ref lb) σ = (StackOverflow, σ).
Proof.
  intros Hne Ha Hb Hlen Hcheck fuel. induction fuel as [|fuel IH]; [done|].
  rewrite (equal_Arrays_loop _ _ _ _ _ _ _ _ _ _ _ Hne Ha Hb);
    [|by simpl; f_equal|done].
  cbn [zip zip_with for_all fst snd]. unfold bind. by rewrite IH.
Qed.

Lemma equal_circular_witness :
  @equal decimal_host default_config 1000 (Ref 6) (Ref 7) builtins_store =
    (StackOverflow, builtins_store).
Proof.
  apply (@equal_circular decimal_host default_config builtins_store 6 7
           [] [] [] (PString "") [] (PString ""));
    [discriminate|reflexivity|reflexivity|reflexivity|reflexivity].
Defined.

(** ** The stack that a comparison needs *)

Lemma within_ret {A} σ0 (Q : A → Prop) x : Q x → within σ0 Q (ret x).
Proof. intros HQ σ Hpre. repeat split; [done..|]. by intros ? [= <-]. Qed.

Lemma within_type_error {A} σ0 (Q : A → Prop) : within σ0 Q type_error.
Proof. by intros σ Hpre. Qed.

Lemma within_unsupported {A} σ0 (Q : A → Prop) : within σ0 Q unsupported.
Proof. by intros σ Hpre. Qed.

Lemma within_deref σ0 l : within σ0 (λ _, True) (deref l).
Proof. intros σ Hpre. unfold deref. by destruct (σ !! l). Qed.

Lemma within_bind {A B} σ0 (Q : A → Prop) (R : B → Prop) m (f : A → M B) :
  within σ0 Q m → (∀ x, Q x → within σ0 R (f x)) → within σ0 R (bind m f).
Proof.
  intros Hm Hf σ Hpre. unfold bind. destruct (Hm σ Hpre) as (Hso & Hp & HQ).
  destruct (m σ) as [[x| | |] σ']; simpl in *; try done.
  by apply (Hf x (HQ x eq_refl)).
Qed.

Lemma within_weaken {A} σ0 (Q R : A → Prop) m :
  within σ0 Q m → (∀ x, Q x → R x) → within σ0 R m.
Proof.
  intros Hm HQR σ Hpre. destruct (Hm σ Hpre) as (? & ? & ?). naive_solver.
Qed.

Lemma within_for_all {A} σ0 (body : A → M bool) xs :
  (∀ x, within σ0 (λ _, True) (body x)) →
  within σ0 (λ _, True) (for_all body xs).
Proof.
  intros Hb. induction xs as [|x xs IH]; simpl; [by apply within_ret|].
  apply (within_bind _ (λ _, True)); [done|].
  intros [] _; [done|by apply within_ret].
Qed.

(** What is read off a cell of [σ0] is read off every store that
    extends it. *)
Lemma within_eval {A} σ0 (Q : A → Prop) m :
  (∀ σ, σ0 `prefix_of` σ → ∃ x, m σ = (Ok x, σ) ∧ Q x) → within σ0 Q m.
Proof.
  intros Hm σ Hpre. destruct (Hm σ Hpre) as (x & -> & HQ).
  repeat split; [done..|]. by intros ? [= <-].
Qed.

Lemma within_keeps {A} σ0 (m : M A) :
  keeps (length σ0) m → (∀ σ, (m σ).1 ≠ StackOverflow) →
  within σ0 (λ _, True) m.
Proof.
  intros Hk Hso σ Hpre. repeat split; [done|]. by apply keeps_prefix_of.
Qed.

Ltac within_step :=
  lazymatch goal with
  | |- within _ _ (bind _ _) =>
      apply (within_bind _ (λ _, True)); [|intros ? _]
  | |- within _ _ (for_all _ _) => apply within_for_all; intros ?
  | |- within _ _ (ret _) => by apply within_ret
  | |- within _ _ type_error => apply within_type_error
  | |- within _ _ unsupported => apply within_unsupported
  | |- within _ _ (deref _) => apply within_deref
  | |- within _ _ (match ?x with _ => _ end) => destruct x
  | |- within _ _ (if ?x then _ else _) => destruct x
  | |- within _ _ _ => first [assumption | solve [eauto]]
  end.
Ltac solve_within := repeat within_step.

Lemma within_own_properties σ0 a : within σ0 (λ _, True) (own_properties a).
Proof. unfold own_properties. solve_within. Qed.

Lemma within_Object_keys σ0 a : within σ0 (λ _, True) (Object_keys a).
Proof. unfold Object_keys. pose proof within_own_properties. solve_within. Qed.

Lemma within_array_length σ0 a : within σ0 (λ _, True) (array_length a).
Proof. unfold array_length. solve_within. Qed.

Lemma within_map_entries σ0 a : within σ0 (λ _, True) (map_entries a).
Proof. unfold map_entries. solve_within. Qed.

Lemma within_map_size σ0 a : within σ0 (λ _, True) (map_size a).
Proof. unfold map_size. pose proof within_map_entries. solve_within. Qed.

Lemma within_map_keys σ0 a : within σ0 (λ _, True) (map_keys a).
Proof. unfold map_keys. pose proof within_map_entries. solve_within. Qed.

Lemma within_set_elements σ0 a : within σ0 (λ _, True) (set_elements a).
Proof. unfold set_elements. solve_within. Qed.

Lemma within_set_size σ0 a : within σ0 (λ _, True) (set_size a).
Proof. unfold set_size. pose proof within_set_elements. solve_within. Qed.

Lemma within_set_has σ0 b x : within σ0 (λ _, True) (set_has b x).
Proof. unfold set_has. pose proof within_set_elements. solve_within. Qed.

Lemma within_time_value σ0 a : within σ0 (λ _, True) (time_value a).
Proof. unfold time_value. solve_within. Qed.

Lemma within_regexp_source_flags σ0 a :
  within σ0 (λ _, True) (regexp_source_flags a).
Proof. unfold regexp_source_flags. solve_within. Qed.

Lemma within_error_message σ0 a : within σ0 (λ _, True) (error_message a).
Proof. unfold error_message. solve_within. Qed.

Lemma within_isNaN σ0 a : within σ0 (λ _, True) (isNaN a).
Proof. unfold isNaN. solve_within. Qed.

Lemma within_array_elements σ0 l : within σ0 (λ _, True) (array_elements l).
Proof. unfold array_elements. solve_within. Qed.

Lemma within_get_type σ0 a : within σ0 (λ _, True) (get_type a).
Proof. unfold get_type. solve_within. Qed.

Lemma within_loose_eq `{Host} σ0 a b : within σ0 (λ _, True) (loose_eq a b).
Proof. unfold loose_eq. solve_within. Qed.

(** A fresh array lies beyond the cells of [σ0]. *)
Lemma within_spread σ0 xs : within σ0 (λ l, length σ0 ≤ l) (spread xs).
Proof.
  intros σ Hpre. unfold spread, alloc. simpl. repeat split; [done| |].
  - by apply prefix_app_r.
  - intros l [= <-]. by apply prefix_length.
Qed.

Lemma within_splice σ0 l idx :
  length σ0 ≤ l → within σ0 (λ _, True) (splice l idx).
Proof.
  intros Hl. apply within_keeps; [by apply keeps_splice|].
  intros σ. unfold splice, bind, deref, write, unsupported.
  destruct (σ !! l) as [o|]; [|done]. by destruct (kind_of o).
Qed.

Lemma within_unsorted_identical σ0 a b :
  length σ0 ≤ b → within σ0 (λ _, True) (unsorted_identical a b).
Proof.
  intros Hb. unfold unsorted_identical.
  apply (within_bind _ (λ _, True)); [apply within_array_elements|].
  intros xs _. generalize (length xs) 0. intros k.
  induction k as [|k IH]; intros i; simpl; [by apply within_ret|].
  apply (within_bind _ (λ _, True)); [apply within_array_elements|].
  intros xs' _. destruct (xs' !! i); [|by apply within_ret].
  apply (within_bind _ (λ _, True)); [apply within_array_elements|].
  intros ys _. destruct (indexOf ys v); [|by apply within_ret].
  apply (within_bind _ (λ _, True)); [by apply within_splice|].
  intros _ _. apply IH.
Qed.

Create HintDb within.
#[export] Hint Resolve within_own_properties within_Object_keys
  within_array_length within_map_entries within_map_size within_map_keys
  within_set_elements within_set_size within_set_has within_time_value
  within_regexp_source_flags within_error_message within_isNaN
  within_array_elements within_get_type within_loose_eq : within.

(** The tests call [equal] on what they read off their two arguments:
    if the reads of [a] give values in [PA] and those of [b] values in
    [PB], the stack is exhausted only by one of these calls. *)
Section Bounded.
Context `{Host}.
Variable cfg : config.
Variable rec : value → value → M bool.
Variable σ0 : store.
Variables a b : value.
Variables PA PB : value → Prop.
Hypothesis property_a : ∀ k, within σ0 PA (get_property a k).
Hypothesis property_b : ∀ k, within σ0 PB (get_property b k).
Hypothesis element_a : ∀ i, within σ0 PA (array_get a i).
Hypothesis element_b : ∀ i, within σ0 PB (array_get b i).
Hypothesis entry_a : ∀ k, within σ0 PA (map_get a k).
Hypothesis entry_b : ∀ k, within σ0 PB (map_get b k).
Hypothesis within_rec :
  ∀ x y, PA x → PB y → within σ0 (λ _, True) (rec x y).

Lemma within_Object : within σ0 (λ _, True) (Object rec a b).
Proof using property_a property_b within_rec.
  unfold Object.
  apply (within_bind _ (λ _, True)); [apply within_Object_keys|].
  intros a_keys _.
  apply (within_bind _ (λ _, True)); [apply within_Object_keys|].
  intros b_keys _. cbv zeta.
  destruct (negb _); [by apply within_ret|].
  apply within_for_all. intros k.
  apply (within_bind _ PA); [apply property_a|]. intros x Hx.
  apply (within_bind _ PB); [apply property_b|]. intros y Hy.
  by apply within_rec.
Qed.

Lemma within_Array : within σ0 (λ _, True) (Array cfg rec a b).
Proof using property_a property_b element_a element_b within_rec.
  unfold Array.
  apply (within_bind _ (λ _, True)); [apply within_array_length|].
  intros n _.
  apply (within_bind _ (λ _, True)); [apply within_array_length|].
  intros m _.
  destruct (negb _); [by apply within_ret|].
  destruct (check_all_properties cfg); [apply within_Object|].
  apply within_for_all. intros i.
  apply (within_bind _ PA); [apply element_a|]. intros x Hx.
  apply (within_bind _ PB); [apply element_b|]. intros y Hy.
  by apply within_rec.
Qed.

Lemma within_Map : within σ0 (λ _, True) (Map cfg rec a b).
Proof using property_a property_b entry_a entry_b within_rec.
  unfold Map.
  apply (within_bind _ (λ _, True)); [apply within_map_size|].
  intros n _.
  apply (within_bind _ (λ _, True)); [apply within_map_size|].
  intros m _.
  destruct (negb _); [by apply within_ret|].
  apply (within_bind _ (λ _, True)).
  { destruct (check_all_properties cfg);
      [apply within_Object|by apply within_ret]. }
  intros extra _. destruct (negb _); [by apply within_ret|].
  apply (within_bind _ (λ _, True)); [apply within_map_keys|].
  intros ka _.
  apply (within_bind _ (λ l, length σ0 ≤ l)); [apply within_spread|].
  intros a_keys _.
  apply (within_bind _ (λ _, True)); [apply within_map_keys|].
  intros kb _.
  apply (within_bind _ (λ l, length σ0 ≤ l)); [apply within_spread|].
  intros b_keys Hb.
  apply (within_bind _ (λ _, True)); [by apply within_unsorted_identical|].
  intros same _. destruct (negb _); [by apply within_ret|].
  apply (within_bind _ (λ _, True)); [apply within_array_elements|].
  intros ks _.
  apply within_for_all. intros k.
  apply (within_bind _ PA); [apply entry_a|]. intros x Hx.
  apply (within_bind _ PB); [apply entry_b|]. intros y Hy.
  by apply within_rec.
Qed.

Lemma within_Set : within σ0 (λ _, True) (Set_ cfg rec a b).
Proof using property_a property_b within_rec.
  unfold Set_.
  apply (within_bind _ (λ _, True)); [apply within_set_size|].
  intros n _.
  apply (within_bind _ (λ _, True)); [apply within_set_size|].
  intros m _.
  destruct (negb _); [by apply within_ret|].
  apply (within_bind _ (λ _, True)).
  { destruct (check_all_properties cfg);
      [apply within_Object|by apply within_ret]. }
  intros extra _. destruct (negb _); [by apply within_ret|].
  apply (within_bind _ (λ _, True)); [apply within_set_elements|].
  intros xs _. apply within_for_all. intros x. apply within_set_has.
Qed.

Lemma within_run_test t : within σ0 (λ _, True) (run_test cfg rec t a b).
Proof using property_a property_b element_a element_b entry_a entry_b
  within_rec.
  destruct t; simpl;
    [| | | |apply within_Array|apply within_Object|apply within_Map
     |apply within_Set| | |];
    unfold Number, String_, Date, RegExp, Symbol, Function, Error;
    solve_within; eauto with within.
Qed.

Lemma within_equal_body : within σ0 (λ _, True) (equal_body cfg rec a b).
Proof using property_a property_b element_a element_b entry_a entry_b
  within_rec.
  unfold equal_body. destruct (strict_eq a b); [by apply within_ret|].
  apply (within_bind _ (λ _, True)); [apply within_get_type|].
  intros a_cons _.
  apply (within_bind _ (λ _, True)); [apply within_get_type|].
  intros b_cons _.
  apply (within_bind _ (λ _, True)); [apply within_loose_eq|].
  intros e _.
  destruct (e && _); [by apply within_ret|].
  destruct (negb _); [by apply within_ret|].
  destruct (equal_test !! a_cons); [apply within_run_test|].
  destruct (bool_decide _); [apply within_unsupported|apply within_Object].
Qed.
End Bounded.

(** What the tests read off a value whose object lies in [σ0] is a
    primitive or one of the values the object holds. *)
Section Children.
Variable σ0 : store.
Variable P : value → Prop.
Variable v : value.
Hypothesis P_Prim : ∀ p, P (Prim p).
Hypothesis P_held :
  ∀ l, v = Ref l → ∃ o, σ0 !! l = Some o ∧ Forall P (values_of o).

Lemma assoc_default_held {K} `{EqDecision K} (k : K) (kvs : list (K * value)) :
  Forall P (kvs.*2) → P (default undefined (assoc k kvs)).
Proof using P_Prim.
  intros Hall. destruct (assoc k kvs) as [x|] eqn:Hx; simpl; [|apply P_Prim].
  apply assoc_Some_elem_of in Hx. rewrite Forall_forall in Hall.
  apply Hall, list_elem_of_fmap. by exists (k, x).
Qed.

Lemma own_properties_held :
  within σ0 (λ ps, Forall P (ps.*2)) (own_properties v).
Proof using P_Prim P_held.
  destruct v as [p|l].
  - destruct p; simpl; try apply within_type_error;
      apply within_ret; try by constructor.
    rewrite indexed_values. clear P_held.
    induction s; simpl; constructor; [apply P_Prim|done].
  - destruct (P_held l eq_refl) as (o & Hl & Hall).
    apply within_eval. intros σ Hpre. eexists. split.
    { unfold own_properties, bind, deref.
      by rewrite (prefix_lookup_Some _ _ _ _ Hl Hpre). }
    unfold values_of, elements_of in *. rewrite Forall_app in Hall.
    destruct Hall as [Hp Hk].
    destruct (kind_of o); try done;
      rewrite fmap_app, indexed_values; by apply Forall_app.
Qed.

Lemma get_property_held k : within σ0 P (get_property v k).
Proof using P_Prim P_held.
  unfold get_property. eapply within_bind; [apply own_properties_held|].
  intros ps Hps. apply within_ret. by apply assoc_default_held.
Qed.

Lemma array_get_held i : within σ0 P (array_get v i).
Proof using P_Prim P_held.
  unfold array_get. destruct v as [p|l]; [apply within_unsupported|].
  destruct (P_held l eq_refl) as (o & Hl & Hall).
  intros σ Hpre. unfold bind, deref.
  rewrite (prefix_lookup_Some _ _ _ _ Hl Hpre).
  unfold values_of, elements_of in *. rewrite Forall_app in Hall.
  destruct Hall as [_ Hk].
  destruct (kind_of o); simpl; repeat split; try done;
    intros x [= <-]; (destruct (_ !! i) as [x|] eqn:Hx; simpl; [|apply P_Prim]);
    apply list_elem_of_lookup_2 in Hx; by rewrite Forall_forall in Hk; apply Hk.
Qed.

Lemma map_get_held k : within σ0 P (map_get v k).
Proof using P_Prim P_held.
  unfold map_get, map_entries. destruct v as [p|l].
  { intros σ Hpre. by unfold bind, unsupported. }
  destruct (P_held l eq_refl) as (o & Hl & Hall).
  intros σ Hpre. unfold bind, deref.
  rewrite (prefix_lookup_Some _ _ _ _ Hl Hpre).
  unfold values_of in *. rewrite Forall_app in Hall.
  destruct Hall as [_ Hk].
  destruct (kind_of o); simpl; repeat split; try done.
  intros x [= <-]. apply assoc_default_held.
  rewrite Forall_app in Hk. by destruct Hk.
Qed.
End Children.

Lemma within_True_get_property σ0 v k :
  within σ0 (λ _, True) (get_property v k).
Proof.
  unfold get_property. pose proof within_own_properties. solve_within.
Qed.

Lemma within_True_array_get σ0 v i : within σ0 (λ _, True) (array_get v i).
Proof. unfold array_get. solve_within. Qed.

Lemma within_True_map_get σ0 v k : within σ0 (λ _, True) (map_get v k).
Proof. unfold map_get. pose proof within_map_entries. solve_within. Qed.

(** On a primitive [a] no test calls [equal] again. *)
Lemma within_equal_body_Prim `{Host} cfg rec σ0 p b :
  within σ0 (λ _, True) (equal_body cfg rec (Prim p) b).
Proof.
  assert (∀ a, within σ0 (λ ks, ks = []) (Object_keys (Prim (PBoolean a))))
    as Hbool.
  { intros a σ Hpre. repeat split; [done..|]. by intros ? [= <-]. }
  assert (∀ z, within σ0 (λ ks, ks = []) (Object_keys (Prim (PBigInt z))))
    as Hbig.
  { intros z σ Hpre. repeat split; [done..|]. by intros ? [= <-]. }
  assert (∀ a, within σ0 (λ ks, ks = []) (Object_keys a) →
            within σ0 (λ _, True) (Object rec a b)) as Hobj.
  { intros a Ha. unfold Object.
    apply (within_bind _ (λ ks, ks = [])); [by apply Ha|]. intros ? ->.
    apply (within_bind _ (λ _, True)); [apply within_Object_keys|].
    intros b_keys _. cbv zeta.
    destruct (negb _); by apply within_ret. }
  unfold equal_body. destruct (strict_eq _ b); [by apply within_ret|].
  apply (within_bind _ (λ c, (get_type (Prim p) σ0).1 = Ok c)).
  { intros σ Hpre. destruct p; simpl; repeat split; try done;
      by intros ? [= <-]. }
  intros a_cons Ha.
  destruct p; simpl in Ha; try done; injection Ha as <-.
  all: apply (within_bind _ (λ _, True)); [apply within_get_type|].
  all: intros b_cons _.
  all: apply (within_bind _ (λ _, True)); [apply within_loose_eq|].
  all: intros e _.
  all: destruct (e && _); [by apply within_ret|].
  all: destruct (negb _); [by apply within_ret|].
  - replace (equal_test !! "Boolean") with (@None test) by by vm_compute.
    destruct (bool_decide _) eqn:Hin; [by vm_compute in Hin|]. by apply Hobj.
  - rewrite equal_test_Number. unfold run_test, Number.
    solve_within; eauto with within.
  - replace (equal_test !! "BigInt") with (@None test) by by vm_compute.
    destruct (bool_decide _) eqn:Hin; [by vm_compute in Hin|]. by apply Hobj.
  - rewrite equal_test_String. by apply within_ret.
  - rewrite equal_test_Symbol. by apply within_ret.
Qed.

(** Nor on a primitive [b]: the [Object] test finds no name on [b], so
    it goes on only when it finds none on [a]. *)
Lemma within_equal_body_Prim_r `{Host} cfg rec σ0 a q :
  within σ0 (λ _, True) (equal_body cfg rec a (Prim q)).
Proof.
  assert (∀ b, within σ0 (λ ks, ks = []) (Object_keys b) →
            within σ0 (λ _, True) (Object rec a b)) as Hobj.
  { intros b Hb. unfold Object.
    apply (within_bind _ (λ _, True)); [apply within_Object_keys|].
    intros a_keys _.
    apply (within_bind _ (λ ks, ks = [])); [by apply Hb|]. intros ? ->.
    cbv zeta. rewrite sorted_identical_eq.
    case_bool_decide as Hs; [|by apply within_ret].
    change (sort []) with (@nil string) in Hs. rewrite Hs.
    by apply within_ret. }
  unfold equal_body. destruct (strict_eq a _); [by apply within_ret|].
  apply (within_bind _ (λ _, True)); [apply within_get_type|].
  intros a_cons _.
  apply (within_bind _ (λ c, (get_type (Prim q) σ0).1 = Ok c)).
  { intros σ Hpre. destruct q; simpl; repeat split; try done;
      by intros ? [= <-]. }
  intros b_cons Hb.
  apply (within_bind _ (λ _, True)); [apply within_loose_eq|].
  intros e _.
  destruct (e && _); [by apply within_ret|].
  destruct (String.eqb_spec a_cons b_cons) as [->|]; [|by apply within_ret].
  cbn [negb].
  destruct q; simpl in Hb; try done; injection Hb as <-.
  - replace (equal_test !! "Boolean") with (@None test) by by vm_compute.
    destruct (bool_decide _) eqn:Hin; [by vm_compute in Hin|].
    apply Hobj. intros σ Hpre. repeat split; [done..|]. by intros ? [= <-].
  - rewrite equal_test_Number. unfold run_test, Number.
    solve_within; eauto with within.
  - replace (equal_test !! "BigInt") with (@None test) by by vm_compute.
    destruct (bool_decide _) eqn:Hin; [by vm_compute in Hin|].
    apply Hobj. intros σ Hpre. repeat split; [done..|]. by intros ? [= <-].
  - rewrite equal_test_String. by apply within_ret.
  - rewrite equal_test_Symbol. by apply within_ret.
Qed.

Lemma nested_Prim σ n p : nested σ n (Prim p) = true.
Proof. by destruct n. Qed.

Lemma nested_held σ n l :
  nested σ (S n) (Ref l) = true →
  ∀ l', Ref l = Ref l' →
    ∃ o, σ !! l' = Some o ∧ Forall (λ x, nested σ n x = true) (values_of o).
Proof.
  simpl. destruct (σ !! l) as [o|] eqn:Hl; [|done].
  intros Ha ? [= <-]. exists o. split; [done|].
  rewrite Forall_forall. intros x Hx.
  rewrite forallb_forall in Ha. apply Ha. by apply list_elem_of_In.
Qed.

Lemma within_equal `{Host} cfg σ0 n :
  ∀ a b, nested σ0 n a = true ∨ nested σ0 n b = true →
         within σ0 (λ _, True) (equal cfg (S n) a b).
Proof.
  induction n as [|n IH]; intros a b [Ha|Hb].
  - destruct a; [apply within_equal_body_Prim|done].
  - destruct b; [apply within_equal_body_Prim_r|done].
  - destruct a as [p|l]; [apply within_equal_body_Prim|].
    pose proof (nested_held _ _ _ Ha) as Hheld.
    change (equal cfg (S (S n)) (Ref l) b)
      with (equal_body cfg (equal cfg (S n)) (Ref l) b).
    apply within_equal_body
      with (PA := λ x, nested σ0 n x = true) (PB := λ _, True).
    + intros k. apply get_property_held; [apply nested_Prim|done].
    + intros k. apply within_True_get_property.
    + intros i. apply array_get_held; [apply nested_Prim|done].
    + intros i. apply within_True_array_get.
    + intros k. apply map_get_held; [apply nested_Prim|done].
    + intros k. apply within_True_map_get.
    + intros x y Hx _. apply IH. by left.
  - destruct b as [q|l]; [apply within_equal_body_Prim_r|].
    pose proof (nested_held _ _ _ Hb) as Hheld.
    change (equal cfg (S (S n)) a (Ref l))
      with (equal_body cfg (equal cfg (S n)) a (Ref l)).
    apply within_equal_body
      with (PA := λ _, True) (PB := λ y, nested σ0 n y = true).
    + intros k. apply within_True_get_property.
    + intros k. apply get_property_held; [apply nested_Prim|done].
    + intros i. apply within_True_array_get.
    + intros i. apply array_get_held; [apply nested_Prim|done].
    + intros k. apply within_True_map_get.
    + intros k. apply map_get_held; [apply nested_Prim|done].
    + intros x y _ Hy. apply IH. by right.
Qed.

(** X18: the stack that [equal(a, b)] needs is bounded by the nesting
    of the shallower of [a] and [b]: when one of them nests objects at
    most [n] deep, a stack of [n + 1] calls is never exhausted,
    whatever the other one is. *)
Theorem equal_stack_bounded_by_nesting `{Host} cfg n a b σ :
  nested σ n a = true ∨ nested σ n b = true →
  (equal cfg (S n) a b σ).1 ≠ StackOverflow.
Proof.
  intros Hab. by destruct (within_equal cfg σ n a b Hab σ) as (? & ? & _).
Qed.

Lemma equal_stack_bounded_by_nesting_witness :
  (@equal decimal_host default_config 3 (Ref 1) (Ref 5)
     nested_arrays_store).1 ≠ StackOverflow.
Proof.
  apply (@equal_stack_bounded_by_nesting decimal_host default_config 2
           (Ref 1) (Ref 5) nested_arrays_store).
  left. reflexivity.
Defined.

(** The bound is reached: [[[1]]] against its copy needs four calls. *)
Example equal_nested_arrays :
  (@equal decimal_host default_config 3 (Ref 2) (Ref 5)
     nested_arrays_store).1 = StackOverflow ∧
  (@equal decimal_host default_config 4 (Ref 2) (Ref 5)
     nested_arrays_store).1 = Ok true.
Proof. by vm_compute. Qed.

(** ** The parent of a topic *)

Lemma no_dot_app s t : no_dot (s +:+ t) = no_dot s && no_dot t.
Proof.
  induction s as [|c s IH]; simpl; [done|]. rewrite IH.
  by destruct (Ascii.eqb c ".").
Qed.

Lemma segment_app_dot s t : segment (s +:+ String "." t) = false.
Proof.
  unfold segment. rewrite no_dot_app. simpl.
  by rewrite andb_false_r, andb_false_r.
Qed.

Lemma before_last_segment_app p t :
  segment t = true → before_last_segment (p +:+ String "." t) = p.
Proof.
  intros Ht. induction p as [|c p IH]; simpl.
  - by rewrite Ht.
  - rewrite segment_app_dot, andb_false_r. by rewrite IH.
Qed.

Lemma before_last_segment_dot p :
  before_last_segment (p +:+ ".") = p +:+ ".".
Proof.
  induction p as [|c p IH]; simpl; [done|].
  rewrite segment_app_dot, andb_false_r. by rewrite IH.
Qed.

Lemma before_last_segment_fixed s :
  before_last_segment s = s → no_dot s = true ∨ ∃ p, s = p +:+ ".".
Proof.
  induction s as [|c s IH]; simpl; [by left|].
  destruct (Ascii.eqb_spec c ".") as [->|Hc]; simpl.
  - destruct (segment s) eqn:Hseg; [done|]. intros [= Hs].
    destruct (IH Hs) as [Hn|[p ->]]; right.
    + exists "". unfold segment in Hseg. rewrite Hn, andb_true_r in Hseg.
      apply negb_false_iff, String.eqb_eq in Hseg. by subst.
    + by exists (String "." p).
  - intros [= Hs]. destruct (IH Hs) as [Hn|[p ->]]; [by left|right].
    by exists (String c p).
Qed.

Lemma parent_topic_dot p : parent_topic (p +:+ ".") = p +:+ ".".
Proof.
  unfold parent_topic. change "." with (String "." "").
  rewrite segment_app_dot. apply before_last_segment_dot.
Qed.

(** X19: the parent of a topic is what stands before its last dot,
    when a segment follows that dot, and the empty topic for a topic
    of one segment; a topic that ends with a dot, like the empty one,
    is its own parent, and no other topic is. *)
Theorem parent_topic_spec :
  (∀ p t, segment t = true →
     parent_topic (p +:+ String "." t) = p ∧ parent_topic t = "") ∧
  (∀ topic, parent_topic topic = topic ↔
     topic = "" ∨ ∃ p, topic = p +:+ ".").
Proof.
  split.
  - intros p t Ht. unfold parent_topic.
    rewrite segment_app_dot, Ht. by rewrite before_last_segment_app.
  - intros topic. unfold parent_topic. split.
    + destruct (segment topic) eqn:Hseg; [by intros <-|].
      intros [Hn|?]%before_last_segment_fixed; [left|by right].
      unfold segment in Hseg. rewrite Hn, andb_true_r in Hseg.
      by apply negb_false_iff, String.eqb_eq in Hseg.
    + intros [->|[p ->]]; [done|].
      change "." with (String "." ""). rewrite segment_app_dot.
      apply before_last_segment_dot.
Qed.

Example parent_topic_examples :
  parent_topic "a.b.c" = "a.b" ∧ parent_topic "a" = "" ∧
  parent_topic ".a" = "" ∧ parent_topic "a..b" = "a." ∧
  parent_topic "a." = "a." ∧ parent_topic "" = "".
Proof. by vm_compute. Qed.

Lemma parent_topic_spec_witness :
  parent_topic ("a.b" +:+ String "." "c") = "a.b" ∧ parent_topic "c" = "".
Proof. apply (proj1 parent_topic_spec "a.b" "c"). reflexivity. Defined.

(** ** [send] *)

Lemma subscribers_get_eval subscribers topic σ o :
  σ !! subscribers = Some o → kind_of o = KObject "Object" →
  subscribers_get subscribers topic σ =
    (Ok (match assoc topic (props o) with
         | Some v => Own v
         | None =>
             if bool_decide (topic ∈ inherited_names) then Inherited
             else Missing
         end), σ).
Proof.
  intros Hs Hk. unfold subscribers_get, bind, deref. by rewrite Hs, Hk.
Qed.

(** Without handlers for it, a topic gives nothing to call. *)
Lemma notify_all_none subscribers call topic data stop σ o :
  σ !! subscribers = Some o → kind_of o = KObject "Object" →
  assoc topic (props o) = None →
  notify_all subscribers call topic data stop σ = (Ok stop, σ).
Proof.
  intros Hs Hk Ht. unfold notify_all.
  rewrite (bind_Ok _ _ _ _ _ (subscribers_get_eval _ topic _ _ Hs Hk)), Ht.
  by destruct (bool_decide _).
Qed.

Lemma false_is_not_stopPropagation `{Host} σ :
  StringToNumber "stopPropagation" = NaN →
  loose_eq (Prim (PBoolean false)) (str "stopPropagation") σ = (Ok false, σ).
Proof.
  intros HNaN. unfold loose_eq, str, ret. do 2 f_equal.
  unfold loose_prim. simpl. by rewrite HNaN.
Qed.

(** X20: a topic that ends with a dot is its own parent, so that
    [send] on such a topic, when no handler is subscribed to it, calls
    itself with the same topic again and again until the stack is
    exhausted. *)
Theorem send_trailing_dot_diverges `{Host} subscribers call p o :
  StringToNumber "stopPropagation" = NaN →
  kind_of o = KObject "Object" →
  assoc (p +:+ ".") (props o) = None →
  ∀ fuel data σ,
    σ !! subscribers = Some o →
    (send subscribers call fuel (p +:+ ".") data σ).1 = StackOverflow.
Proof.
  intros HNaN Hk Ht fuel.
  assert (parent_topic (p +:+ ".") = p +:+ ".") as Hparent.
  { apply parent_topic_dot. }
  assert (to_boolean (str (p +:+ ".")) = true) as Htrue.
  { by destruct p. }
  induction fuel as [|fuel IH]; intros data σ Hs; [done|].
  cbn [send]. rewrite Htrue, Hparent.
  rewrite (bind_Ok _ _ _ _ _ (notify_all_none _ _ _ _ _ _ _ Hs Hk Ht)).
  rewrite (bind_Ok _ _ _ _ _ (false_is_not_stopPropagation _ HNaN)).
  cbn [negb]. unfold bind at 1, alloc at 1.
  apply IH. by apply lookup_app_l_Some.
Qed.

Lemma send_trailing_dot_diverges_witness :
  (@send decimal_host 0 stop_then_true 1000 ("x" +:+ ".") undefined
     pubsub_store).1 = StackOverflow.
Proof.
  apply (@send_trailing_dot_diverges decimal_host 0 stop_then_true "x"
           (Obj (KObject "Object") [("a", Ref 1); ("a.b", Ref 2)]
              (PString "[object Object]")));
    reflexivity.
Defined.

Lemma calm_ret {A} (a : A) : calm (ret a).
Proof. by intros σ. Qed.

Lemma calm_type_error {A} : calm (@type_error A).
Proof. by intros σ. Qed.

Lemma calm_unsupported {A} : calm (@unsupported A).
Proof. by intros σ. Qed.

Lemma calm_deref l : calm (deref l).
Proof. intros σ. unfold deref. by destruct (σ !! l). Qed.

Lemma calm_write l o : calm (write l o).
Proof. by intros σ. Qed.

Lemma calm_alloc o : calm (alloc o).
Proof. by intros σ. Qed.

Lemma calm_bind {A B} (m : M A) (f : A → M B) :
  calm m → (∀ a, calm (f a)) → calm (bind m f).
Proof.
  intros Hm Hf σ. unfold bind. specialize (Hm σ).
  destruct (m σ) as [[a| | |] σ']; simpl in *; try done. apply Hf.
Qed.

Create HintDb calm.
#[export] Hint Resolve calm_ret calm_type_error calm_unsupported calm_deref
  calm_write calm_alloc : calm.

Ltac calm_step :=
  lazymatch goal with
  | |- calm (bind _ _) => apply calm_bind; [|intros ?]
  | |- calm (match ?x with _ => _ end) => destruct x
  | |- calm (if ?x then _ else _) => destruct x
  | |- calm _ => first [assumption | solve [eauto with calm]]
  end.
Ltac solve_calm := repeat calm_step.

Lemma calm_array_elements l : calm (array_elements l).
Proof. unfold array_elements. solve_calm. Qed.

Lemma calm_loose_eq `{Host} a b : calm (loose_eq a b).
Proof. unfold loose_eq. solve_calm. Qed.

Lemma calm_subscribers_get subscribers topic :
  calm (subscribers_get subscribers topic).
Proof. unfold subscribers_get. solve_calm. Qed.

#[export] Hint Resolve calm_array_elements calm_loose_eq
  calm_subscribers_get : calm.

Section Calm.
Context `{Host}.
Variable subscribers : loc.
Variable call : loc → string → value → M value.
Hypothesis calm_call : ∀ l topic data, calm (call l topic data).

Lemma calm_notify topic data handler stop :
  calm (notify call topic data handler stop).
Proof using calm_call.
  unfold notify, apply_handler. solve_calm.
Qed.

Lemma calm_forEach_from n k array topic data stop :
  calm (forEach_from n k array (notify call topic data) stop).
Proof using calm_call.
  revert k stop. induction n as [|n IH]; intros k stop; simpl.
  - apply calm_ret.
  - apply calm_bind; [apply calm_array_elements|]. intros es.
    destruct (es !! k); [|apply IH].
    apply calm_bind; [apply calm_notify|]. intros stop'. apply IH.
Qed.

Lemma calm_notify_all topic data stop :
  calm (notify_all subscribers call topic data stop).
Proof using calm_call.
  unfold notify_all, forEach. pose proof calm_forEach_from. solve_calm.
Qed.

Lemma calm_send k :
  ∀ topic data,
    Nat.iter k parent_topic topic = "" →
    calm (send subscribers call (S k) topic data).
Proof using calm_call.
  induction k as [|k IH]; intros topic data Hk.
  - simpl in Hk. subst topic. apply calm_ret.
  - rewrite Nat.iter_succ_r in Hk.
    change (send subscribers call (S (S k)) topic data) with
      (let stop := Prim (PBoolean false) in
       let! stop :=
         (if to_boolean (str topic)
          then notify_all subscribers call topic data stop
          else ret stop) in
       if to_boolean (str topic) then
         let! stopped := loose_eq stop (str "stopPropagation") in
         if negb stopped then
           let parent := parent_topic topic in
           let! forwarded :=
             alloc (Obj (KObject "Object")
                      [("topic", str topic); ("data", data)]
                      (PString "[object Object]")) in
           send subscribers call (S k) parent (Ref forwarded)
         else ret tt
       else ret tt).
    cbv zeta. pose proof calm_notify_all.
    apply calm_bind; [destruct (to_boolean _); [done|apply calm_ret]|].
    intros stop. destruct (to_boolean _); [|apply calm_ret].
    apply calm_bind; [apply calm_loose_eq|]. intros stopped.
    destruct (negb stopped); [|apply calm_ret].
    apply calm_bind; [apply calm_alloc|]. intros forwarded. by apply IH.
Qed.
End Calm.

(** X21: [send] needs one call for the topic and one for each of its
    ancestors: when [k] steps lead from the topic to the empty topic
    and no handler exhausts the stack, a stack of [k + 1] calls is
    never exhausted. *)
Theorem send_stack_bounded_by_levels `{Host} subscribers call k topic data σ :
  (∀ l t d σ', (call l t d σ').1 ≠ StackOverflow) →
  Nat.iter k parent_topic topic = "" →
  (send subscribers call (S k) topic data σ).1 ≠ StackOverflow.
Proof.
  intros Hcall Hk. by apply calm_send.
Qed.

Lemma send_stack_bounded_by_levels_witness :
  (@send decimal_host 0 stop_then_true 3 "a.b" undefined pubsub_store).1
    ≠ StackOverflow.
Proof.
  apply (@send_stack_bounded_by_levels decimal_host 0 stop_then_true 2
           "a.b" undefined pubsub_store); [|reflexivity].
  intros l t d σ'. by destruct l as [|[|[|[|[|]]]]].
Defined.

(** ** What stops [send] *)

(** The loop over handlers that leave the store as it is *)
Lemma forEach_from_pure (callback : value → value → M value)
    (step : value → value → value) array hs pa ta σ :
  σ !! array = Some (Obj (KArray hs) pa ta) →
  (∀ h stop, h ∈ hs → callback h stop σ = (Ok (step stop h), σ)) →
  ∀ n k stop,
    k + n = length hs →
    forEach_from n k array callback stop σ =
      (Ok (foldl step stop (drop k hs)), σ).
Proof.
  intros Ha Hcb n. induction n as [|n IH]; intros k stop Hkn; simpl.
  - rewrite drop_ge by lia. done.
  - rewrite (bind_Ok _ _ _ _ _ (array_elements_eval _ _ _ _ _ Ha)).
    destruct (hs !! k) as [h|] eqn:Hk.
    + rewrite (bind_Ok _ _ _ _ _ (Hcb h stop (list_elem_of_lookup_2 _ _ _ Hk))).
      rewrite IH by lia. by rewrite (drop_S _ _ _ Hk).
    + apply lookup_ge_None in Hk. lia.
Qed.

Lemma foldl_last_truthy (r : value → value) hs stop :
  foldl (λ stop h, if to_boolean (r h) then r h else stop) stop hs =
    default stop (last (filter (λ v, to_boolean v) (r <$> hs))).
Proof.
  induction hs as [|h hs IH] using rev_ind; [done|].
  rewrite foldl_app, fmap_app, filter_app. simpl. rewrite IH.
  rewrite filter_cons, filter_nil.
  destruct (to_boolean (r h)); simpl.
  - by rewrite last_snoc.
  - by rewrite app_nil_r.
Qed.

(** X22: what decides whether [send] goes on to the parent is the last
    truthy value returned by the handlers of the topic, not any of
    them: a handler that returns ['stopPropagation'] is overruled by a
    later one that returns another truthy value.  The handlers are
    taken to leave the store as it is. *)
Theorem send_stop_last_truthy `{Host} subscribers call fuel topic data σ
    o array hs pa ta (r : value → value) stopped :
  σ !! subscribers = Some o → kind_of o = KObject "Object" →
  assoc topic (props o) = Some (Ref array) →
  σ !! array = Some (Obj (KArray hs) pa ta) →
  topic ≠ "" →
  (∀ h, h ∈ hs → apply_handler call h topic data σ = (Ok (r h), σ)) →
  (loose_eq
     (default (Prim (PBoolean false))
        (last (filter (λ v, to_boolean v) (r <$> hs))))
     (str "stopPropagation") σ).1 = Ok stopped →
  send subscribers call (S fuel) topic data σ =
    if stopped then (Ok tt, σ)
    else send subscribers call fuel (parent_topic topic) (Ref (length σ))
           (σ ++ [Obj (KObject "Object")
                    [("topic", str topic); ("data", data)]
                    (PString "[object Object]")]).
Proof.
  intros Hs Hk Ht Ha Hne Hpure Hstop.
  assert (to_boolean (str topic) = true) as Htrue.
  { simpl. by apply negb_true_iff, String.eqb_neq. }
  cbn [send]. rewrite Htrue.
  assert (notify_all subscribers call topic data (Prim (PBoolean false)) σ =
            (Ok (default (Prim (PBoolean false))
                   (last (filter (λ v, to_boolean v) (r <$> hs)))), σ))
    as Hnotify.
  { unfold notify_all, forEach.
    rewrite (bind_Ok _ _ _ _ _ (subscribers_get_eval _ topic _ _ Hs Hk)), Ht.
    rewrite (bind_Ok _ _ _ _ _ (array_elements_eval _ _ _ _ _ Ha)).
    rewrite (forEach_from_pure _
               (λ stop h, if to_boolean (r h) then r h else stop)
               _ _ _ _ _ Ha); [|..|done].
    - by rewrite drop_0, foldl_last_truthy.
    - intros h stop Hh. unfold notify.
      by rewrite (bind_Ok _ _ _ _ _ (Hpure h Hh)). }
  rewrite (bind_Ok _ _ _ _ _ Hnotify).
  rewrite (bind_reads _ _ _ _ (reads_loose_eq _ _) Hstop).
  by destruct stopped.
Qed.

Lemma send_stop_last_truthy_witness :
  @send decimal_host 0 stop_then_true 2 "a" undefined pubsub_store =
    @send decimal_host 0 stop_then_true 1 (parent_topic "a") (Ref 5)
      (pubsub_store ++
       [Obj (KObject "Object") [("topic", str "a"); ("data", undefined)]
          (PString "[object Object]")]).
Proof.
  apply (@send_stop_last_truthy decimal_host 0 stop_then_true 1 "a" undefined
           pubsub_store
           (Obj (KObject "Object") [("a", Ref 1); ("a.b", Ref 2)]
              (PString "[object Object]"))
           1 [Ref 3; Ref 4] []
           (PString "() => 'stopPropagation',() => true")
           (λ h, match h with
                 | Ref 3 => str "stopPropagation"
                 | _ => Prim (PBoolean true)
                 end)
           false);
    [reflexivity|reflexivity|reflexivity|reflexivity|discriminate| |reflexivity].
  intros h Hh. apply elem_of_cons in Hh as [->|Hh]; [reflexivity|].
  apply list_elem_of_singleton in Hh as ->. reflexivity.
Defined.

(** The handlers of ["a"] are [() => 'stopPropagation'] and
    [() => true]: [send("a.b", d)] stops at ["a.b"], whose only handler
    asks for it, while [send("a", d)] goes on to the parent of ["a"]. *)
Example send_stop_overruled :
  @send decimal_host 0 stop_then_true 1 "a.b" undefined pubsub_store =
    (Ok tt, pubsub_store) ∧
  (@send decimal_host 0 stop_then_true 1 "a" undefined pubsub_store).1 =
    StackOverflow ∧
  (@send decimal_host 0 stop_then_true 2 "a" undefined pubsub_store).1 =
    Ok tt.
Proof. by vm_compute. Qed.

(** ** The empty topic *)

Lemma forEach_from_ext (f g : value → value → M value) array :
  (∀ h stop σ, f h stop σ = g h stop σ) →
  ∀ n k stop σ,
    forEach_from n k array f stop σ = forEach_from n k array g stop σ.
Proof.
  intros Hfg n. induction n as [|n IH]; intros k stop σ; simpl; [done|].
  apply bind_ext. intros es σ' _. destruct (es !! k); [|apply IH].
  unfold bind. rewrite Hfg. destruct (g v stop σ') as [[]]; auto.
Qed.

Lemma bind_cong {A B} (m m' : M A) (f g : A → M B) σ :
  m σ = m' σ → (∀ a σ', f a σ' = g a σ') → bind m f σ = bind m' g σ.
Proof. intros Hm Hfg. unfold bind. rewrite Hm. destruct (m' σ) as [[]]; auto. Qed.

(** X23: [send] never calls a handler with the empty topic: two
    worlds whose handlers behave alike on the topics that are not
    empty are not told apart by [send].  The handlers subscribed to the
    empty topic, where the way up ends, are never notified. *)
Theorem send_never_calls_with_empty_topic `{Host} subscribers call call' :
  (∀ l topic data σ, topic ≠ "" → call l topic data σ = call' l topic data σ) →
  ∀ fuel topic data σ,
    send subscribers call fuel topic data σ =
    send subscribers call' fuel topic data σ.
Proof.
  intros Hcall fuel. induction fuel as [|fuel IH]; intros topic data σ; [done|].
  cbn [send]. destruct (String.eqb_spec topic "") as [->|Hne]; [done|].
  assert (to_boolean (str topic) = true) as ->.
  { simpl. by apply negb_true_iff, String.eqb_neq. }
  assert (notify_all subscribers call topic data (Prim (PBoolean false)) σ =
          notify_all subscribers call' topic data (Prim (PBoolean false)) σ)
    as Hnotify.
  { unfold notify_all. apply bind_ext. intros s σ' _.
    destruct s as [[p|array]| |]; try done.
    unfold forEach. apply bind_ext. intros es σ'' _.
    apply forEach_from_ext. intros h stop σ3. unfold notify, bind.
    assert (apply_handler call h topic data σ3 =
            apply_handler call' h topic data σ3) as ->; [|done].
    unfold apply_handler. destruct h as [p|l]; [done|].
    apply bind_ext. intros o σ4 _. destruct (kind_of o); try done.
    by apply Hcall. }
  apply bind_cong; [done|]. intros stop σ'.
  apply bind_ext. intros stopped σ'' _. destruct (negb stopped); [|done].
  apply bind_ext. intros forwarded σ3 _. apply IH.
Qed.

Lemma send_never_calls_with_empty_topic_witness :
  @send decimal_host 0
    (λ _ topic _, if String.eqb topic "" then type_error else ret undefined)
    3 "a.b" undefined [Obj (KObject "Object") [] (PString "[object Object]")] =
  @send decimal_host 0 (λ _ _ _, ret undefined)
    3 "a.b" undefined [Obj (KObject "Object") [] (PString "[object Object]")].
Proof.
  apply (@send_never_calls_with_empty_topic decimal_host 0).
  intros l topic data σ Hne. by apply String.eqb_neq in Hne as ->.
Defined.

(** ** Topics named like a member of [Object.prototype] *)

(** X24: for a topic that names a member of [Object.prototype], such as
    ["toString"], [subscribe] throws a [TypeError] and subscribes
    nothing, while [send] finds no handler for it and [unsubscribe]
    does nothing. *)
Theorem inherited_topic `{Host} subscribers call topic σ o :
  σ !! subscribers = Some o → kind_of o = KObject "Object" →
  assoc topic (props o) = None →
  topic ∈ inherited_names →
  (∀ handler, subscribe subscribers topic handler σ = (TypeError, σ)) ∧
  (∀ data stop,
     notify_all subscribers call topic data stop σ = (Ok stop, σ)) ∧
  (∀ l, unsubscribe subscribers topic (Ref l) σ = (Ok tt, σ)).
Proof.
  intros Hs Hk Ht Hin.
  pose proof (subscribers_get_eval _ topic _ _ Hs Hk) as Hget.
  rewrite Ht, bool_decide_eq_true_2 in Hget by done.
  split; [|split].
  - intros handler. unfold subscribe. cbv zeta.
    by rewrite (bind_Ok _ _ _ _ _ Hget).
  - intros data stop. by apply (notify_all_none _ _ _ _ _ _ o).
  - intros l. unfold unsubscribe. by rewrite (bind_Ok _ _ _ _ _ Hget).
Qed.

Lemma inherited_topic_witness :
  (∀ handler,
     subscribe 0 "toString" handler
       [Obj (KObject "Object") [] (PString "[object Object]")] =
     (TypeError, [Obj (KObject "Object") [] (PString "[object Object]")])) ∧
  (∀ data stop,
     notify_all 0 (λ _ _ _, ret undefined) "toString" data stop
       [Obj (KObject "Object") [] (PString "[object Object]")] =
     (Ok stop, [Obj (KObject "Object") [] (PString "[object Object]")])) ∧
  (∀ l, unsubscribe 0 "toString" (Ref l)
          [Obj (KObject "Object") [] (PString "[object Object]")] =
        (Ok tt, [Obj (KObject "Object") [] (PString "[object Object]")])).
Proof.
  apply (@inherited_topic decimal_host 0 (λ _ _ _, ret undefined) "toString"
           [Obj (KObject "Object") [] (PString "[object Object]")]
           (Obj (KObject "Object") [] (PString "[object Object]")));
    [reflexivity|reflexivity|reflexivity|].
  unfold inherited_names. repeat constructor.
Defined.

(** ** [subscribe] and [unsubscribe] *)

Lemma indexOf_None ys x : x ∉ ys → indexOf ys x = None.
Proof.
  intros Hx. destruct (indexOf ys x) as [i|] eqn:Hi; [|done].
  apply indexOf_Some, list_elem_of_lookup_2 in Hi. done.
Qed.

Lemma indexOf_first pre post l :
  Ref l ∉ pre → indexOf (pre ++ Ref l :: post) (Ref l) = Some (length pre).
Proof.
  intros Hpre. induction pre as [|y pre IH]; simpl.
  - by rewrite bool_decide_eq_true_2.
  - apply not_elem_of_cons in Hpre as [Hy Hpre].
    destruct (strict_eq y (Ref l)) eqn:Hs.
    + by apply strict_eq_true in Hs.
    + by rewrite IH.
Qed.

Lemma subscribers_array_distinct (σ : store) (subscribers array : loc) o hs pa ta :
  σ !! subscribers = Some o → kind_of o = KObject "Object" →
  σ !! array = Some (Obj (KArray hs) pa ta) → array ≠ subscribers.
Proof. intros Hs Hk Ha ->. rewrite Hs in Ha. by simplify_eq. Qed.

Lemma index_of_handler_eval σ array hs pa ta handler :
  σ !! array = Some (Obj (KArray hs) pa ta) →
  (let! es := array_elements array in ret (indexOf es handler)) σ =
    (Ok (indexOf hs handler), σ).
Proof.
  intros Ha. by rewrite (bind_Ok _ _ _ _ _ (array_elements_eval _ _ _ _ _ Ha)).
Qed.

(** [unsubscribe(topic, handler)] when [indexOf] finds the handler *)
Lemma unsubscribe_at subscribers topic σ o array hs pa ta l i :
  σ !! subscribers = Some o → kind_of o = KObject "Object" →
  assoc topic (props o) = Some (Ref array) →
  σ !! array = Some (Obj (KArray hs) pa ta) →
  indexOf hs (Ref l) = Some i →
  unsubscribe subscribers topic (Ref l) σ =
    (Ok tt, <[array := Obj (KArray (delete i hs)) pa ta]> σ).
Proof.
  intros Hs Hk Ht Ha Hi.
  pose proof (subscribers_get_eval _ topic _ _ Hs Hk) as Hget.
  rewrite Ht in Hget. unfold unsubscribe.
  rewrite (bind_Ok _ _ _ _ _ Hget).
  rewrite (bind_Ok _ _ _ _ _ (index_of_handler_eval _ _ _ _ _ _ Ha)).
  rewrite Hi. simpl. by rewrite (splice_eval _ _ _ _ _ _ Ha).
Qed.

(** X25: [unsubscribe(topic, handler)] removes one subscription of the
    handler, the first one: a handler subscribed twice is still
    subscribed once.  The other handlers keep their order, and nothing
    is written when the handler is not subscribed. *)
Theorem unsubscribe_first_occurrence subscribers topic σ o array hs pa ta l :
  σ !! subscribers = Some o → kind_of o = KObject "Object" →
  assoc topic (props o) = Some (Ref array) →
  σ !! array = Some (Obj (KArray hs) pa ta) →
  (Ref l ∉ hs → unsubscribe subscribers topic (Ref l) σ = (Ok tt, σ)) ∧
  (∀ pre post,
     hs = pre ++ Ref l :: post → Ref l ∉ pre →
     unsubscribe subscribers topic (Ref l) σ =
       (Ok tt, <[array := Obj (KArray (pre ++ post)) pa ta]> σ)).
Proof.
  intros Hs Hk Ht Ha.
  pose proof (subscribers_get_eval _ topic _ _ Hs Hk) as Hget.
  rewrite Ht in Hget. split.
  - intros Hl. unfold unsubscribe. rewrite (bind_Ok _ _ _ _ _ Hget).
    rewrite (bind_Ok _ _ _ _ _ (index_of_handler_eval _ _ _ _ _ _ Ha)).
    by rewrite indexOf_None.
  - intros pre post -> Hpre. unfold unsubscribe.
    rewrite (bind_Ok _ _ _ _ _ Hget).
    rewrite (bind_Ok _ _ _ _ _ (index_of_handler_eval _ _ _ _ _ _ Ha)).
    rewrite indexOf_first by done. simpl.
    rewrite (splice_eval _ _ _ _ _ _ Ha). by rewrite delete_middle.
Qed.

Lemma unsubscribe_first_occurrence_witness :
  unsubscribe 0 "a" (Ref 9) pubsub_store = (Ok tt, pubsub_store) ∧
  unsubscribe 0 "a" (Ref 3) pubsub_store =
    (Ok tt,
     <[1 := Obj (KArray ([] ++ [Ref 4])) []
              (PString "() => 'stopPropagation',() => true")]> pubsub_store).
Proof.
  pose proof (unsubscribe_first_occurrence 0 "a" pubsub_store
           (Obj (KObject "Object") [("a", Ref 1); ("a.b", Ref 2)]
              (PString "[object Object]"))
           1 [Ref 3; Ref 4] []
           (PString "() => 'stopPropagation',() => true")) as Hfirst.
  split.
  - apply (proj1 (Hfirst 9 eq_refl eq_refl eq_refl eq_refl)).
    intros Hin. apply elem_of_cons in Hin as [Hin|Hin]; [discriminate|].
    apply list_elem_of_singleton in Hin. discriminate.
  - apply (proj2 (Hfirst 3 eq_refl eq_refl eq_refl eq_refl) [] [Ref 4]);
      [reflexivity|apply not_elem_of_nil].
Defined.

Lemma assoc_filter_ne {V} (k k' : string) (kvs : list (string * V)) :
  assoc k' (filter (λ kv, kv.1 ≠ k) kvs) =
    if decide (k' = k) then None else assoc k' kvs.
Proof.
  induction kvs as [|[k0 v] kvs IH]; simpl; [by destruct (decide _)|].
  rewrite filter_cons. simpl.
  destruct (decide (k0 ≠ k)) as [Hne|Heq%dec_stable]; simpl.
  - rewrite IH. destruct (decide (k0 = k')) as [->|]; [|done].
    by rewrite decide_False.
  - subst k0. rewrite IH. destruct (decide (k' = k)) as [->|Hne]; [done|].
    by rewrite decide_False.
Qed.

(** X26: [unsubscribe(topic)] without a handler removes the topic from
    [subscribers] and leaves the other topics as they are.  It does
    not touch the array of handlers: a [forEach] that is running over
    it goes on. *)
Theorem unsubscribe_topic subscribers topic σ o array hs pa ta :
  σ !! subscribers = Some o → kind_of o = KObject "Object" →
  assoc topic (props o) = Some (Ref array) →
  σ !! array = Some (Obj (KArray hs) pa ta) →
  ∃ σ',
    unsubscribe subscribers topic undefined σ = (Ok tt, σ') ∧
    (subscribers_get subscribers topic σ').1 =
      Ok (if bool_decide (topic ∈ inherited_names) then Inherited
          else Missing) ∧
    (∀ topic', topic' ≠ topic →
       (subscribers_get subscribers topic' σ').1 =
       (subscribers_get subscribers topic' σ).1) ∧
    σ' !! array = Some (Obj (KArray hs) pa ta).
Proof.
  intros Hs Hk Ht Ha.
  pose proof (subscribers_array_distinct _ _ _ _ _ _ _ Hs Hk Ha) as Hne.
  pose proof (subscribers_get_eval _ topic _ _ Hs Hk) as Hget.
  rewrite Ht in Hget.
  set (o' := Obj (kind_of o) (filter (λ kv, kv.1 ≠ topic) (props o))
               (to_primitive o)).
  assert (<[subscribers := o']> σ !! subscribers = Some o') as Hs'.
  { apply list_lookup_insert_eq. by apply lookup_lt_Some in Hs. }
  exists (<[subscribers := o']> σ). repeat split.
  - unfold unsubscribe. rewrite (bind_Ok _ _ _ _ _ Hget).
    rewrite (bind_Ok _ _ _ _ _ (index_of_handler_eval _ _ _ _ _ _ Ha)).
    simpl. unfold subscribers_delete, bind, deref. by rewrite Hs.
  - rewrite (subscribers_get_eval _ topic _ _ Hs' Hk). simpl.
    by rewrite assoc_filter_ne, decide_True.
  - intros topic' Hne'.
    rewrite (subscribers_get_eval _ topic' _ _ Hs' Hk).
    rewrite (subscribers_get_eval _ topic' _ _ Hs Hk). simpl.
    by rewrite assoc_filter_ne, decide_False.
  - by rewrite list_lookup_insert_ne.
Qed.

Lemma unsubscribe_topic_witness :
  ∃ σ',
    unsubscribe 0 "a" undefined pubsub_store = (Ok tt, σ') ∧
    (subscribers_get 0 "a" σ').1 =
      Ok (if bool_decide ("a" ∈ inherited_names) then Inherited
          else Missing) ∧
    (∀ topic', topic' ≠ "a" →
       (subscribers_get 0 topic' σ').1 =
       (subscribers_get 0 topic' pubsub_store).1) ∧
    σ' !! 1 =
      Some (Obj (KArray [Ref 3; Ref 4]) []
              (PString "() => 'stopPropagation',() => true")).
Proof.
  apply (unsubscribe_topic 0 "a" pubsub_store
           (Obj (KObject "Object") [("a", Ref 1); ("a.b", Ref 2)]
              (PString "[object Object]")));
    reflexivity.
Defined.

Lemma push_eval σ array hs pa ta v :
  σ !! array = Some (Obj (KArray hs) pa ta) →
  push array v σ =
    (Ok (S (length hs)), <[array := Obj (KArray (hs ++ [v])) pa ta]> σ).
Proof. intros Ha. unfold push, bind, deref. by rewrite Ha. Qed.

Lemma assoc_assign_eq {V} (k : string) (v : V) kvs :
  assoc k (assign k v kvs) = Some v.
Proof.
  induction kvs as [|[k' v'] kvs IH]; simpl.
  - by rewrite decide_True.
  - destruct (decide (k' = k)) as [->|Hne]; simpl.
    + by rewrite decide_True.
    + by rewrite decide_False.
Qed.

Lemma assign_new {V} (k : string) (v : V) kvs :
  assoc k kvs = None → assign k v kvs = kvs ++ [(k, v)].
Proof.
  induction kvs as [|[k' v'] kvs IH]; simpl; [done|].
  destruct (decide (k' = k)); [done|]. intros Hk. by rewrite IH.
Qed.

(** X27: [subscribe] appends, [unsubscribe] removes the first
    occurrence.  On a topic that has handlers, subscribing a handler
    and unsubscribing it again leaves everything as it was when the
    handler was not subscribed before, and otherwise moves the handler
    to the end of the list.  On a topic that was never subscribed to,
    the store is not as it was: the topic stays in [subscribers], with
    the empty array that [subscribe] made for it. *)
Theorem subscribe_unsubscribe subscribers topic σ o l :
  σ !! subscribers = Some o → kind_of o = KObject "Object" →
  (∀ array hs pa ta,
     assoc topic (props o) = Some (Ref array) →
     σ !! array = Some (Obj (KArray hs) pa ta) →
     (Ref l ∉ hs →
        (let! _ := subscribe subscribers topic (Ref l) in
         unsubscribe subscribers topic (Ref l)) σ = (Ok tt, σ)) ∧
     (∀ pre post,
        hs = pre ++ Ref l :: post → Ref l ∉ pre →
        (let! _ := subscribe subscribers topic (Ref l) in
         unsubscribe subscribers topic (Ref l)) σ =
          (Ok tt,
           <[array := Obj (KArray (pre ++ post ++ [Ref l])) pa ta]> σ))) ∧
  (assoc topic (props o) = None → topic ∉ inherited_names →
     (let! _ := subscribe subscribers topic (Ref l) in
      unsubscribe subscribers topic (Ref l)) σ =
       (Ok tt,
        <[subscribers := Obj (kind_of o)
                           (props o ++ [(topic, Ref (length σ))])
                           (to_primitive o)]> σ ++
        [Obj (KArray []) [] (PString "")])).
Proof.
  intros Hs Hk. split.
  - intros array hs pa ta Ht Ha.
    pose proof (subscribers_array_distinct _ _ _ _ _ _ _ Hs Hk Ha) as Hne.
    pose proof (subscribers_get_eval _ topic _ _ Hs Hk) as Hget.
    rewrite Ht in Hget.
    assert (subscribe subscribers topic (Ref l) σ =
              (Ok (S (length hs)),
               <[array := Obj (KArray (hs ++ [Ref l])) pa ta]> σ)) as Hsub.
    { unfold subscribe. cbv zeta. rewrite (bind_Ok _ _ _ _ _ Hget).
      by apply push_eval. }
    set (σ1 := <[array := Obj (KArray (hs ++ [Ref l])) pa ta]> σ) in *.
    assert (σ1 !! subscribers = Some o) as Hs1.
    { unfold σ1. by rewrite list_lookup_insert_ne. }
    assert (σ1 !! array = Some (Obj (KArray (hs ++ [Ref l])) pa ta)) as Ha1.
    { apply list_lookup_insert_eq. by apply lookup_lt_Some in Ha. }
    rewrite (bind_Ok _ _ _ _ _ Hsub).
    split.
    + intros Hl.
      rewrite (unsubscribe_at _ _ _ _ _ _ _ _ l (length hs) Hs1 Hk Ht Ha1);
        [|by apply indexOf_first].
      rewrite (delete_middle hs []), app_nil_r.
      unfold σ1. rewrite list_insert_insert_eq. by rewrite list_insert_id.
    + intros pre post -> Hpre.
      rewrite (unsubscribe_at _ _ _ _ _ _ _ _ l (length pre) Hs1 Hk Ht Ha1);
        [|by rewrite <-app_assoc; apply indexOf_first].
      rewrite <-app_assoc. simpl. rewrite delete_middle.
      unfold σ1. by rewrite list_insert_insert_eq.
  - intros Ht Hin.
    pose proof (subscribers_get_eval _ topic _ _ Hs Hk) as Hget.
    rewrite Ht, bool_decide_eq_false_2 in Hget by done.
    pose proof (lookup_lt_Some _ _ _ Hs) as Hlt.
    set (empty := Obj (KArray []) [] (PString "")).
    set (o' := Obj (kind_of o) (assign topic (Ref (length σ)) (props o))
                 (to_primitive o)).
    set (σ2 := <[subscribers := o']> (σ ++ [empty])).
    assert (σ2 !! subscribers = Some o') as Hs2.
    { apply list_lookup_insert_eq. rewrite length_app. simpl. lia. }
    assert (σ2 !! length σ = Some empty) as Ha2.
    { unfold σ2. rewrite list_lookup_insert_ne by lia.
      by rewrite lookup_app_r, Nat.sub_diag by lia. }
    set (σ3 := <[length σ := Obj (KArray ([] ++ [Ref l])) [] (PString "")]> σ2).
    assert (subscribe subscribers topic (Ref l) σ = (Ok 1, σ3)) as Hsub.
    { unfold subscribe. cbv zeta. rewrite (bind_Ok _ _ _ _ _ Hget).
      rewrite (bind_Ok _ _ _ _ _ (spread_eval [] σ)).
      assert (subscribers_set subscribers topic (Ref (length σ)) (σ ++ [empty])
              = (Ok tt, σ2)) as Hset.
      { unfold subscribers_set, bind, deref.
        by rewrite (lookup_app_l_Some _ _ _ _ Hs). }
      rewrite (bind_Ok _ _ _ _ _ Hset).
      by rewrite (push_eval _ _ _ _ _ _ Ha2). }
    assert (σ3 !! subscribers = Some o') as Hs3.
    { unfold σ3. by rewrite list_lookup_insert_ne by lia. }
    assert (σ3 !! length σ = Some (Obj (KArray [Ref l]) [] (PString "")))
      as Ha3.
    { apply list_lookup_insert_eq. by apply lookup_lt_Some in Ha2. }
    rewrite (bind_Ok _ _ _ _ _ Hsub).
    rewrite (unsubscribe_at _ topic _ o' _ _ _ _ l 0 Hs3 Hk
               (assoc_assign_eq _ _ _) Ha3);
      [|simpl; by rewrite bool_decide_eq_true_2].
    simpl. unfold σ3. rewrite list_insert_insert_eq.
    rewrite list_insert_id by done.
    unfold σ2, o'. rewrite insert_app_l by done.
    by rewrite assign_new.
Qed.

Lemma subscribe_unsubscribe_witness :
  (let! _ := subscribe 0 "a" (Ref 9) in unsubscribe 0 "a" (Ref 9))
    pubsub_store = (Ok tt, pubsub_store) ∧
  (let! _ := subscribe 0 "a" (Ref 3) in unsubscribe 0 "a" (Ref 3))
    pubsub_store =
    (Ok tt,
     <[1 := Obj (KArray ([] ++ [Ref 4] ++ [Ref 3])) []
              (PString "() => 'stopPropagation',() => true")]> pubsub_store) ∧
  (let! _ := subscribe 0 "b" (Ref 3) in unsubscribe 0 "b" (Ref 3))
    pubsub_store =
    (Ok tt,
     <[0 := Obj (KObject "Object")
              ([("a", Ref 1); ("a.b", Ref 2)] ++ [("b", Ref 5)])
              (PString "[object Object]")]> pubsub_store ++
     [Obj (KArray []) [] (PString "")]).
Proof.
  pose proof (λ l, subscribe_unsubscribe 0 "a" pubsub_store
           (Obj (KObject "Object") [("a", Ref 1); ("a.b", Ref 2)]
              (PString "[object Object]")) l eq_refl eq_refl) as Hround.
  split_and!.
  - apply (proj1 (proj1 (Hround 9) 1 [Ref 3; Ref 4] []
                    (PString "() => 'stopPropagation',() => true")
                    eq_refl eq_refl)).
    intros Hin. apply elem_of_cons in Hin as [Hin|Hin]; [discriminate|].
    apply list_elem_of_singleton in Hin. discriminate.
  - apply (proj2 (proj1 (Hround 3) 1 [Ref 3; Ref 4] []
                    (PString "() => 'stopPropagation',() => true")
                    eq_refl eq_refl) [] [Ref 4]);
      [reflexivity|apply not_elem_of_nil].
  - apply (proj2 (subscribe_unsubscribe 0 "b" pubsub_store
           (Obj (KObject "Object") [("a", Ref 1); ("a.b", Ref 2)]
              (PString "[object Object]")) 3 eq_refl eq_refl));
      [reflexivity|].
    intros Hin. apply (bool_decide_pack _) in Hin. by vm_compute in Hin.
Defined.

(** ** Handlers that write to the list, handlers that throw *)

(** X28: a handler that unsubscribes itself while it is notified makes
    [send] skip the handler that follows it: [forEach] goes on to the
    next index, which the array has lost.  Whatever the second handler
    would do, it is not called. *)
Theorem send_skips_after_unsubscribe `{Host} subscribers call fuel topic data σ
    o array pa ta l1 l2 f1 c1 :
  StringToNumber "stopPropagation" = NaN →
  σ !! subscribers = Some o → kind_of o = KObject "Object" →
  assoc topic (props o) = Some (Ref array) →
  σ !! array = Some (Obj (KArray [Ref l1; Ref l2]) pa ta) →
  σ !! l1 = Some f1 → kind_of f1 = KFunction c1 →
  segment topic = true →
  (∀ σ', call l1 topic data σ' =
         (let! _ := unsubscribe subscribers topic (Ref l1) in ret undefined) σ') →
  send subscribers call (S (S fuel)) topic data σ =
    (Ok tt,
     <[array := Obj (KArray [Ref l2]) pa ta]> σ ++
     [Obj (KObject "Object") [("topic", str topic); ("data", data)]
        (PString "[object Object]")]).
Proof.
  intros HNaN Hs Hk Ht Ha Hl1 Hf1 Hseg Hcall.
  pose proof (subscribers_get_eval _ topic _ _ Hs Hk) as Hget.
  rewrite Ht in Hget.
  assert (to_boolean (str topic) = true) as Htrue.
  { unfold segment in Hseg. by apply andb_true_iff in Hseg as [? _]. }
  assert (parent_topic topic = "") as Hparent.
  { unfold parent_topic. by rewrite Hseg. }
  set (σ1 := <[array := Obj (KArray [Ref l2]) pa ta]> σ).
  assert (σ1 !! array = Some (Obj (KArray [Ref l2]) pa ta)) as Ha1.
  { apply list_lookup_insert_eq. by apply lookup_lt_Some in Ha. }
  assert (notify call topic data (Ref l1) (Prim (PBoolean false)) σ =
            (Ok (Prim (PBoolean false)), σ1)) as Hnotify.
  { unfold notify, apply_handler.
    assert ((let! o := deref l1 in
             match kind_of o with
             | KFunction _ => call l1 topic data
             | _ => type_error
             end) σ = (Ok undefined, σ1)) as Happly.
    { unfold bind at 1, deref at 1. rewrite Hl1, Hf1, Hcall.
      assert (indexOf [Ref l1; Ref l2] (Ref l1) = Some 0) as Hfirst.
      { simpl. by rewrite bool_decide_eq_true_2. }
      by rewrite (bind_Ok _ _ _ _ _
                    (unsubscribe_at _ _ _ _ _ _ _ _ _ _ Hs Hk Ht Ha Hfirst)). }
    by rewrite (bind_Ok _ _ _ _ _ Happly). }
  assert (notify_all subscribers call topic data (Prim (PBoolean false)) σ =
            (Ok (Prim (PBoolean false)), σ1)) as Hall.
  { unfold notify_all, forEach. rewrite (bind_Ok _ _ _ _ _ Hget).
    rewrite (bind_Ok _ _ _ _ _ (array_elements_eval _ _ _ _ _ Ha)).
    cbn [length forEach_from].
    rewrite (bind_Ok _ _ _ _ _ (array_elements_eval _ _ _ _ _ Ha)).
    cbn [lookup list_lookup]. rewrite (bind_Ok _ _ _ _ _ Hnotify).
    by rewrite (bind_Ok _ _ _ _ _ (array_elements_eval _ _ _ _ _ Ha1)). }
  cbn [send]. rewrite Htrue, Hparent.
  rewrite (bind_Ok _ _ _ _ _ Hall).
  rewrite (bind_Ok _ _ _ _ _ (false_is_not_stopPropagation _ HNaN)).
  done.
Qed.

Lemma send_skips_after_unsubscribe_witness :
  @send decimal_host 0 unsubscribes_itself 2 "a" undefined pubsub_store =
    (Ok tt,
     <[1 := Obj (KArray [Ref 4]) []
              (PString "() => 'stopPropagation',() => true")]> pubsub_store ++
     [Obj (KObject "Object") [("topic", str "a"); ("data", undefined)]
        (PString "[object Object]")]).
Proof.
  apply (@send_skips_after_unsubscribe decimal_host 0 unsubscribes_itself 0
           "a" undefined pubsub_store
           (Obj (KObject "Object") [("a", Ref 1); ("a.b", Ref 2)]
              (PString "[object Object]"))
           1 [] (PString "() => 'stopPropagation',() => true") 3 4
           (Obj (KFunction "Function") [] (PString "() => 'stopPropagation'"))
           "Function");
    reflexivity.
Defined.

(** X29: nothing is caught: when the first handler of a topic throws,
    [send] throws as well, with the store as that handler left it;
    the handlers after it and those of the ancestors are not called. *)
Theorem send_throws_with_handler `{Host} subscribers call fuel topic data σ
    o array hs pa ta l f c :
  σ !! subscribers = Some o → kind_of o = KObject "Object" →
  assoc topic (props o) = Some (Ref array) →
  σ !! array = Some (Obj (KArray (Ref l :: hs)) pa ta) →
  σ !! l = Some f → kind_of f = KFunction c →
  topic ≠ "" →
  (call l topic data σ).1 = TypeError →
  send subscribers call (S fuel) topic data σ =
    (TypeError, (call l topic data σ).2).
Proof.
  intros Hs Hk Ht Ha Hl Hf Hne Hthrow.
  pose proof (subscribers_get_eval _ topic _ _ Hs Hk) as Hget.
  rewrite Ht in Hget.
  assert (to_boolean (str topic) = true) as Htrue.
  { simpl. by apply negb_true_iff, String.eqb_neq. }
  assert (notify call topic data (Ref l) (Prim (PBoolean false)) σ =
            (TypeError, (call l topic data σ).2)) as Hnotify.
  { unfold notify, apply_handler, bind, deref. rewrite Hl, Hf.
    destruct (call l topic data σ) as [r σ']. simpl in *. by subst r. }
  assert (notify_all subscribers call topic data (Prim (PBoolean false)) σ =
            (TypeError, (call l topic data σ).2)) as Hall.
  { unfold notify_all, forEach. rewrite (bind_Ok _ _ _ _ _ Hget).
    rewrite (bind_Ok _ _ _ _ _ (array_elements_eval _ _ _ _ _ Ha)).
    cbn [length forEach_from].
    rewrite (bind_Ok _ _ _ _ _ (array_elements_eval _ _ _ _ _ Ha)).
    cbn [lookup list_lookup]. unfold bind. by rewrite Hnotify. }
  cbn [send]. rewrite Htrue. unfold bind at 1. by rewrite Hall.
Qed.

Lemma send_throws_with_handler_witness :
  @send decimal_host 0 throws 1 "a.b" undefined pubsub_store =
    (TypeError, (throws 3 "a.b" undefined pubsub_store).2).
Proof.
  apply (@send_throws_with_handler decimal_host 0 throws 0 "a.b" undefined
           pubsub_store
           (Obj (KObject "Object") [("a", Ref 1); ("a.b", Ref 2)]
              (PString "[object Object]"))
           2 [] [] (PString "() => 'stopPropagation'") 3
           (Obj (KFunction "Function") [] (PString "() => 'stopPropagation'"))
           "Function");
    [reflexivity|reflexivity|reflexivity|reflexivity|reflexivity|reflexivity
    |discriminate|reflexivity].
Defined.
